(** * AmbonMUD tools: the WebSocket swarm bot and the ROM area converter

    A shallow embedding of [tools/ws_rat_swarm_wander.py] (module [Swarm])
    and of [tools/convert_rom_area.py] (module [Convert]), with the
    properties of prompt detection, the connection primitives, the behaviour
    policy, the generated credentials and the converter's output.

    Conventions of the embedding.
    - A Python [str] is a [string]; its characters are the code points
      0..255.  Character classes ([str.isspace], [str.isdigit]) are the
      Python ones restricted to that range.
    - Python integers are [Z]; list positions and lengths are [nat].
    - Python floats are idealised: weights and random reals are rationals
      ([Q]); durations and the monotonic clock are whole ticks ([Z]).
    - A [dict] is an association list in insertion order, which the
      emitted YAML and the start room depend on.
    - Exceptions are values of [exn], carried by [Outcome].
    - Left out: the command line parsing, the console output, the creation
      of the output directory, and failures of the transport itself. *)

From Stdlib Require Import String Ascii List Bool Arith ZArith QArith Lia Lqa.
From Stdlib Require Import Sorted Permutation.
Import ListNotations.

Close Scope Q_scope.
Open Scope string_scope.

(** ** Python string primitives shared by both tools *)

Module Py.

Definition code (c : ascii) : nat := nat_of_ascii c.

Definition between (lo hi : nat) (c : ascii) : bool :=
  (lo <=? code c)%nat && (code c <=? hi)%nat.

(** [str.isspace] on one character: TAB..CR, FS..US, space, NEL, NBSP. *)
Definition isspace (c : ascii) : bool :=
  between 9 13 c || between 28 32 c || (code c =? 133)%nat || (code c =? 160)%nat.

(** The regex classes [0-9], [a-z] and [A-Z]. *)
Definition is_09 (c : ascii) : bool := between 48 57 c.
Definition is_az (c : ascii) : bool := between 97 122 c.
Definition is_AZ (c : ascii) : bool := between 65 90 c.

(** [str.isdigit] on one character: 0..9 and the superscripts 2, 3 and 1. *)
Definition isdigit (c : ascii) : bool :=
  is_09 c || (code c =? 178)%nat || (code c =? 179)%nat || (code c =? 185)%nat.

Definition rev_string (s : string) : string :=
  string_of_list_ascii (rev (list_ascii_of_string s)).

(** [s.lstrip(chars)], [s.rstrip(chars)] and [s.strip(chars)], the set of
    characters to drop given as a predicate. *)
Fixpoint lstrip_by (p : ascii -> bool) (s : string) : string :=
  match s with
  | String c t => if p c then lstrip_by p t else s
  | EmptyString => EmptyString
  end.

Definition rstrip_by (p : ascii -> bool) (s : string) : string :=
  rev_string (lstrip_by p (rev_string s)).

Definition strip_by (p : ascii -> bool) (s : string) : string :=
  rstrip_by p (lstrip_by p s).

Definition rstrip : string -> string := rstrip_by isspace.
Definition strip : string -> string := strip_by isspace.

(** [s.replace(c, r)] for a one-character pattern [c]. *)
Fixpoint replace (c : ascii) (r : string) (s : string) : string :=
  match s with
  | String a t => if (a =? c)%char then r ++ replace c r t else String a (replace c r t)
  | EmptyString => EmptyString
  end.

(** [s.split(c)] for a one-character separator: never an empty list. *)
Fixpoint split_on (c : ascii) (s : string) : list string :=
  match s with
  | EmptyString => [EmptyString]
  | String a t =>
      if (a =? c)%char then EmptyString :: split_on c t
      else match split_on c t with
           | h :: r => String a h :: r
           | [] => [String a EmptyString]
           end
  end.

(** [c in s]. *)
Fixpoint contains (c : ascii) (s : string) : bool :=
  match s with
  | String a t => (a =? c)%char || contains c t
  | EmptyString => false
  end.

(** Truthiness of a string: [bool(s)]. *)
Definition truthy (s : string) : bool :=
  match s with EmptyString => false | _ => true end.

(** Truthiness of an optional string: [None] and the empty string are
    false. *)
Definition is_set (s : option string) : bool :=
  match s with
  | Some x => truthy x
  | None => false
  end.

(** [a or b] on strings. *)
Definition or_else (a b : string) : string := if truthy a then a else b.

Definition LF : ascii := "010"%char.
Definition CR : ascii := "013"%char.
Definition ESC : ascii := "027"%char.

(** Exceptions raised by the two tools and by the library calls they make;
    their messages are left out. *)
Inductive exn : Type :=
  | TimeoutError
  | IndexError
  | ValueError
  | SystemExit.

(** The result of running a piece of code: a value, an exception, or a
    loop bound of the embedding used up. *)
Inductive Outcome (A : Type) : Type :=
  | Return (a : A)
  | Raise (e : exn)
  | OutOfFuel.
Arguments Return {A} a.
Arguments Raise {A} e.
Arguments OutOfFuel {A}.

(** Code that reads and writes a state [St] and may raise. *)
Definition Eff (St A : Type) : Type := St -> Outcome A * St.

Definition ret {St A} (a : A) : Eff St A := fun s => (Return a, s).

Definition raise {St A} (e : exn) : Eff St A := fun s => (Raise e, s).

Definition bind {St A B} (m : Eff St A) (k : A -> Eff St B) : Eff St B :=
  fun s =>
    match m s with
    | (Return a, s') => k a s'
    | (Raise e, s') => (Raise e, s')
    | (OutOfFuel, s') => (OutOfFuel, s')
    end.

Definition get {St} : Eff St St := fun s => (Return s, s).

Definition modify {St} (f : St -> St) : Eff St unit := fun s => (Return tt, f s).

Declare Scope eff_scope.
Delimit Scope eff_scope with eff.
Notation "x <- m ;; k" := (bind m (fun x => k))
  (at level 61, m at next level, right associativity) : eff_scope.
Notation "m ;; k" := (bind m (fun _ => k))
  (at level 61, right associativity) : eff_scope.

(** Code that only computes and may raise. *)
Definition obind {A B} (m : Outcome A) (k : A -> Outcome B) : Outcome B :=
  match m with
  | Return a => k a
  | Raise e => Raise e
  | OutOfFuel => OutOfFuel
  end.

Declare Scope res_scope.
Delimit Scope res_scope with res.
Notation "x <- m ;; k" := (obind m (fun x => k))
  (at level 61, m at next level, right associativity) : res_scope.
Notation "' pat <- m ;; k" := (obind m (fun x => match x with pat => k end))
  (at level 61, pat pattern, m at next level, right associativity) : res_scope.

(** [seq[i]] for [0 <= i]. *)
Definition getitem {A} (seq : list A) (i : nat) : Outcome A :=
  match nth_error seq i with
  | Some x => Return x
  | None => Raise IndexError
  end.

(** [str.lower] on one character. *)
Definition lower_char (c : ascii) : ascii :=
  if is_AZ c || (between 192 222 c && negb (code c =? 215)%nat)
  then ascii_of_nat (code c + 32)
  else c.

Fixpoint lower (s : string) : string :=
  match s with
  | String c t => String (lower_char c) (lower t)
  | EmptyString => EmptyString
  end.

(** [s.startswith(c)] for a one-character prefix. *)
Definition startswith (c : ascii) (s : string) : bool :=
  match s with
  | String a _ => (a =? c)%char
  | EmptyString => false
  end.

(** [s[1:]]. *)
Definition tail (s : string) : string :=
  match s with
  | String _ t => t
  | EmptyString => EmptyString
  end.

(** [s.split()]: the maximal runs of characters that are not whitespace. *)
Fixpoint split (s : string) : list string :=
  match s with
  | EmptyString => []
  | String c t =>
      if isspace c then split t
      else
        match t with
        | EmptyString => [String c EmptyString]
        | String c' _ =>
            if isspace c' then String c EmptyString :: split t
            else match split t with
                 | h :: r => String c h :: r
                 | [] => [String c EmptyString]
                 end
        end
  end.

(** The line boundaries of [str.splitlines]: LF, VT, FF, CR, FS, GS, RS, NEL. *)
Definition is_linebreak (c : ascii) : bool :=
  between 10 13 c || between 28 30 c || (code c =? 133)%nat.

(** [s.splitlines()]: CR LF is one boundary; no empty last line. *)
Fixpoint splitlines (s : string) : list string :=
  match s with
  | EmptyString => []
  | String c t =>
      if is_linebreak c then
        match t with
        | String c' t' =>
            if (c =? CR)%char && (c' =? LF)%char
            then EmptyString :: splitlines t'
            else EmptyString :: splitlines t
        | EmptyString => [EmptyString]
        end
      else match splitlines t with
           | h :: r => String c h :: r
           | [] => [String c EmptyString]
           end
  end.

(** [sep.join(parts)]. *)
Fixpoint join (sep : string) (parts : list string) : string :=
  match parts with
  | [] => EmptyString
  | [x] => x
  | x :: rest => x ++ sep ++ join sep rest
  end.

(** A [dict] with string keys, in insertion order. *)
Definition dict (V : Type) : Type := list (string * V).

(** [d[k]] as [d.get(k)]. *)
Fixpoint dict_get {V} (k : string) (d : dict V) : option V :=
  match d with
  | [] => None
  | (k', v) :: r => if k' =? k then Some v else dict_get k r
  end.

(** [k in d]. *)
Definition dict_mem {V} (k : string) (d : dict V) : bool :=
  match dict_get k d with Some _ => true | None => false end.

(** [d[k] = v]: a key already there keeps its place. *)
Fixpoint dict_set {V} (k : string) (v : V) (d : dict V) : dict V :=
  match d with
  | [] => [(k, v)]
  | (k', v') :: r => if k' =? k then (k, v) :: r else (k', v') :: dict_set k v r
  end.

(** [d.update(e)]. *)
Definition dict_update {V} (d e : dict V) : dict V :=
  fold_left (fun acc kv => dict_set (fst kv) (snd kv) acc) e d.

(** [f(d[k])] stored back in [d[k]], for a key that is there. *)
Fixpoint dict_adjust {V} (f : V -> V) (k : string) (d : dict V) : dict V :=
  match d with
  | [] => []
  | (k', v) :: r => if k' =? k then (k', f v) :: r else (k', v) :: dict_adjust f k r
  end.

(** [s.rfind(c)] for one character, when it is found. *)
Fixpoint rfind (c : ascii) (s : string) : option nat :=
  match s with
  | EmptyString => None
  | String a t =>
      match rfind c t with
      | Some i => Some (S i)
      | None => if (a =? c)%char then Some O else None
      end
  end.

(** [s.endswith(suffix)]. *)
Definition endswith (suffix s : string) : bool :=
  (String.length suffix <=? String.length s)%nat
  && (substring (String.length s - String.length suffix) (String.length suffix) s =? suffix).

(** [sorted(seq, key=...)], the order on keys given as [le]: a stable sort. *)
Fixpoint insert_sorted {A} (le : A -> A -> bool) (x : A) (l : list A) : list A :=
  match l with
  | [] => [x]
  | y :: r => if le x y then x :: y :: r else y :: insert_sorted le x r
  end.

Definition sorted {A} (le : A -> A -> bool) (l : list A) : list A :=
  fold_right (insert_sorted le) [] l.

(** The decimal digit [d], for [0 <= d < 10]. *)
Definition digit (d : Z) : ascii := ascii_of_nat (48 + Z.to_nat d).

(** The decimal digits of [n >= 0], most significant first; [fuel] bounds
    their number. *)
Fixpoint digits (fuel : nat) (n : Z) : string :=
  match fuel with
  | O => EmptyString
  | S fuel' =>
      (if (n <? 10)%Z then EmptyString else digits fuel' (n / 10))
      ++ String (digit (n mod 10)) EmptyString
  end.

(** [str(n)] for an integer: it has no more decimal digits than binary
    ones. *)
Definition str (n : Z) : string :=
  if (n <? 0)%Z then String "-" (digits (S (Z.to_nat (Z.log2 (- n)))) (- n))
  else digits (S (Z.to_nat (Z.log2 n))) n.

(** [needle in s] for two strings. *)
Fixpoint occurs (needle s : string) : bool :=
  prefix needle s
  || match s with
     | String _ t => occurs needle t
     | EmptyString => false
     end.

(** [max(a, b)] of the builtins: the first of the largest. *)
Definition max_Q (a b : Q) : Q := if Qle_bool b a then a else b.

End Py.

(** ** tools/ws_rat_swarm_wander.py *)

Module Swarm.
Import Py.

(** *** Prompt detection *)

(** The class [[0-9;]] of [ANSI_RE]. *)
Definition is_param (c : ascii) : bool := is_09 c || (c =? ";")%char.

(** The class [[A-Za-z]] of [ANSI_RE]. *)
Definition is_final (c : ascii) : bool := is_AZ c || is_az c.

(** The greedy [[0-9;]*]: the text left after the longest run. *)
Fixpoint skip_params (s : string) : string :=
  match s with
  | String c t => if is_param c then skip_params t else s
  | EmptyString => EmptyString
  end.

(** [ANSI_RE.match] at the start of [s]: the text after the match.  The two
    classes are disjoint, so giving back parameters never helps the final
    letter to match: the match exists iff a letter follows the longest run. *)
Definition ANSI_RE (s : string) : option string :=
  match s with
  | String e (String b t) =>
      if (e =? ESC)%char && (b =? "[")%char then
        match skip_params t with
        | String l r => if is_final l then Some r else None
        | EmptyString => None
        end
      else None
  | _ => None
  end.

(** [ANSI_RE.sub] with the empty replacement: scan from the left; a match is dropped and the
    scan goes on after it, any other character is kept.  [fuel] bounds the
    number of scan steps. *)
Fixpoint sub_ansi (fuel : nat) (s : string) : string :=
  match fuel with
  | O => s
  | S fuel' =>
      match s with
      | EmptyString => EmptyString
      | String c t =>
          match ANSI_RE s with
          | Some r => sub_ansi fuel' r
          | None => String c (sub_ansi fuel' t)
          end
      end
  end.

Definition _strip_ansi (s : string) : string := sub_ansi (String.length s) s.

Record PromptState := { at_prompt : bool }.

(** [PromptState.__init__]. *)
Definition PromptState_init : PromptState := {| at_prompt := false |}.

Definition _looks_like_prompt (frame : string) : bool :=
  if negb (truthy frame) then false
  else
    let s := _strip_ansi frame in
    let s := replace CR EmptyString s in
    if (strip s =? ">") then true
    else
      let parts := split_on LF s in
      match parts with
      | [] => false
      | _ => if (strip (last parts EmptyString) =? ">") then true else false
      end.

Definition observe_incoming (self : PromptState) (text : string) : PromptState :=
  if _looks_like_prompt text then {| at_prompt := true |} else self.

Definition sent_command (self : PromptState) : PromptState :=
  {| at_prompt := false |}.

(** The frame ["\x1b[32m> \x1b[0m"]. *)
Definition green_prompt : string :=
  String ESC "[32m> " ++ String ESC "[0m".

(** *** Configuration and counters *)

(** The fields of [SwarmConfig] the bot reads after start-up; the timeout
    is in ticks of the clock. *)
Record SwarmConfig := {
  move_weight : Q;
  kill_weight : Q;
  look_weight : Q;
  moves : list string;
  avoid_immediate_backtrack : bool;
  get_lantern : bool;
  get_every : Z;
  think_min_ms : Z;
  think_max_ms : Z;
  io_timeout_s : Z
}.

(** [moves_done] is the counter [moves] of the source, which the
    configuration has a field of the same name as. *)
Record BotStats := { kills : Z; moves_done : Z; gets : Z }.

(** [BotStats()]. *)
Definition BotStats_init : BotStats := {| kills := 0; moves_done := 0; gets := 0 |}.

(** *** The random source

    The module-level generator of [random] is a stream of raw draws; each
    library call takes the next one. *)

Definition Rng : Type := nat -> Z.

Definition Rand (A : Type) : Type := Eff Rng A.

Definition draw : Rand Z := fun g => (Return (g O), fun i => g (S i)).

(** [random.random()]: a multiple of 2^-53 in [0, 1). *)
Definition random : Rand Q :=
  (k <- draw ;; ret ((k mod 2 ^ 53) # (2 ^ 53))%Q)%eff.

(** [random.choice(seq)]: [seq[_randbelow(len(seq))]], [IndexError] on an
    empty sequence. *)
Definition choice {A} (seq : list A) : Rand A :=
  match seq with
  | [] => raise IndexError
  | _ =>
      (k <- draw ;;
       match nth_error seq (Z.to_nat (k mod Z.of_nat (List.length seq))) with
       | Some x => ret x
       | None => raise IndexError
       end)%eff
  end.

(** [random.randint(a, b)]: [a + _randbelow(b - a + 1)]. *)
Definition randint (a b : Z) : Rand Z :=
  if (b <? a)%Z then raise ValueError
  else (k <- draw ;; ret (a + k mod (b - a + 1))%Z)%eff.

(** *** The connection

    A WebSocket seen from the bot: the monotonic clock, the frames still to
    arrive with their arrival times, the frames sent so far, and the number
    of receive calls made.  A frame never arrives after the listed ones. *)

Inductive Frame : Type :=
  | TextFrame (s : string)
  | BinaryFrame (b : list ascii).

Record Connection := {
  clock : Z;
  inbox : list (Z * Frame);
  outbox : list string;
  recv_calls : nat
}.

Record Bot := {
  ws : Connection;
  ps : PromptState;
  stats : BotStats;
  last_move : option string;
  rng : Rng
}.

Definition IO (A : Type) : Type := Eff Bot A.

Definition set_ws (c : Connection) (b : Bot) : Bot :=
  {| ws := c; ps := ps b; stats := stats b; last_move := last_move b; rng := rng b |}.

Definition set_ps (p : PromptState) (b : Bot) : Bot :=
  {| ws := ws b; ps := p; stats := stats b; last_move := last_move b; rng := rng b |}.

Definition set_stats (s : BotStats) (b : Bot) : Bot :=
  {| ws := ws b; ps := ps b; stats := s; last_move := last_move b; rng := rng b |}.

Definition set_last_move (m : option string) (b : Bot) : Bot :=
  {| ws := ws b; ps := ps b; stats := stats b; last_move := m; rng := rng b |}.

Definition set_rng (g : Rng) (b : Bot) : Bot :=
  {| ws := ws b; ps := ps b; stats := stats b; last_move := last_move b; rng := g |}.

(** A computation on the random source, run by a bot. *)
Definition with_rng {A} (m : Rand A) : IO A :=
  fun b => let (r, g) := m (rng b) in (r, set_rng g b).

(** [time.monotonic()]. *)
Definition monotonic : IO Z := fun b => (Return (clock (ws b)), b).

(** [asyncio.sleep(d)]. *)
Definition sleep (d : Z) : IO unit :=
  modify (fun b =>
    let c := ws b in
    set_ws {| clock := clock c + Z.max 0 d; inbox := inbox c;
              outbox := outbox c; recv_calls := recv_calls c |} b).

(** [asyncio.wait_for(ws.recv(), timeout=timeout_s)]: the next frame if it
    is there before the timer fires, else [TimeoutError] once it has. *)
Definition recv_with_timeout (timeout_s : Z) : IO Frame :=
  fun b =>
    let c := ws b in
    let timed_out :=
      (Raise TimeoutError,
       set_ws {| clock := clock c + Z.max 0 timeout_s; inbox := inbox c;
                 outbox := outbox c; recv_calls := S (recv_calls c) |} b) in
    match inbox c with
    | (t, f) :: rest =>
        if (t <? clock c + timeout_s)%Z then
          (Return f,
           set_ws {| clock := Z.max (clock c) t; inbox := rest;
                     outbox := outbox c; recv_calls := S (recv_calls c) |} b)
        else timed_out
    | [] => timed_out
    end.

(** [ws.send(data)]. *)
Definition ws_send (data : string) : IO unit :=
  modify (fun b =>
    let c := ws b in
    set_ws {| clock := clock c; inbox := inbox c;
              outbox := (outbox c ++ [data])%list; recv_calls := recv_calls c |} b).

(** The [while True] loop of [recv_until_prompt].  Every turn that does not
    leave the loop takes a frame, so [fuel] above the number of frames to
    come is never used up. *)
Fixpoint recv_until_prompt_loop (fuel : nat) (deadline : Z) : IO unit :=
  match fuel with
  | O => fun b => (OutOfFuel, b)
  | S fuel' =>
      (now <- monotonic ;;
       let remaining := (deadline - now)%Z in
       if (remaining <=? 0)%Z then raise TimeoutError
       else
         msg <- recv_with_timeout remaining ;;
         match msg with
         | BinaryFrame _ => recv_until_prompt_loop fuel' deadline
         | TextFrame text =>
             modify (fun b => set_ps (observe_incoming (ps b) text) b) ;;
             b <- get ;;
             if at_prompt (ps b) then ret tt
             else recv_until_prompt_loop fuel' deadline
         end)%eff
  end.

Definition recv_until_prompt (timeout_s : Z) : IO unit :=
  (b <- get ;;
   if at_prompt (ps b) then ret tt
   else
     now <- monotonic ;;
     let deadline := (now + timeout_s)%Z in
     recv_until_prompt_loop (S (List.length (inbox (ws b)))) deadline)%eff.

Definition send_line (line : string) : IO unit :=
  (ws_send (line ++ String LF EmptyString) ;;
   modify (fun b => set_ps (sent_command (ps b)) b))%eff.

Definition send_and_wait_prompt (cmd : string) (timeout_s : Z) : IO unit :=
  (recv_until_prompt timeout_s ;;
   send_line cmd ;;
   recv_until_prompt timeout_s)%eff.

(** *** Behaviour policy *)

Definition Qltb (x y : Q) : bool := negb (Qle_bool y x).

Definition choose_action (cfg : SwarmConfig) : Rand string :=
  (let total := move_weight cfg + kill_weight cfg + look_weight cfg in
   u <- random ;;
   let r := u * total in
   if Qltb r (move_weight cfg) then ret "move"
   else
     let r := r - move_weight cfg in
     if Qltb r (kill_weight cfg) then ret "kill"
     else ret "look")%eff%Q.

Definition OPPOSITE (k : string) : option string :=
  if k =? "north" then Some "south"
  else if k =? "south" then Some "north"
  else if k =? "east" then Some "west"
  else if k =? "west" then Some "east"
  else if k =? "up" then Some "down"
  else if k =? "down" then Some "up"
  else None.

(** [m != back] for a string [m] and an optional string [back]. *)
Definition differs (m : string) (back : option string) : bool :=
  match back with
  | Some s => negb (m =? s)
  | None => true
  end.

(** [OPPOSITE.get(last_move)]. *)
Definition OPPOSITE_get (last_move : option string) : option string :=
  match last_move with
  | Some lm => OPPOSITE lm
  | None => None
  end.

Definition choose_move (cfg : SwarmConfig) (last_move : option string) : Rand string :=
  if negb (avoid_immediate_backtrack cfg) || negb (is_set last_move)
  then choice (moves cfg)
  else
    let back := OPPOSITE_get last_move in
    let candidates := filter (fun m => differs m back) (moves cfg) in
    if negb (Nat.eqb (List.length candidates) 0) then choice candidates
    else choice (moves cfg).

(** *** Credentials *)

Fixpoint zeros (n : nat) : string :=
  match n with
  | O => EmptyString
  | S n' => String "0" (zeros n')
  end.

(** [f"{n:04d}"]: sign first, then zeros up to a width of four, then the
    digits. *)
Definition format_04d (n : Z) : string :=
  let sign := if (n <? 0)%Z then "-" else EmptyString in
  let body := str (Z.abs n) in
  sign ++ zeros (4 - String.length sign - String.length body) ++ body.

(** [string.ascii_lowercase + string.digits]. *)
Definition alphabet : string := "abcdefghijklmnopqrstuvwxyz0123456789".

Fixpoint _rand_suffix (n : nat) : Rand string :=
  match n with
  | O => ret EmptyString
  | S n' =>
      (c <- choice (list_ascii_of_string alphabet) ;;
       rest <- _rand_suffix n' ;;
       ret (String c rest))%eff
  end.

(** The first lines of [bot_task]: the login name and the password. *)
Definition bot_task_credentials (bot_id : Z) : Rand (string * string) :=
  (suffix <- _rand_suffix 4 ;;
   let name := "Bot" ++ format_04d bot_id ++ "_" ++ suffix in
   suffix <- _rand_suffix 6 ;;
   let password := "Pw" ++ format_04d bot_id ++ "_" ++ suffix in
   ret (name, password))%eff.

(** *** One turn of the action loop of [bot_task] *)

Definition add_kill (s : BotStats) : BotStats :=
  {| kills := kills s + 1; moves_done := moves_done s; gets := gets s |}.

Definition add_move (s : BotStats) : BotStats :=
  {| kills := kills s; moves_done := moves_done s + 1; gets := gets s |}.

Definition add_get (s : BotStats) : BotStats :=
  {| kills := kills s; moves_done := moves_done s; gets := gets s + 1 |}.

(** The kill branch: the command, the counter, the loot trigger. *)
Definition bot_task_kill (cfg : SwarmConfig) : IO unit :=
  (send_and_wait_prompt "kill rat" (io_timeout_s cfg) ;;
   modify (fun b => set_stats (add_kill (stats b)) b) ;;
   b <- get ;;
   if get_lantern cfg && (get_every cfg >? 0)%Z
      && (kills (stats b) mod get_every cfg =? 0)%Z
   then
     send_and_wait_prompt "get lantern" (io_timeout_s cfg) ;;
     modify (fun b => set_stats (add_get (stats b)) b)
   else ret tt)%eff.

(** The body of [while time.monotonic() < stop_at]. *)
Definition bot_task_turn (cfg : SwarmConfig) : IO unit :=
  (think_ms <- with_rng (randint (think_min_ms cfg) (think_max_ms cfg)) ;;
   sleep think_ms ;;
   action <- with_rng (choose_action cfg) ;;
   if action =? "look" then
     send_and_wait_prompt "look" (io_timeout_s cfg)
   else if action =? "move" then
     b <- get ;;
     mv <- with_rng (choose_move cfg (last_move b)) ;;
     send_and_wait_prompt mv (io_timeout_s cfg) ;;
     modify (fun b => set_stats (add_move (stats b)) b) ;;
     modify (set_last_move (Some mv))
   else bot_task_kill cfg)%eff.

(** *** Waiting for a text, and the login *)

(** The values of [LOGIN_NEEDLES]. *)
Definition needle_enter_name : string := "Enter your name:".
Definition needle_create_user : string := "Create a new user? (yes/no)".
Definition needle_create_password : string := "Create a password:".

(** The [while True] loop of [recv_until_contains]; [buf] holds the text
    frames received so far. *)
Fixpoint recv_until_contains_loop (fuel : nat) (needle : string) (deadline : Z)
    (buf : string) : IO unit :=
  match fuel with
  | O => fun b => (OutOfFuel, b)
  | S fuel' =>
      (now <- monotonic ;;
       let remaining := (deadline - now)%Z in
       if (remaining <=? 0)%Z then raise TimeoutError
       else
         msg <- recv_with_timeout remaining ;;
         match msg with
         | BinaryFrame _ => recv_until_contains_loop fuel' needle deadline buf
         | TextFrame text =>
             modify (fun b => set_ps (observe_incoming (ps b) text) b) ;;
             let buf := buf ++ text in
             if occurs needle buf then ret tt
             else recv_until_contains_loop fuel' needle deadline buf
         end)%eff
  end.

Definition recv_until_contains (needle : string) (timeout_s : Z) : IO unit :=
  (b <- get ;;
   now <- monotonic ;;
   let deadline := (now + timeout_s)%Z in
   recv_until_contains_loop (S (List.length (inbox (ws b)))) needle deadline EmptyString)%eff.

Definition login_new_user (name password : string) (timeout_s : Z) : IO unit :=
  (recv_until_contains needle_enter_name timeout_s ;;
   recv_until_prompt timeout_s ;;
   send_and_wait_prompt name timeout_s ;;
   recv_until_contains needle_create_user timeout_s ;;
   recv_until_prompt timeout_s ;;
   send_and_wait_prompt "yes" timeout_s ;;
   recv_until_contains needle_create_password timeout_s ;;
   recv_until_prompt timeout_s ;;
   send_and_wait_prompt password timeout_s ;;
   recv_until_prompt timeout_s)%eff.

(** *** The life of a bot *)

(** The [while time.monotonic() < stop_at] loop of [bot_task].  A turn that
    returns has taken a frame, so [fuel] above the number of frames to come
    is never used up. *)
Fixpoint bot_task_loop (fuel : nat) (cfg : SwarmConfig) (stop_at : Z) : IO unit :=
  match fuel with
  | O => fun b => (OutOfFuel, b)
  | S fuel' =>
      (now <- monotonic ;;
       if (now <? stop_at)%Z then
         bot_task_turn cfg ;;
         bot_task_loop fuel' cfg stop_at
       else ret tt)%eff
  end.

(** [bot_task] from the point where the connection is open: the bot holds
    the connection and its counters, the prompt state and the last move are
    new. *)
Definition bot_task (bot_id : Z) (cfg : SwarmConfig) (stop_at : Z) : IO unit :=
  (credentials <- with_rng (bot_task_credentials bot_id) ;;
   modify (set_ps PromptState_init) ;;
   modify (set_last_move None) ;;
   login_new_user (fst credentials) (snd credentials) (io_timeout_s cfg) ;;
   b <- get ;;
   bot_task_loop (S (List.length (inbox (ws b)))) cfg stop_at)%eff.

(** *** The command line

    The options of [parse_args] that end up in the fields above, as argparse
    hands them over, and the configuration built from them.  The timeout is
    in ticks, a thousand to the second. *)

Record Args := {
  a_move_weight : Q;
  a_kill_weight : Q;
  a_look_weight : Q;
  a_moves : list string;
  a_avoid_immediate_backtrack : bool;
  a_get_lantern : bool;
  a_get_every : Z;
  a_think_min_ms : Z;
  a_think_max_ms : Z;
  a_io_timeout_s : Z
}.

Definition parse_args (a : Args) : SwarmConfig :=
  {| move_weight := max_Q 0 (a_move_weight a);
     kill_weight := max_Q 0 (a_kill_weight a);
     look_weight := max_Q 0 (a_look_weight a);
     moves := a_moves a;
     avoid_immediate_backtrack := a_avoid_immediate_backtrack a;
     get_lantern := a_get_lantern a;
     get_every := Z.max 1 (a_get_every a);
     think_min_ms := Z.max 0 (a_think_min_ms a);
     think_max_ms := Z.max 0 (a_think_max_ms a);
     io_timeout_s := Z.max 2000 (a_io_timeout_s a) |}.

End Swarm.

(** ** tools/convert_rom_area.py *)

Module Convert.
Import Py.

Definition DIRECTION_MAP : dict string :=
  [("0", "north"); ("1", "east"); ("2", "south"); ("3", "west"); ("4", "up"); ("5", "down")].

(** The three dataclasses; the fields of [Mob] and [Item] carry the class
    in their names. *)
Record Room := {
  vnum : string;
  title : string;
  description : string;
  exits : dict string
}.

Record Mob := { mob_vnum : string; mob_name : string; mob_room_vnum : option string }.

Record Item := { item_vnum : string; item_name : string; item_room_vnum : option string }.

Definition clean_tilde (text : string) : string := strip (replace "~" EmptyString text).

(** [re.sub(r"[^a-z0-9]+", "_", s)]: every longest run of other characters
    becomes one underscore.  [in_run] tells that the scan is inside a run. *)
Fixpoint sub_non_alnum (in_run : bool) (s : string) : string :=
  match s with
  | EmptyString => EmptyString
  | String c t =>
      if is_az c || is_09 c then String c (sub_non_alnum false t)
      else if in_run then sub_non_alnum true t
      else String "_" (sub_non_alnum true t)
  end.

Definition slug (text : string) : string :=
  or_else (strip_by (fun c => (c =? "_")%char) (sub_non_alnum false (lower text))) "zone".

Definition DQUOTE : ascii := "034"%char.

Definition quote (s : string) : string :=
  String DQUOTE
    (replace DQUOTE (String "\" (String DQUOTE EmptyString)) (replace "\" "\\" s)
     ++ String DQUOTE EmptyString).

(** The values [dump_yaml] is given. *)
#[warnings="-register-all"]
Inductive value : Type :=
  | VStr (s : string)
  | VInt (n : Z)
  | VBool (b : bool)
  | VDict (d : list (string * value))
  | VList (l : list value).

Fixpoint pad (indent : nat) : string :=
  match indent with
  | O => EmptyString
  | S n => "  " ++ pad n
  end.

Fixpoint dump_yaml (v : value) (indent : nat) : list string :=
  match v with
  | VDict d =>
      (fix entries (d : list (string * value)) : list string :=
         match d with
         | [] => []
         | (k, x) :: rest =>
             List.app
               match x with
               | VDict _ | VList _ => (pad indent ++ k ++ ":") :: dump_yaml x (S indent)
               | VStr t => [pad indent ++ k ++ ": " ++ quote t]
               | VBool b => [pad indent ++ k ++ ": " ++ (if b then "true" else "false")]
               | VInt n => [pad indent ++ k ++ ": " ++ str n]
               end
               (entries rest)
         end) d
  | VList l =>
      (fix items (l : list value) : list string :=
         match l with
         | [] => []
         | x :: rest =>
             List.app
               match x with
               | VDict _ | VList _ => (pad indent ++ "-") :: dump_yaml x (S indent)
               | VStr t => [pad indent ++ "- " ++ quote t]
               | VBool b => [pad indent ++ "- " ++ (if b then "True" else "False")]
               | VInt n => [pad indent ++ "- " ++ str n]
               end
               (items rest)
         end) l
  | _ => []
  end.

(** *** The section parsers

    [lines] is the text of the area file, line by line; [i] is the position
    of the line looked at.  Every turn of every loop moves [i] forward, so a
    [fuel] above the number of lines, such as [enough], is never used up. *)

Section Parsers.

Variable lines : list string.

Definition enough : nat := S (List.length lines).

(** [while i < len(lines) and "~" not in lines[i]: i += 1]. *)
Fixpoint skip_to_tilde (fuel : nat) (i : nat) : Outcome nat :=
  match fuel with
  | O => OutOfFuel
  | S fuel' =>
      match nth_error lines i with
      | Some l => if negb (contains "~" l) then skip_to_tilde fuel' (S i) else Return i
      | None => Return i
      end
  end.

(** The same loop, collecting [lines[i].rstrip()] in [desc]. *)
Fixpoint read_desc (fuel : nat) (i : nat) (desc : list string) : Outcome (nat * list string) :=
  match fuel with
  | O => OutOfFuel
  | S fuel' =>
      match nth_error lines i with
      | Some l =>
          if negb (contains "~" l) then read_desc fuel' (S i) (desc ++ [rstrip l])%list
          else Return (i, desc)
      | None => Return (i, desc)
      end
  end.

(** [DIRECTION_MAP.get(d, f"dir_{d}")]. *)
Definition direction (d : string) : string :=
  match dict_get d DIRECTION_MAP with
  | Some name => name
  | None => "dir_" ++ d
  end.

(** [cur.startswith("D") and len(cur) == 2 and cur[1].isdigit()]. *)
Definition is_exit_line (cur : string) : bool :=
  startswith "D" cur && (String.length cur =? 2)%nat
  && match String.get 1 cur with Some c => isdigit c | None => false end.

(** The loop over the exits of one room, up to its [S] line. *)
Fixpoint read_exits (fuel : nat) (i : nat) (exits : dict string) : Outcome (nat * dict string) :=
  match fuel with
  | O => OutOfFuel
  | S fuel' =>
      match nth_error lines i with
      | None => Return (i, exits)
      | Some l =>
          let cur := strip l in
          if is_exit_line cur then
            let d := tail cur in
            let i := S i in
            (i <- skip_to_tilde enough i ;;
             let i := S i in
             i <- skip_to_tilde enough i ;;
             let i := S i in
             match nth_error lines i with
             | Some l' =>
                 let parts := split l' in
                 let exits :=
                   if (3 <=? List.length parts)%nat
                   then dict_set (direction d) (nth 2 parts EmptyString) exits
                   else exits in
                 read_exits fuel' (S i) exits
             | None => read_exits fuel' i exits
             end)%res
          else if cur =? "S" then Return (S i, exits)
          else read_exits fuel' (S i) exits
      end
  end.

(** The [while] loop of [parse_rooms]. *)
Fixpoint parse_rooms_loop (fuel : nat) (i : nat) (rooms : dict Room) : Outcome (nat * dict Room) :=
  match fuel with
  | O => OutOfFuel
  | S fuel' =>
      match nth_error lines i with
      | None => Return (i, rooms)
      | Some l =>
          let line := strip l in
          if line =? "#0" then Return (S i, rooms)
          else if negb (startswith "#" line) || (line =? "#ROOMS")
          then parse_rooms_loop fuel' (S i) rooms
          else
            let vnum := tail line in
            let i := S i in
            (l <- getitem lines i ;;
             let title := clean_tilde l in
             let i := S i in
             '(i, desc) <- read_desc enough i [] ;;
             let '(i, desc) :=
               match nth_error lines i with
               | Some l => (S i, (desc ++ [rstrip (replace "~" EmptyString l)])%list)
               | None => (i, desc)
               end in
             let i := S i in
             '(i, exits) <- read_exits enough i [] ;;
             let room :=
               {| vnum := vnum; title := title;
                  description :=
                    or_else (strip (join (String LF EmptyString) (filter truthy desc)))
                            "(no description)";
                  exits := exits |} in
             parse_rooms_loop fuel' i (dict_set vnum room rooms))%res
      end
  end.

Definition parse_rooms (i : nat) : Outcome (nat * dict Room) :=
  parse_rooms_loop enough i [].

(** [while i < len(lines) and not lines[i].strip().startswith("#"): i += 1]. *)
Fixpoint skip_to_hash (fuel : nat) (i : nat) : Outcome nat :=
  match fuel with
  | O => OutOfFuel
  | S fuel' =>
      match nth_error lines i with
      | Some l => if negb (startswith "#" (strip l)) then skip_to_hash fuel' (S i) else Return i
      | None => Return i
      end
  end.

(** The [while] loop of [parse_entities]. *)
Fixpoint parse_entities_loop (section : string) (fuel : nat) (i : nat) (out : dict string)
  : Outcome (nat * dict string) :=
  match fuel with
  | O => OutOfFuel
  | S fuel' =>
      match nth_error lines i with
      | None => Return (i, out)
      | Some l =>
          let line := strip l in
          if line =? "#0" then Return (S i, out)
          else if negb (startswith "#" line) || (line =? section)
          then parse_entities_loop section fuel' (S i) out
          else
            let vnum := tail line in
            let i := S i in
            (l <- getitem lines i ;;
             let out := dict_set vnum (or_else (clean_tilde l) (lower section ++ " " ++ vnum)) out in
             i <- skip_to_hash enough i ;;
             parse_entities_loop section fuel' i out)%res
      end
  end.

Definition parse_entities (i : nat) (section : string) : Outcome (nat * dict string) :=
  parse_entities_loop section enough i [].

Definition set_mob_room (room : string) (m : Mob) : Mob :=
  {| mob_vnum := mob_vnum m; mob_name := mob_name m; mob_room_vnum := Some room |}.

Definition set_item_room (room : string) (it : Item) : Item :=
  {| item_vnum := item_vnum it; item_name := item_name it; item_room_vnum := Some room |}.

(** The [while] loop of [parse_resets]; the two tables are updated in place
    by the source and handed back here. *)
Fixpoint parse_resets_loop (fuel : nat) (i : nat) (room : option string)
    (mobs : dict Mob) (items : dict Item) : Outcome (nat * dict Mob * dict Item) :=
  match fuel with
  | O => OutOfFuel
  | S fuel' =>
      match nth_error lines i with
      | None => Return (i, mobs, items)
      | Some l =>
          let line := strip l in
          if line =? "S" then Return (S i, mobs, items)
          else
            let parts := split line in
            let code := match parts with c :: _ => c | [] => EmptyString end in
            let part k := nth k parts EmptyString in
            if (code =? "M") && (5 <=? List.length parts)%nat && dict_mem (part 2) mobs then
              parse_resets_loop fuel' (S i) (Some (part 4))
                (dict_adjust (set_mob_room (part 4)) (part 2) mobs) items
            else if (code =? "O") && (4 <=? List.length parts)%nat && dict_mem (part 2) items then
              parse_resets_loop fuel' (S i) (Some (part 3))
                mobs (dict_adjust (set_item_room (part 3)) (part 2) items)
            else if (code =? "G") && (3 <=? List.length parts)%nat && is_set room
                    && dict_mem (part 2) items then
              parse_resets_loop fuel' (S i) room
                mobs (dict_adjust (set_item_room (match room with Some r => r | None => EmptyString end))
                        (part 2) items)
            else parse_resets_loop fuel' (S i) room mobs items
      end
  end.

Definition parse_resets (i : nat) (mobs : dict Mob) (items : dict Item)
  : Outcome (nat * dict Mob * dict Item) :=
  parse_resets_loop enough i None mobs items.

(** The three tables of [parse_area]. *)
Record Tables := { rooms : dict Room; mobs : dict Mob; items : dict Item }.

(** The [while] loop of [parse_area] over the section headers. *)
Fixpoint parse_area_loop (fuel : nat) (i : nat) (t : Tables) : Outcome Tables :=
  match fuel with
  | O => OutOfFuel
  | S fuel' =>
      match nth_error lines i with
      | None => Return t
      | Some l =>
          let s := strip l in
          if s =? "#ROOMS" then
            ('(i, r) <- parse_rooms (S i) ;;
             parse_area_loop fuel' i
               {| rooms := dict_update (rooms t) r; mobs := mobs t; items := items t |})%res
          else if s =? "#MOBILES" then
            ('(i, m) <- parse_entities (S i) "#MOBILES" ;;
             parse_area_loop fuel' i
               {| rooms := rooms t;
                  mobs := dict_update (mobs t)
                            (map (fun kv => (fst kv, {| mob_vnum := fst kv; mob_name := snd kv;
                                                        mob_room_vnum := None |})) m);
                  items := items t |})%res
          else if s =? "#OBJECTS" then
            ('(i, o) <- parse_entities (S i) "#OBJECTS" ;;
             parse_area_loop fuel' i
               {| rooms := rooms t; mobs := mobs t;
                  items := dict_update (items t)
                             (map (fun kv => (fst kv, {| item_vnum := fst kv; item_name := snd kv;
                                                         item_room_vnum := None |})) o) |})%res
          else if s =? "#RESETS" then
            ('(i, m, it) <- parse_resets (S i) (mobs t) (items t) ;;
             parse_area_loop fuel' i {| rooms := rooms t; mobs := m; items := it |})%res
          else parse_area_loop fuel' (S i) t
      end
  end.

End Parsers.

(** *** The emitted configuration *)

Definition rid (v : string) : string := "r" ++ v.

Definition room_entry (rooms : dict Room) (r : Room) : value :=
  VDict [("title", VStr (title r));
         ("description", VStr (description r));
         ("exits", VDict (map (fun dt => (fst dt, VStr (rid (snd dt))))
                            (filter (fun dt => dict_mem (snd dt) rooms) (exits r))))].

Definition mob_entry (m : Mob) (room : string) : value :=
  VDict [("name", VStr (mob_name m));
         ("room", VStr (rid room));
         ("tier", VStr "standard");
         ("level", VInt 1)].

Definition item_entry (rooms : dict Room) (v : string) (it : Item) : value :=
  let e := [("displayName", VStr (item_name it));
            ("description", VStr "Imported from ROM area file.");
            ("keyword", VStr (or_else (hd EmptyString (split_on "_" (slug (item_name it))))
                                      ("item" ++ v)))] in
  match item_room_vnum it with
  | Some room => if dict_mem room rooms then VDict (dict_set "room" (VStr (rid room)) e)
                 else VDict e
  | None => VDict e
  end.

(** The three [for] loops filling [out["rooms"]], [out["mobs"]] and
    [out["items"]]. *)
Definition out_rooms (t : Tables) : dict value :=
  fold_left (fun acc vr => dict_set (rid (fst vr)) (room_entry (rooms t) (snd vr)) acc)
            (rooms t) [].

Definition out_mobs (t : Tables) : dict value :=
  fold_left (fun acc vm =>
               match mob_room_vnum (snd vm) with
               | Some room =>
                   if dict_mem room (rooms t)
                   then dict_set ("m" ++ fst vm) (mob_entry (snd vm) room) acc
                   else acc
               | None => acc
               end)
            (mobs t) [].

Definition out_items (t : Tables) : dict value :=
  fold_left (fun acc vi => dict_set ("i" ++ fst vi) (item_entry (rooms t) (fst vi) (snd vi)) acc)
            (items t) [].

(** [parse_area(path)], the path given by its stem and the decoded text of
    the file. *)
Definition parse_area (stem : string) (text : string) : Outcome (dict value) :=
  let lines := splitlines text in
  (t <- parse_area_loop lines (enough lines) 0
         {| rooms := []; mobs := []; items := [] |} ;;
   match rooms t with
   | [] => Raise ValueError
   | (first, _) :: _ =>
       Return [("zone", VStr (slug stem));
               ("lifespan", VInt 30);
               ("startRoom", VStr (rid first));
               ("rooms", VDict (out_rooms t));
               ("mobs", VDict (out_mobs t));
               ("items", VDict (out_items t))]
   end)%res.

(** *** The command line tool *)

(** [PurePath.stem] of a file name. *)
Definition stem (name : string) : string :=
  match rfind "." name with
  | Some i =>
      if (0 <? i)%nat && (i <? String.length name - 1)%nat then substring 0 i name else name
  | None => name
  end.

(** The order of the sort key [(p.stem != "midgaard", p.stem)]. *)
Definition key_le (a b : string) : bool :=
  let ka := negb (stem a =? "midgaard") in
  let kb := negb (stem b =? "midgaard") in
  if Bool.eqb ka kb then String.leb (stem a) (stem b) else negb ka.

(** The [for f in files] loop; the state is the output directory, file
    names to texts. *)
Fixpoint convert_files (files : list (string * string)) : Eff (dict string) unit :=
  match files with
  | [] => ret tt
  | (name, text) :: rest =>
      let out := slug (stem name) ++ ".yaml" in
      match parse_area (stem name) text with
      | Return cfg =>
          (modify (dict_set out (join (String LF EmptyString) (dump_yaml (VDict cfg) 0)
                                 ++ String LF EmptyString)) ;;
           convert_files rest)%eff
      | Raise e => raise e
      | OutOfFuel => fun s => (OutOfFuel, s)
      end
  end.

(** [main()], the input directory given as the list of its files, names
    and decoded texts, in the order the directory lists them. *)
Definition main (input_dir : list (string * string)) : Eff (dict string) unit :=
  let files := sorted (fun p q => key_le (fst p) (fst q))
                      (filter (fun p => endswith ".are" (fst p)) input_dir) in
  match files with
  | [] => raise SystemExit
  | _ => convert_files files
  end.


End Convert.

(** ** Vocabulary of the properties *)

Import Py Swarm Convert.

(** *** What [ANSI_RE.sub] removes

    Stated apart from the scan: a CSI sequence is ESC, an opening bracket,
    any number of digits and semicolons, and one letter; the text is read
    from the left, a CSI sequence at the reading position is dropped and any
    other character is kept. *)

Fixpoint all_chars (p : ascii -> bool) (s : string) : bool :=
  match s with
  | String c t => p c && all_chars p t
  | EmptyString => true
  end.

Inductive csi : string -> Prop :=
  | csi_intro (params : string) (l : ascii) :
      all_chars is_param params = true ->
      is_final l = true ->
      csi (String ESC (String "[" (params ++ String l EmptyString))).

Inductive stripped : string -> string -> Prop :=
  | stripped_nil : stripped EmptyString EmptyString
  | stripped_csi (m rest out : string) :
      csi m -> stripped rest out -> stripped (m ++ rest) out
  | stripped_keep (c : ascii) (rest out : string) :
      (forall m r, csi m -> String c rest <> m ++ r) ->
      stripped rest out -> stripped (String c rest) (String c out).

(** The frame with its CSI sequences and carriage returns removed. *)
Definition normalized (frame : string) : string :=
  replace CR EmptyString (_strip_ansi frame).

(** The prompt marker of the spec: the whole text, or its last line, trims
    to a lone [>]. *)
Definition prompt_marker (frame : string) : Prop :=
  strip (normalized frame) = ">"
  \/ strip (last (split_on LF (normalized frame)) EmptyString) = ">".

(** The text frames among the frames taken from the connection. *)
Fixpoint text_frames (fs : list (Z * Frame)) : list string :=
  match fs with
  | [] => []
  | (_, TextFrame s) :: r => s :: text_frames r
  | (_, BinaryFrame _) :: r => text_frames r
  end.

(** What a wait for the prompt may change: it takes [consumed] from the
    front of the inbox and shows its text frames to the prompt state.  It
    leaves alone what was sent, the counters, the last move and the random
    source. *)
Definition consumes (consumed : list (Z * Frame)) (b b' : Bot) : Prop :=
  inbox (ws b) = (consumed ++ inbox (ws b'))%list
  /\ ps b' = fold_left observe_incoming (text_frames consumed) (ps b)
  /\ outbox (ws b') = outbox (ws b)
  /\ stats b' = stats b
  /\ last_move b' = last_move b
  /\ rng b' = rng b.

(** A bot on a connection with the given frames to come. *)
Definition bot_on (ready : bool) (frames : list (Z * Frame)) : Bot :=
  {| ws := {| clock := 0; inbox := frames; outbox := []; recv_calls := 0 |};
     ps := {| at_prompt := ready |};
     stats := BotStats_init;
     last_move := None;
     rng := fun _ => 0%Z |}.

(** A line of text, then the prompt after a line break. *)
Definition two_frames : list (Z * Frame) :=
  [(10%Z, TextFrame "You hit the rat."); (20%Z, TextFrame (String LF "> "))].

(** Weights as [parse_args] leaves them: none below zero. *)
Definition nonneg_weights (cfg : SwarmConfig) : Prop :=
  (0 <= move_weight cfg /\ 0 <= kill_weight cfg /\ 0 <= look_weight cfg)%Q.


(** A configuration with the given behaviour mix and the defaults of the
    command line elsewhere. *)
Definition config_with (mw kw lw : Q) : SwarmConfig :=
  {| move_weight := mw; kill_weight := kw; look_weight := lw;
     moves := ["north"; "south"; "east"; "west"; "up"; "down"];
     avoid_immediate_backtrack := false;
     get_lantern := false; get_every := 6;
     think_min_ms := 250; think_max_ms := 900;
     io_timeout_s := 30000 |}.

(** The pairs of opposite directions. *)
Definition opposite_pairs : list (string * string) :=
  [("north", "south"); ("east", "west"); ("up", "down")].

Fixpoint opposite_in (pairs : list (string * string)) (d : string) : option string :=
  match pairs with
  | [] => None
  | (a, b) :: rest =>
      if d =? a then Some b else if d =? b then Some a else opposite_in rest d
  end.

(** The direction exactly opposite [d], when [d] is one of the six. *)
Definition opposite_of (d : string) : option string := opposite_in opposite_pairs d.

(** The movement set without the direction opposite [last]. *)
Definition without_reverse (last : string) (ms : list string) : list string :=
  match opposite_of last with
  | Some back => filter (fun m => negb (m =? back)) ms
  | None => ms
  end.

(** The moves [chooseMove] picks from, in the words of the spec. *)
Definition move_pool (cfg : SwarmConfig) (last : option string) : list string :=
  match last with
  | Some lm =>
      if avoid_immediate_backtrack cfg then
        match without_reverse lm (moves cfg) with
        | [] => moves cfg
        | remainder => remainder
        end
      else moves cfg
  | None => moves cfg
  end.

(** The position picked in a pool of [n] moves by the raw draw [k]. *)
Definition picked (k : Z) (n : nat) : nat := Z.to_nat (k mod Z.of_nat n).

(** The movement set north, south with or without backtrack avoidance. *)
Definition north_south (avoid : bool) : SwarmConfig :=
  {| move_weight := 1; kill_weight := 5 # 2; look_weight := 2 # 5;
     moves := ["north"; "south"];
     avoid_immediate_backtrack := avoid;
     get_lantern := false; get_every := 6;
     think_min_ms := 250; think_max_ms := 900;
     io_timeout_s := 30000 |}.

(** The default movement set with backtrack avoidance on. *)
Definition config_with_avoid : SwarmConfig :=
  {| move_weight := 1; kill_weight := 5 # 2; look_weight := 2 # 5;
     moves := ["north"; "south"; "east"; "west"; "up"; "down"];
     avoid_immediate_backtrack := true;
     get_lantern := false; get_every := 6;
     think_min_ms := 250; think_max_ms := 900;
     io_timeout_s := 30000 |}.


(** The loot settings of a bot, the rest as on the command line. *)
Definition config_loot (enabled : bool) (every : Z) : SwarmConfig :=
  {| move_weight := 1; kill_weight := 5 # 2; look_weight := 2 # 5;
     moves := ["north"; "south"; "east"; "west"; "up"; "down"];
     avoid_immediate_backtrack := false;
     get_lantern := enabled; get_every := every;
     think_min_ms := 250; think_max_ms := 900;
     io_timeout_s := 30000 |}.

(** A ready bot that has killed [n] rats, with the server's answers to the
    next two commands on their way. *)
Definition bot_after_kills (n : Z) : Bot :=
  {| ws := {| clock := 0;
              inbox := [(10%Z, TextFrame ("The rat dies." ++ String LF "> "));
                        (20%Z, TextFrame ("You get a lantern." ++ String LF "> "))];
              outbox := []; recv_calls := 0 |};
     ps := {| at_prompt := true |};
     stats := {| kills := n; moves_done := 0; gets := 0 |};
     last_move := None;
     rng := fun _ => 0%Z |}.

(** A lowercase letter or a digit. *)
Definition lower_alnum (c : ascii) : bool := is_az c || is_09 c.

(** The number written by a string of decimal digits. *)
Definition decimal_value (s : string) : Z :=
  fold_left (fun acc c => (acc * 10 + Z.of_nat (code c - 48))%Z) (list_ascii_of_string s) 0%Z.

(** The id field of a name or password: four decimal digits that write
    [bot_id]. *)
Definition four_digit_id (bot_id : Z) (field : string) : bool :=
  (String.length field =? 4)%nat && all_chars is_09 field
  && (decimal_value field =? bot_id)%Z.

(** A loop of the parser started at line [i] ends, by returning at a line
    [pos a] not before [i] or by raising; it does not use up its bound. *)
Definition advances {A} (i : nat) (pos : A -> nat) (o : Outcome A) : Prop :=
  match o with
  | Return a => i <= pos a
  | Raise _ => True
  | OutOfFuel => False
  end.

(** The same, for a loop that never raises. *)
Definition advances_quietly {A} (i : nat) (pos : A -> nat) (o : Outcome A) : Prop :=
  match o with
  | Return a => i <= pos a
  | _ => False
  end.

(** The three maps of an emitted configuration. *)
Definition section_of (name : string) (out : dict value) : dict value :=
  match dict_get name out with
  | Some (VDict d) => d
  | _ => []
  end.

(** The field [k] of an entry of such a map. *)
Definition field (k : string) (entry : value) : option value :=
  match entry with
  | VDict d => dict_get k d
  | _ => None
  end.

(** [v] is the id of a room of the configuration. *)
Definition names_room (out : dict value) (v : value) : Prop :=
  exists r, v = VStr r /\ dict_mem r (section_of "rooms" out) = true.

(** Every exit leads to a room of the configuration, every mob stands in
    one, and so does every item that has a room. *)
Definition referentially_closed (out : dict value) : Prop :=
  (forall k room exits d target,
      In (k, room) (section_of "rooms" out) ->
      field "exits" room = Some (VDict exits) ->
      In (d, target) exits ->
      names_room out target)
  /\ (forall k mob,
        In (k, mob) (section_of "mobs" out) ->
        exists v, field "room" mob = Some v /\ names_room out v)
  /\ (forall k item v,
        In (k, item) (section_of "items" out) ->
        field "room" item = Some v ->
        names_room out v).

(** [v] is the vnum of a parsed room. *)
Definition parsed_room (t : Tables) (v : option string) : Prop :=
  exists room, v = Some room /\ dict_mem room (rooms t) = true.

(** The emitted mobs are mobs of the table whose reset room was parsed, and
    the emitted items are the items of the table, with a room exactly when
    their reset room was parsed. *)
Definition emitted_from (t : Tables) (out : dict value) : Prop :=
  section_of "rooms" out = out_rooms t
  /\ (forall k e,
        In (k, e) (section_of "mobs" out) ->
        exists v m, In (v, m) (mobs t) /\ k = "m" ++ v
                    /\ parsed_room t (mob_room_vnum m))
  /\ (forall k e,
        In (k, e) (section_of "items" out) ->
        exists v it, In (v, it) (items t) /\ k = "i" ++ v
                     /\ (field "room" e <> None <-> parsed_room t (item_room_vnum it))).

(** A small area: two rooms, an exit to a room that is not in the file, a
    mob and an item reset into parsed rooms, a mob reset into a room that is
    not in the file, and an item that is never reset. *)
Definition demo_area : string :=
  join (String LF EmptyString)
    ["#AREA"; "demo.are~";
     "#MOBILES"; "#100"; "rat~"; "a rat~"; "#101"; "cat~"; "#0";
     "#OBJECTS"; "#200"; "lantern brass~"; "a lantern~"; "#201"; "~"; "#0";
     "#ROOMS";
     "#3001"; "The Temple~"; "You are in the temple."; "~"; "0 0 1";
     "D0"; "~"; "door~"; "0 -1 3002"; "D2"; "~"; "~"; "0 -1 9999"; "S";
     "#3002"; "Road~"; "~"; "0 0 1"; "D2"; "~"; "~"; "0 -1 3001"; "S";
     "#0";
     "#RESETS"; "M 0 100 1 3001 1"; "G 0 200 1"; "M 0 101 1 7777 1"; "S";
     "#$"].

(** The three loops as stores of one entry per element that has one. *)
Definition room_step (t : Tables) (vr : string * Room) : option (string * value) :=
  Some (rid (fst vr), room_entry (rooms t) (snd vr)).

Definition mob_step (t : Tables) (vm : string * Mob) : option (string * value) :=
  match mob_room_vnum (snd vm) with
  | Some room =>
      if dict_mem room (rooms t) then Some ("m" ++ fst vm, mob_entry (snd vm) room) else None
  | None => None
  end.

Definition item_step (t : Tables) (vi : string * Item) : option (string * value) :=
  Some ("i" ++ fst vi, item_entry (rooms t) (fst vi) (snd vi)).

Definition store {X} (step : X -> option (string * value)) (acc : dict value) (x : X)
  : dict value :=
  match step x with
  | Some (k, v) => dict_set k v acc
  | None => acc
  end.

(** The configuration of the small area. *)
Definition demo_config : dict value :=
  Eval vm_compute in
    match parse_area "demo" demo_area with
    | Return out => out
    | _ => []
    end.

(** The [*.are] files of a directory, in the order [main] takes them. *)
Definition found_files (input_dir : list (string * string)) : list (string * string) :=
  sorted (fun p q => key_le (fst p) (fst q))
         (filter (fun p => endswith ".are" (fst p)) input_dir).

(** The name and the text of the output file for an input file. *)
Definition output_name (name : string) : string := slug (stem name) ++ ".yaml".




(** An area file of the ROM distribution that holds no room. *)
Definition group_are : string :=
  join (String LF EmptyString) ["#GROUP"; "rom basics~"; "#0"; "#$"].

(** The text frames received, one after the other. *)
Definition joined (texts : list string) : string := fold_right append EmptyString texts.

(** What a piece of the login or of a turn sends: if it returns, the
    frames [cmds], in order, after what was sent before; if it raises, the
    timeout, with a front part of [cmds] sent.  The counters are not
    touched. *)
Definition sends (cmds : list string) (m : IO unit) : Prop :=
  forall b r b',
    m b = (r, b') ->
    stats b' = stats b
    /\ ((r = Return tt /\ outbox (ws b') = List.app (outbox (ws b)) cmds)
        \/ (r = Raise TimeoutError
            /\ exists sent rest,
                 cmds = List.app sent rest
                 /\ outbox (ws b') = List.app (outbox (ws b)) sent)).

(** The command [cmd] as it goes over the wire. *)
Definition wire (cmd : string) : string := cmd ++ String LF EmptyString.

(** The server's side of a login that goes well: every line of the bot is
    answered with a prompt, and the next question comes in a frame after
    it. *)
Definition login_frames : list (Z * Frame) :=
  [(1%Z, TextFrame ("Enter your name:" ++ String LF "> "));
   (2%Z, TextFrame "> ");
   (3%Z, TextFrame ("Create a new user? (yes/no)" ++ String LF "> "));
   (4%Z, TextFrame "> ");
   (5%Z, TextFrame ("Create a password:" ++ String LF "> "));
   (6%Z, TextFrame ("Welcome!" ++ String LF "> "))].

(** A server that puts each question and the prompt after it in one frame,
    one frame per step. *)
Definition one_frame_per_step : list (Z * Frame) :=
  [(1%Z, TextFrame ("Enter your name:" ++ String LF "> "));
   (2%Z, TextFrame ("Create a new user? (yes/no)" ++ String LF "> "));
   (3%Z, TextFrame ("Create a password:" ++ String LF "> "));
   (4%Z, TextFrame ("Welcome!" ++ String LF "> "))].

(** A piece of the login that returns has taken [n] frames or more. *)
Definition takes (n : nat) (m : IO unit) : Prop :=
  forall b b',
    m b = (Return tt, b') ->
    List.length (inbox (ws b')) + n <= List.length (inbox (ws b)).

(** What one turn, or any number of turns, may do to the counters: none
    goes down, and a get is counted only with loot-on-kill on, right after
    a kill that brought the kill count to a multiple of the interval. *)
Definition counters_grow (b b' : Bot) : Prop :=
  (kills (stats b) <= kills (stats b'))%Z
  /\ (moves_done (stats b) <= moves_done (stats b'))%Z
  /\ (gets (stats b) <= gets (stats b'))%Z.

(** No more gets than full intervals of kills. *)
Definition loot_bound (cfg : SwarmConfig) (b : Bot) : Prop :=
  (0 <= gets (stats b))%Z /\ (gets (stats b) * get_every cfg <= kills (stats b))%Z.

(** The ways a turn ends: it returns, or a wait timed out, or the think
    time bounds are in the wrong order, or there is no move to choose. *)
Definition turn_outcome (r : Outcome unit) : Prop :=
  r = Return tt \/ r = Raise TimeoutError \/ r = Raise ValueError \/ r = Raise IndexError.

(** The think time bounds of a bot, loot every six kills, the rest as on
    the command line. *)
Definition config_think (lo hi : Z) : SwarmConfig :=
  {| move_weight := 1; kill_weight := 5 # 2; look_weight := 2 # 5;
     moves := ["north"; "south"; "east"; "west"; "up"; "down"];
     avoid_immediate_backtrack := false;
     get_lantern := true; get_every := 6;
     think_min_ms := lo; think_max_ms := hi;
     io_timeout_s := 30000 |}.

(** The login that goes well, then a prompt for each of three commands. *)
Definition session_frames : list (Z * Frame) :=
  (login_frames
   ++ [(2000%Z, TextFrame ("You walk north." ++ String LF "> "));
       (4000%Z, TextFrame ("You walk north." ++ String LF "> "));
       (6000%Z, TextFrame ("You walk north." ++ String LF "> "))])%list.

(** The characters of a slug: lowercase letters, digits, the underscore. *)
Definition underscore (c : ascii) : bool := (c =? "_")%char.

Definition slug_char (c : ascii) : bool := is_az c || is_09 c || underscore c.

(** No two underscores in a row; [after] tells that an underscore comes
    just before. *)
Fixpoint single_underscores (after : bool) (s : string) : bool :=
  match s with
  | EmptyString => true
  | String c t =>
      if underscore c then negb after && single_underscores true t
      else single_underscores false t
  end.

(** A reader of double-quoted scalars: after the opening quote, a
    backslash makes the next character an ordinary one and the first other
    quote closes the scalar.  It gives the text read and what follows. *)
Fixpoint read_body (s : string) : option (string * string) :=
  match s with
  | EmptyString => None
  | String a t =>
      if (a =? DQUOTE)%char then Some (EmptyString, t)
      else if (a =? "\")%char then
        match t with
        | String c u =>
            match read_body u with
            | Some (x, rest) => Some (String c x, rest)
            | None => None
            end
        | EmptyString => None
        end
      else
        match read_body t with
        | Some (x, rest) => Some (String a x, rest)
        | None => None
        end
  end.

Definition read_quoted (s : string) : option (string * string) :=
  match s with
  | String a t => if (a =? DQUOTE)%char then read_body t else None
  | EmptyString => None
  end.

(** The order in which [main] takes two files, one after the other. *)
Definition taken_before (p q : string * string) : Prop := key_le (fst p) (fst q) = true.

(** A directory with the home area, two other areas and a file that is no
    area. *)
Definition demo_dir : list (string * string) :=
  [("school.are", "s"); ("notes.txt", "n"); ("midgaard.are", "m"); ("air.are", "a")].

(** What a reset must leave alone in a mob and in an item: the key, the
    vnum and the name. *)
Definition mob_identity (kv : string * Mob) : string * string * string :=
  (fst kv, mob_vnum (snd kv), mob_name (snd kv)).

Definition item_identity (kv : string * Item) : string * string * string :=
  (fst kv, item_vnum (snd kv), item_name (snd kv)).

(** An output directory with a file that is no converted area, and an
    input directory with an area that holds rooms and one that holds none. *)
Definition demo_output_dir : dict string := [("notes.md", "keep")].

Definition demo_input_dir : list (string * string) :=
  [("group.are", group_are); ("demo.are", demo_area)].

(** A lowercase letter or a digit. *)
Definition lower_alnum_char (c : ascii) : bool := is_az c || is_09 c.

(** The field [k] of an entry is a string that is not empty. *)
Definition filled (k : string) (e : value) : Prop :=
  exists s, field k e = Some (VStr s) /\ s <> EmptyString.

(** The tables hold no room without a description and no mob or item
    without a name. *)
Definition described (kv : string * Room) : Prop := description (snd kv) <> EmptyString.
Definition named_mob (kv : string * Mob) : Prop := mob_name (snd kv) <> EmptyString.
Definition named_item (kv : string * Item) : Prop := item_name (snd kv) <> EmptyString.

Definition complete (t : Tables) : Prop :=
  Forall described (rooms t) /\ Forall named_mob (mobs t) /\ Forall named_item (items t).


(** ** Properties of the swarm bot *)

Lemma final_not_param (c : ascii) : is_final c = true -> is_param c = false.
Proof.
  destruct c as [[|] [|] [|] [|] [|] [|] [|] [|]]; vm_compute; congruence.
Qed.

Lemma skip_params_split (t : string) :
  exists p, t = p ++ skip_params t /\ all_chars is_param p = true.
Proof.
  induction t as [|c t [p [Ht Hp]]]; simpl.
  - exists EmptyString. split; reflexivity.
  - destruct (is_param c) eqn:Hc.
    + exists (String c p). simpl. rewrite Hc, Hp. split; [now f_equal | reflexivity].
    + exists EmptyString. split; reflexivity.
Qed.

Lemma skip_params_app (p : string) (l : ascii) (r : string) :
  all_chars is_param p = true -> is_param l = false ->
  skip_params (p ++ String l r) = String l r.
Proof.
  induction p as [|c p IH]; simpl; intros Hp Hl.
  - now rewrite Hl.
  - apply andb_true_iff in Hp as [Hc Hp]. rewrite Hc. now apply IH.
Qed.

Lemma skip_params_length (t : string) :
  String.length (skip_params t) <= String.length t.
Proof.
  induction t as [|c t IH]; simpl; [lia|].
  destruct (is_param c); simpl; lia.
Qed.

Lemma app_assoc_string (a b c : string) : (a ++ b) ++ c = a ++ (b ++ c).
Proof. induction a as [|x a IH]; simpl; [reflexivity | now rewrite IH]. Qed.

(** [ANSI_RE] matches at the start of [s] exactly when [s] starts with a
    CSI sequence, and gives back what follows it. *)
Lemma ANSI_RE_csi (s r : string) :
  ANSI_RE s = Some r <-> exists m, csi m /\ s = m ++ r.
Proof.
  split.
  - destruct s as [|e [|b t]]; simpl; try discriminate.
    destruct (Ascii.eqb e ESC) eqn:He; simpl; try discriminate.
    destruct (Ascii.eqb b "[") eqn:Hb; simpl; try discriminate.
    apply Ascii.eqb_eq in He, Hb. subst e b.
    destruct (skip_params_split t) as [p [Ht Hp]].
    destruct (skip_params t) as [|l r'] eqn:Hs; try discriminate.
    destruct (is_final l) eqn:Hl; try discriminate.
    intros [= ->].
    exists (String ESC (String "[" (p ++ String l EmptyString))). split.
    + now constructor.
    + simpl. rewrite app_assoc_string. simpl. now rewrite <- Ht.
  - intros [m [Hm ->]]. destruct Hm as [p l Hp Hl].
    cbn [append ANSI_RE]. rewrite !Ascii.eqb_refl. cbn [andb].
    rewrite app_assoc_string. cbn [append].
    rewrite (skip_params_app p l r Hp (final_not_param l Hl)).
    now rewrite Hl.
Qed.

Lemma ANSI_RE_shorter (s r : string) :
  ANSI_RE s = Some r -> String.length r < String.length s.
Proof.
  destruct s as [|e [|b t]]; simpl; try discriminate.
  destruct (Ascii.eqb e ESC && Ascii.eqb b "["); try discriminate.
  pose proof (skip_params_length t) as Hlen.
  destruct (skip_params t) as [|l r']; try discriminate.
  destruct (is_final l); try discriminate.
  intros [= ->]. simpl in Hlen. lia.
Qed.

(** The scan of [ANSI_RE.sub] ends within [String.length s] steps: any
    larger bound gives the same text. *)
Lemma sub_ansi_enough (n m : nat) (s : string) :
  String.length s <= n -> String.length s <= m -> sub_ansi n s = sub_ansi m s.
Proof.
  revert m s. induction n as [|n IH]; intros m s Hn Hm.
  - destruct s; simpl in Hn; [|lia]. now destruct m.
  - destruct m as [|m].
    + destruct s; simpl in Hm; [reflexivity | lia].
    + destruct s as [|c t]; [reflexivity|].
      cbn [sub_ansi]. destruct (ANSI_RE (String c t)) as [r|] eqn:Hre.
      * apply ANSI_RE_shorter in Hre. apply IH; simpl in *; lia.
      * f_equal. apply IH; simpl in *; lia.
Qed.

Lemma strip_ansi_match (s r : string) :
  ANSI_RE s = Some r -> _strip_ansi s = _strip_ansi r.
Proof.
  intros Hre. unfold _strip_ansi.
  destruct s as [|c t]; [discriminate|].
  cbn [String.length sub_ansi]. rewrite Hre.
  apply ANSI_RE_shorter in Hre. apply sub_ansi_enough; simpl in *; lia.
Qed.

Lemma strip_ansi_keep (c : ascii) (t : string) :
  ANSI_RE (String c t) = None -> _strip_ansi (String c t) = String c (_strip_ansi t).
Proof.
  intros Hre. unfold _strip_ansi. cbn [String.length sub_ansi]. now rewrite Hre.
Qed.

(** [_strip_ansi] removes exactly the CSI sequences met when reading from
    the left. *)
Lemma strip_ansi_stripped (s : string) : stripped s (_strip_ansi s).
Proof.
  remember (String.length s) as n eqn:Hn. revert s Hn.
  induction n as [n IH] using lt_wf_ind. intros s ->.
  destruct s as [|c t]; [constructor|].
  destruct (ANSI_RE (String c t)) as [r|] eqn:Hre.
  - rewrite (strip_ansi_match _ _ Hre).
    pose proof (ANSI_RE_shorter _ _ Hre) as Hlt.
    apply ANSI_RE_csi in Hre as [m [Hm Heq]]. rewrite Heq.
    apply stripped_csi; [assumption|]. now apply (IH (String.length r)).
  - rewrite (strip_ansi_keep _ _ Hre). apply stripped_keep.
    + intros m r Hm Heq.
      assert (ANSI_RE (String c t) = Some r) as Hsome
        by (apply ANSI_RE_csi; now exists m).
      congruence.
    + apply (IH (String.length t)); simpl; [lia | reflexivity].
Qed.

Lemma stripped_strip_ansi (s out : string) : stripped s out -> out = _strip_ansi s.
Proof.
  induction 1 as [|m rest out Hm _ IH|c rest out Hno _ IH].
  - reflexivity.
  - rewrite IH. symmetry. apply strip_ansi_match, ANSI_RE_csi. now exists m.
  - rewrite IH. symmetry. apply strip_ansi_keep.
    destruct (ANSI_RE (String c rest)) as [r|] eqn:Hre; [|reflexivity].
    apply ANSI_RE_csi in Hre as [m [Hm Heq]]. now destruct (Hno m r Hm).
Qed.

(** *** Prompt detection *)

Lemma strip_empty : strip EmptyString = EmptyString.
Proof. reflexivity. Qed.

Lemma looks_like_prompt_marker (frame : string) :
  _looks_like_prompt frame = true <-> prompt_marker frame.
Proof.
  unfold _looks_like_prompt, prompt_marker, normalized.
  destruct frame as [|c t].
  - cbn. split; [discriminate | intros [H|H]; discriminate H].
  - cbn [truthy negb].
    set (s := replace CR EmptyString (_strip_ansi (String c t))).
    destruct (String.eqb (strip s) ">") eqn:Hwhole.
    + apply String.eqb_eq in Hwhole. split; auto.
    + apply String.eqb_neq in Hwhole.
      destruct (split_on LF s) as [|p ps] eqn:Hparts.
      * cbn. split; [discriminate | intros [H|H]; [contradiction | discriminate H]].
      * destruct (String.eqb (strip (last (p :: ps) EmptyString)) ">") eqn:Hlast.
        -- apply String.eqb_eq in Hlast. split; auto.
        -- apply String.eqb_neq in Hlast.
           split; [discriminate | intros [H|H]; contradiction].
Qed.

(** C1. A frame is taken for a prompt, and [observe_incoming] moves a busy
    state to ready, if and only if the frame, with its CSI sequences and
    carriage returns removed, trims as a whole to a lone [>] or has a last
    line that trims to a lone [>]; what [_strip_ansi] returns is the frame
    with the CSI sequences met from the left removed; the green prompt is a
    prompt, [> go north] and the empty frame are not. *)
Theorem prompt_detection_iff :
  (forall frame, _looks_like_prompt frame = true <-> prompt_marker frame)
  /\ (forall frame,
        at_prompt (observe_incoming {| at_prompt := false |} frame) = true
        <-> prompt_marker frame)
  /\ (forall frame out, stripped frame out <-> out = _strip_ansi frame)
  /\ _looks_like_prompt green_prompt = true
  /\ _looks_like_prompt "> go north" = false
  /\ _looks_like_prompt EmptyString = false.
Proof.
  split; [exact looks_like_prompt_marker|].
  split.
  - intros frame. rewrite <- looks_like_prompt_marker.
    unfold observe_incoming. destruct (_looks_like_prompt frame); cbn; intuition congruence.
  - split; [|repeat split; reflexivity].
    intros frame out. split; [apply stripped_strip_ansi|].
    intros ->. apply strip_ansi_stripped.
Qed.

(** *** The ready flag only rises under [observe_incoming] *)

Lemma observe_incoming_at_prompt (p : PromptState) (frame : string) :
  at_prompt (observe_incoming p frame) = at_prompt p || _looks_like_prompt frame.
Proof.
  unfold observe_incoming. destruct (_looks_like_prompt frame); cbn.
  - now rewrite orb_true_r.
  - now rewrite orb_false_r.
Qed.

Lemma observe_all_at_prompt (frames : list string) (p : PromptState) :
  at_prompt (fold_left observe_incoming frames p)
  = at_prompt p || existsb _looks_like_prompt frames.
Proof.
  revert p. induction frames as [|f frames IH]; intros p; cbn.
  - now rewrite orb_false_r.
  - now rewrite IH, observe_incoming_at_prompt, orb_assoc.
Qed.

(** C9. [observe_incoming] leaves the flag as it is or sets it: a ready
    state stays ready under any frame and any run of frames, a busy state
    stays busy unless the frame is a prompt; only [sent_command] clears the
    flag. *)
Theorem observe_incoming_monotone :
  (forall p frame,
      at_prompt (observe_incoming p frame) = at_prompt p
      \/ at_prompt (observe_incoming p frame) = true)
  /\ (forall p frame, at_prompt p = true -> at_prompt (observe_incoming p frame) = true)
  /\ (forall p frames, at_prompt p = true ->
        at_prompt (fold_left observe_incoming frames p) = true)
  /\ (forall p frame, _looks_like_prompt frame = false -> observe_incoming p frame = p)
  /\ (forall p, at_prompt (sent_command p) = false).
Proof.
  repeat split.
  - intros p frame. rewrite observe_incoming_at_prompt.
    destruct (_looks_like_prompt frame); [right; apply orb_true_r | left; apply orb_false_r].
  - intros p frame Hp. now rewrite observe_incoming_at_prompt, Hp.
  - intros p frames Hp. now rewrite observe_all_at_prompt, Hp.
  - intros p frame Hf. unfold observe_incoming. now rewrite Hf.
Qed.

(** A ready state that sees three more frames, none of them a prompt. *)
Lemma observe_incoming_monotone_witness :
  at_prompt (fold_left observe_incoming ["You hit the rat."; "> go north"; EmptyString]
               (observe_incoming PromptState_init green_prompt)) = true.
Proof.
  apply (proj1 (proj2 (proj2 observe_incoming_monotone))).
  reflexivity.
Defined.

(** *** Waiting for the prompt *)

Ltac eff_step :=
  unfold bind, monotonic, get, modify, ret, raise; cbn [fst snd].

Lemma recv_with_timeout_cases (timeout_s : Z) (b : Bot) :
  (exists t f rest,
      inbox (ws b) = (t, f) :: rest
      /\ recv_with_timeout timeout_s b
         = (Return f,
            set_ws {| clock := Z.max (clock (ws b)) t; inbox := rest;
                      outbox := outbox (ws b); recv_calls := S (recv_calls (ws b)) |} b))
  \/ recv_with_timeout timeout_s b
     = (Raise TimeoutError,
        set_ws {| clock := clock (ws b) + Z.max 0 timeout_s; inbox := inbox (ws b);
                  outbox := outbox (ws b); recv_calls := S (recv_calls (ws b)) |} b).
Proof.
  unfold recv_with_timeout.
  destruct (inbox (ws b)) as [|[t f] rest] eqn:Hin; [now right|].
  destruct (t <? clock (ws b) + timeout_s)%Z; [left | now right].
  now exists t, f, rest.
Qed.

Lemma recv_until_prompt_loop_spec (fuel : nat) (deadline : Z) :
  forall b r b',
    at_prompt (ps b) = false ->
    List.length (inbox (ws b)) < fuel ->
    recv_until_prompt_loop fuel deadline b = (r, b') ->
    exists consumed,
      consumes consumed b b'
      /\ ((r = Return tt /\ at_prompt (ps b') = true
           /\ recv_calls (ws b') = recv_calls (ws b) + List.length consumed
           /\ consumed <> [])
          \/ (r = Raise TimeoutError /\ at_prompt (ps b') = false
              /\ (deadline <= clock (ws b'))%Z)).
Proof.
  induction fuel as [|fuel IH]; intros b r b' Hbusy Hfuel Hrun; [lia|].
  cbn [recv_until_prompt_loop] in Hrun. revert Hrun. eff_step.
  destruct (deadline - clock (ws b) <=? 0)%Z eqn:Hrem.
  - intros [= <- <-]. exists []. apply Z.leb_le in Hrem.
    unfold consumes. cbn. repeat split; auto. right. repeat split; auto. lia.
  - apply Z.leb_gt in Hrem.
    destruct (recv_with_timeout_cases (deadline - clock (ws b)) b)
      as [(t & f & rest & Hin & ->) | ->].
    + set (b1 := set_ws _ b).
      assert (Hlen : List.length (inbox (ws b1)) < fuel)
        by (rewrite Hin in Hfuel; cbn in *; lia).
      destruct f as [text | payload].
      * destruct (at_prompt (ps (set_ps (observe_incoming (ps b1) text) b1))) eqn:Hnow.
        -- intros [= <- <-]. exists [(t, TextFrame text)].
           unfold consumes. cbn. rewrite Hin. repeat split; auto.
           left. repeat split; auto; [lia | discriminate].
        -- intros Hrun.
           destruct (IH _ _ _ Hnow Hlen Hrun) as (consumed & Hc & Hres).
           exists ((t, TextFrame text) :: consumed).
           destruct Hc as (Hc1 & Hc2 & Hc3 & Hc4 & Hc5 & Hc6).
           split.
           ++ unfold consumes. cbn in *. rewrite Hin, Hc1. repeat split; auto.
           ++ destruct Hres as [(-> & Hp & Hn & _) | (-> & Hp & Hd)]; [left | right];
                repeat split; auto; cbn in *; [lia | discriminate].
      * intros Hrun.
        destruct (IH b1 _ _ Hbusy Hlen Hrun) as (consumed & Hc & Hres).
        exists ((t, BinaryFrame payload) :: consumed).
        destruct Hc as (Hc1 & Hc2 & Hc3 & Hc4 & Hc5 & Hc6).
        split.
        -- unfold consumes. cbn in *. rewrite Hin, Hc1. repeat split; auto.
        -- destruct Hres as [(-> & Hp & Hn & _) | (-> & Hp & Hd)]; [left | right];
             repeat split; auto; cbn in *; [lia | discriminate].
    + intros [= <- <-]. exists []. unfold consumes. cbn. repeat split; auto.
      right. repeat split; auto. lia.
Qed.

Lemma recv_until_prompt_ready (timeout_s : Z) (b : Bot) :
  at_prompt (ps b) = true -> recv_until_prompt timeout_s b = (Return tt, b).
Proof.
  intros Hready. unfold recv_until_prompt. eff_step. now rewrite Hready.
Qed.

Lemma recv_until_prompt_busy (timeout_s : Z) (b : Bot) (r : Outcome unit) (b' : Bot) :
  at_prompt (ps b) = false ->
  recv_until_prompt timeout_s b = (r, b') ->
  exists consumed,
    consumes consumed b b'
    /\ ((r = Return tt /\ at_prompt (ps b') = true
         /\ recv_calls (ws b') = recv_calls (ws b) + List.length consumed
         /\ consumed <> [])
        \/ (r = Raise TimeoutError /\ at_prompt (ps b') = false
            /\ (clock (ws b) + timeout_s <= clock (ws b'))%Z)).
Proof.
  intros Hbusy. unfold recv_until_prompt. eff_step. rewrite Hbusy.
  apply recv_until_prompt_loop_spec; [assumption | lia].
Qed.



(** The same frames for a busy bot: both are taken, the second one is the
    prompt. *)
Example recv_until_prompt_busy_run :
  let (r, b') := recv_until_prompt 30000 (bot_on false two_frames) in
  r = Return tt /\ at_prompt (ps b') = true /\ recv_calls (ws b') = 2
  /\ inbox (ws b') = [] /\ clock (ws b') = 20%Z.
Proof. cbv. repeat split; reflexivity. Qed.

(** And with no frame at all: the timeout, at the deadline. *)
Example recv_until_prompt_busy_timeout :
  let (r, b') := recv_until_prompt 30000 (bot_on false []) in
  r = Raise TimeoutError /\ at_prompt (ps b') = false /\ clock (ws b') = 30000%Z.
Proof. cbv. repeat split; reflexivity. Qed.

(** *** Sending *)

(** C3. [send_line] returns with the line and a line feed appended to what
    was sent and with the prompt state busy, whatever it was; it takes no
    frame, makes no receive call and lets no time pass. *)
Theorem send_line_sets_busy :
  forall line b,
    exists b',
      send_line line b = (Return tt, b')
      /\ outbox (ws b') = List.app (outbox (ws b)) [line ++ String LF EmptyString]
      /\ at_prompt (ps b') = false
      /\ inbox (ws b') = inbox (ws b)
      /\ recv_calls (ws b') = recv_calls (ws b)
      /\ clock (ws b') = clock (ws b)
      /\ stats b' = stats b.
Proof.
  intros line b. eexists. split; [reflexivity|]. cbn. repeat split.
Qed.

Lemma send_line_run (line : string) (b : Bot) :
  send_line line b
  = (Return tt,
     set_ps {| at_prompt := false |}
       (set_ws {| clock := clock (ws b); inbox := inbox (ws b);
                  outbox := List.app (outbox (ws b)) [line ++ String LF EmptyString];
                  recv_calls := recv_calls (ws b) |} b)).
Proof. reflexivity. Qed.



(** *** Choosing an action *)

Lemma Qltb_lt (x y : Q) : Qltb x y = true <-> (x < y)%Q.
Proof.
  unfold Qltb. rewrite negb_true_iff, <- not_true_iff_false, Qle_bool_iff.
  split; [apply Qnot_le_lt | apply Qlt_not_le].
Qed.


(** [random.random()] returns, and what it returns is in [0, 1). *)
Lemma random_unit_interval (g : Rng) :
  exists u, random g = (Return u, fun i => g (S i)) /\ (0 <= u < 1)%Q.
Proof.
  eexists. split; [reflexivity|].
  assert (0 <= g O mod 2 ^ 53 < 2 ^ 53)%Z as [Hlo Hhi] by (apply Z.mod_pos_bound; lia).
  unfold Qle, Qlt. cbn [Qnum Qden]. change (Z.pos (2 ^ 53)) with (2 ^ 53)%Z. lia.
Qed.



Lemma choose_action_all_zero (g : Rng) :
  fst (choose_action (config_with 0 0 0) g) = Return "look".
Proof.
  destruct (random_unit_interval g) as (u & Hu & _).
  unfold choose_action. unfold bind at 1. rewrite Hu.
  cbn [config_with move_weight kill_weight look_weight].
  destruct (Qltb (u * (0 + 0 + 0)) 0) eqn:H1.
  - apply Qltb_lt in H1. lra.
  - destruct (Qltb (u * (0 + 0 + 0) - 0) 0) eqn:H2; [|reflexivity].
    apply Qltb_lt in H2. lra.
Qed.


(** *** Choosing a move *)

(** [random.choice] on a sequence that is not empty returns the element at
    the drawn position, and every position is drawn by some raw draw. *)
Lemma choice_nonempty {A} (seq : list A) (g : Rng) :
  seq <> [] ->
  exists x,
    choice seq g = (Return x, fun i => g (S i))
    /\ nth_error seq (picked (g O) (List.length seq)) = Some x
    /\ picked (g O) (List.length seq) < List.length seq.
Proof.
  intros Hne. unfold picked.
  assert (Hlen : 0 < List.length seq) by (destruct seq; [congruence | cbn; lia]).
  assert (Hpos : (0 <= g O mod Z.of_nat (List.length seq) < Z.of_nat (List.length seq))%Z)
    by (apply Z.mod_pos_bound; lia).
  assert (Hlt : Z.to_nat (g O mod Z.of_nat (List.length seq)) < List.length seq) by lia.
  destruct (nth_error seq (Z.to_nat (g O mod Z.of_nat (List.length seq)))) as [x|] eqn:Hnth.
  - exists x. split; [|split; [reflexivity | exact Hlt]].
    unfold choice. destruct seq as [|a seq]; [congruence|].
    unfold bind, draw, ret. now rewrite Hnth.
  - apply nth_error_None in Hnth. lia.
Qed.

Lemma picked_below (i n : nat) : i < n -> picked (Z.of_nat i) n = i.
Proof.
  intros Hi. unfold picked. rewrite Z.mod_small by lia. apply Nat2Z.id.
Qed.

Lemma OPPOSITE_opposite_of (d : string) : OPPOSITE d = opposite_of d.
Proof. reflexivity. Qed.

Lemma filter_all {A} (l : list A) : filter (fun _ => true) l = l.
Proof. induction l as [|a l IH]; cbn; [reflexivity | now rewrite IH]. Qed.

Lemma candidates_without_reverse (lm : string) (ms : list string) :
  filter (fun m => differs m (OPPOSITE_get (Some lm))) ms = without_reverse lm ms.
Proof.
  unfold without_reverse. cbn [OPPOSITE_get]. rewrite OPPOSITE_opposite_of.
  destruct (opposite_of lm) as [back|]; cbn [differs]; [reflexivity | apply filter_all].
Qed.

Lemma without_reverse_unknown (ms : list string) : without_reverse EmptyString ms = ms.
Proof. reflexivity. Qed.

(** The sequence [choose_move] hands to [random.choice] is the pool of the
    spec. *)
Lemma choose_move_pool (cfg : SwarmConfig) (last : option string) :
  moves cfg <> [] ->
  choose_move cfg last = choice (move_pool cfg last).
Proof.
  intros Hne. unfold choose_move, move_pool.
  destruct last as [lm|]; cbn [is_set negb orb]; [|now rewrite orb_true_r].
  destruct (avoid_immediate_backtrack cfg); cbn [negb orb]; [|reflexivity].
  destruct lm as [|c t]; cbn [truthy negb].
  - rewrite without_reverse_unknown. destruct (moves cfg); [congruence | reflexivity].
  - rewrite candidates_without_reverse.
    destruct (without_reverse (String c t) (moves cfg)); reflexivity.
Qed.

Lemma move_pool_nonempty (cfg : SwarmConfig) (last : option string) :
  moves cfg <> [] -> move_pool cfg last <> [].
Proof.
  intros Hne. unfold move_pool.
  destruct last as [lm|]; [|assumption].
  destruct (avoid_immediate_backtrack cfg); [|assumption].
  destruct (without_reverse lm (moves cfg)); [assumption | discriminate].
Qed.

Lemma move_pool_incl (cfg : SwarmConfig) (last : option string) :
  incl (move_pool cfg last) (moves cfg).
Proof.
  unfold move_pool.
  destruct last as [lm|]; [|apply incl_refl].
  destruct (avoid_immediate_backtrack cfg); [|apply incl_refl].
  destruct (without_reverse lm (moves cfg)) as [|m ms] eqn:Hw; [apply incl_refl|].
  rewrite <- Hw. unfold without_reverse.
  destruct (opposite_of lm); [apply incl_filter | apply incl_refl].
Qed.

(** C5. With a movement set that is not empty, [choose_move] returns the
    move at the drawn position of the pool: the whole set when avoidance is
    off or there is no last move, else the set without the direction
    opposite the last move, or the whole set when nothing is left.  Every
    position of the pool is the drawn one for one raw draw below its size.
    With north, south, avoidance on and last move north it returns north. *)
Theorem choose_move_uniform_pool :
  forall cfg last g,
    moves cfg <> [] ->
    let pool := move_pool cfg last in
    (exists m,
        choose_move cfg last g = (Return m, fun i => g (S i))
        /\ nth_error pool (picked (g O) (List.length pool)) = Some m
        /\ In m (moves cfg))
    /\ (forall i, i < List.length pool -> picked (Z.of_nat i) (List.length pool) = i)
    /\ (avoid_immediate_backtrack cfg = false \/ last = None -> pool = moves cfg)
    /\ (forall lm, avoid_immediate_backtrack cfg = true -> last = Some lm ->
        without_reverse lm (moves cfg) <> [] -> pool = without_reverse lm (moves cfg))
    /\ (forall lm, avoid_immediate_backtrack cfg = true -> last = Some lm ->
        without_reverse lm (moves cfg) = [] -> pool = moves cfg)
    /\ fst (choose_move (north_south true) (Some "north") g) = Return "north".
Proof.
  intros cfg last g Hne pool. split; [|split; [|split; [|split; [|split]]]].
  - destruct (choice_nonempty pool g (move_pool_nonempty cfg last Hne))
      as (m & Hrun & Hnth & _).
    exists m. rewrite (choose_move_pool cfg last Hne). repeat split; auto.
    apply (move_pool_incl cfg last). eapply nth_error_In, Hnth.
  - intros i. apply picked_below.
  - unfold pool, move_pool. intros [Hoff | ->]; [|reflexivity].
    rewrite Hoff. now destruct last.
  - unfold pool, move_pool. intros lm Hon -> Hleft. rewrite Hon.
    destruct (without_reverse lm (moves cfg)); [congruence | reflexivity].
  - unfold pool, move_pool. intros lm Hon -> Hleft. now rewrite Hon, Hleft.
  - assert (Hns : moves (north_south true) <> []) by discriminate.
    rewrite (choose_move_pool (north_south true) (Some "north") Hns).
    destruct (choice_nonempty (move_pool (north_south true) (Some "north")) g
                (move_pool_nonempty _ _ Hns)) as (m & -> & Hnth & Hlt).
    change (move_pool (north_south true) (Some "north")) with ["north"] in Hnth, Hlt.
    change (List.length ["north"]) with 1 in Hnth, Hlt.
    assert (Hzero : picked (g O) 1 = 0) by lia.
    rewrite Hzero in Hnth. cbn in Hnth. cbn. congruence.
Qed.

(** The default movement set, avoidance on, last move east: west is left
    out, and the draw 3 picks the fourth of the five moves left. *)
Lemma choose_move_uniform_pool_witness :
  move_pool (config_with_avoid) (Some "east") = ["north"; "south"; "east"; "up"; "down"]
  /\ fst (choose_move config_with_avoid (Some "east") (fun _ => 3%Z)) = Return "up".
Proof.
  split; [reflexivity|].
  destruct (choose_move_uniform_pool config_with_avoid (Some "east") (fun _ => 3%Z))
    as ((m & Hrun & Hnth & _) & _).
  - discriminate.
  - rewrite Hrun. vm_compute in Hnth. cbn [fst]. congruence.
Defined.

(** *** The loot trigger *)




(** With interval 6 the kills 1 to 5 and 7 send nothing more. *)
Example no_loot_between_multiples :
  map (fun n => outbox (ws (snd (bot_task_kill (config_loot true 6) (bot_after_kills n)))))
      [0; 1; 2; 3; 4; 6]%Z
  = repeat ["kill rat" ++ String LF EmptyString] 6
  /\ map (fun n => gets (stats (snd (bot_task_kill (config_loot true 6) (bot_after_kills n)))))
         [0; 1; 2; 3; 4; 5; 6; 11]%Z
     = [0; 0; 0; 0; 0; 1; 0; 1]%Z.
Proof. split; reflexivity. Qed.

(** *** Login names and passwords *)

Lemma digits_enough (f1 : nat) :
  forall f2 n,
    (0 <= n)%Z ->
    (n < 10 ^ Z.of_nat (S f1))%Z -> (n < 10 ^ Z.of_nat (S f2))%Z ->
    digits (S f1) n = digits (S f2) n.
Proof.
  induction f1 as [|f1 IH]; intros f2 n Hn H1 H2.
  - change (10 ^ Z.of_nat 1)%Z with 10%Z in H1.
    cbn [digits]. now replace (n <? 10)%Z with true by lia.
  - cbn [digits]. destruct (n <? 10)%Z eqn:Hsmall; [reflexivity|].
    apply Z.ltb_ge in Hsmall. f_equal.
    rewrite Nat2Z.inj_succ, Z.pow_succ_r in H1 by lia.
    destruct f2 as [|f2].
    + change (10 ^ Z.of_nat 1)%Z with 10%Z in H2. lia.
    + rewrite Nat2Z.inj_succ, Z.pow_succ_r in H2 by lia.
      apply IH.
      * apply Z.div_pos; lia.
      * apply Z.div_lt_upper_bound; lia.
      * apply Z.div_lt_upper_bound; lia.
Qed.

(** The bound of [str] on the number of digits is enough. *)
Lemma str_bound (n : Z) :
  (0 <= n)%Z -> (n < 10 ^ Z.of_nat (S (Z.to_nat (Z.log2 n))))%Z.
Proof.
  intros Hn. rewrite Nat2Z.inj_succ, Z2Nat.id by apply Z.log2_nonneg.
  destruct (Z.eq_dec n 0) as [-> | Hpos]; [reflexivity|].
  apply Z.lt_le_trans with (2 ^ Z.succ (Z.log2 n))%Z.
  - apply Z.log2_spec. lia.
  - apply Z.pow_le_mono_l. lia.
Qed.

Lemma str_below_10000 (n : Z) : (0 <= n < 10000)%Z -> str n = digits 4 n.
Proof.
  intros [Hlo Hhi]. unfold str. replace (n <? 0)%Z with false by lia.
  apply digits_enough; [assumption | now apply str_bound | exact Hhi].
Qed.

Lemma digit_cases (d : Z) :
  (0 <= d < 10)%Z ->
  is_09 (digit d) = true /\ Z.of_nat (code (digit d) - 48) = d.
Proof.
  intros Hd.
  assert (d = 0 \/ d = 1 \/ d = 2 \/ d = 3 \/ d = 4 \/ d = 5 \/ d = 6 \/ d = 7
          \/ d = 8 \/ d = 9)%Z as Hcases by lia.
  repeat (destruct Hcases as [-> | Hcases]; [split; reflexivity|]).
  subst d. split; reflexivity.
Qed.

Lemma four_digit_id_below_10000 (n : Z) :
  (0 <= n < 10000)%Z -> four_digit_id n (format_04d n) = true.
Proof.
  intros Hn. unfold format_04d.
  replace (n <? 0)%Z with false by lia.
  rewrite Z.abs_eq, (str_below_10000 n Hn) by lia.
  assert (Hd : forall m, (0 <= m mod 10 < 10)%Z) by (intros m; apply Z.mod_pos_bound; lia).
  destruct (digit_cases _ (Hd n)) as [Ha0 Hv0].
  destruct (digit_cases _ (Hd (n / 10)%Z)) as [Ha1 Hv1].
  destruct (digit_cases _ (Hd (n / 10 / 10)%Z)) as [Ha2 Hv2].
  destruct (digit_cases _ (Hd (n / 10 / 10 / 10)%Z)) as [Ha3 Hv3].
  unfold four_digit_id, decimal_value. cbn [digits].
  destruct (n <? 10)%Z eqn:H1;
    [|destruct (n / 10 <? 10)%Z eqn:H2;
      [|destruct (n / 10 / 10 <? 10)%Z eqn:H3;
        [|replace (n / 10 / 10 / 10 <? 10)%Z with true
            by (symmetry; apply Z.ltb_lt, Z.div_lt_upper_bound; [lia|];
                apply Z.div_lt_upper_bound; [lia|];
                apply Z.div_lt_upper_bound; lia)]]];
    cbn [append String.length Nat.sub zeros all_chars list_ascii_of_string fold_left
         Nat.eqb andb];
    rewrite ?Ha0, ?Ha1, ?Ha2, ?Ha3; cbn [andb];
    change (is_09 "0") with true; cbn [andb];
    change (Z.of_nat (code "0" - 48)) with 0%Z;
    rewrite ?Hv0, ?Hv1, ?Hv2, ?Hv3;
    apply Z.eqb_eq;
    rewrite ?Z.ltb_lt, ?Z.ltb_ge in *.
  - rewrite Z.mod_small by lia. lia.
  - pose proof (Z.div_mod n 10 ltac:(lia)).
    rewrite (Z.mod_small (n / 10) 10) by (split; [apply Z.div_pos|]; lia). lia.
  - pose proof (Z.div_mod n 10 ltac:(lia)).
    pose proof (Z.div_mod (n / 10) 10 ltac:(lia)).
    rewrite (Z.mod_small (n / 10 / 10) 10)
      by (split; [apply Z.div_pos; [apply Z.div_pos|]|]; lia). lia.
  - pose proof (Z.div_mod n 10 ltac:(lia)).
    pose proof (Z.div_mod (n / 10) 10 ltac:(lia)).
    pose proof (Z.div_mod (n / 10 / 10) 10 ltac:(lia)).
    assert (n / 10 / 10 / 10 < 10)%Z
      by (apply Z.div_lt_upper_bound; [lia|]; apply Z.div_lt_upper_bound; [lia|];
          apply Z.div_lt_upper_bound; lia).
    rewrite (Z.mod_small (n / 10 / 10 / 10) 10)
      by (split; [apply Z.div_pos; [apply Z.div_pos; [apply Z.div_pos|]|]|]; lia). lia.
Qed.

Lemma alphabet_lower_alnum (c : ascii) :
  In c (list_ascii_of_string alphabet) -> lower_alnum c = true.
Proof.
  assert (Hall : forallb lower_alnum (list_ascii_of_string alphabet) = true) by reflexivity.
  rewrite forallb_forall in Hall. apply Hall.
Qed.

(** [_rand_suffix(n)] takes [n] draws and returns [n] lowercase letters or
    digits. *)
Lemma rand_suffix_spec (n : nat) :
  forall g, exists suffix,
    _rand_suffix n g = (Return suffix, fun i => g (n + i))
    /\ String.length suffix = n
    /\ all_chars lower_alnum suffix = true.
Proof.
  induction n as [|n IH]; intros g.
  - exists EmptyString. repeat split.
  - destruct (choice_nonempty (list_ascii_of_string alphabet) g ltac:(discriminate))
      as (c & Hc & Hnth & _).
    destruct (IH (fun i => g (S i))) as (rest & Hrest & Hlen & Hall).
    exists (String c rest). cbn [_rand_suffix]. unfold bind at 1. rewrite Hc.
    unfold bind at 1. rewrite Hrest. unfold ret. cbn [String.length all_chars].
    rewrite Hlen, Hall, (alphabet_lower_alnum c (nth_error_In _ _ Hnth)).
    repeat split.
Qed.

(** C7 as amended. For a bot id from 0 to 9999 the login name is [Bot], the
    id in exactly four decimal digits, an underscore and four lowercase
    letters or digits; the password is [Pw], the same four digits, an
    underscore and six lowercase letters or digits. *)
Theorem credentials_format :
  forall bot_id g,
    (0 <= bot_id < 10000)%Z ->
    exists id suffix4 suffix6,
      bot_task_credentials bot_id g
      = (Return ("Bot" ++ id ++ "_" ++ suffix4, "Pw" ++ id ++ "_" ++ suffix6),
         fun i => g (10 + i))
      /\ four_digit_id bot_id id = true
      /\ String.length suffix4 = 4 /\ all_chars lower_alnum suffix4 = true
      /\ String.length suffix6 = 6 /\ all_chars lower_alnum suffix6 = true.
Proof.
  intros bot_id g Hid.
  destruct (rand_suffix_spec 4 g) as (s4 & Hs4 & Hl4 & Ha4).
  destruct (rand_suffix_spec 6 (fun i => g (4 + i))) as (s6 & Hs6 & Hl6 & Ha6).
  exists (format_04d bot_id), s4, s6.
  split; [|split; [|repeat split; assumption]].
  - unfold bot_task_credentials. unfold bind at 1. rewrite Hs4.
    unfold bind at 1. rewrite Hs6. reflexivity.
  - now apply four_digit_id_below_10000.
Qed.

(** Bot 42 and a run of draws. *)
Lemma credentials_format_witness :
  exists id suffix4 suffix6,
    fst (bot_task_credentials 42 (fun i => Z.of_nat (7 * i + 3)))
    = Return ("Bot" ++ id ++ "_" ++ suffix4, "Pw" ++ id ++ "_" ++ suffix6)
    /\ four_digit_id 42 id = true
    /\ String.length suffix4 = 4 /\ String.length suffix6 = 6.
Proof.
  destruct (credentials_format 42 (fun i => Z.of_nat (7 * i + 3)))
    as (id & s4 & s6 & Hrun & Hid & Hl4 & _ & Hl6 & _).
  - lia.
  - exists id, s4, s6. rewrite Hrun. repeat split; assumption.
Defined.

(** C7 as stated fails from bot 10000 on, which [--clients 10000] starts:
    the id field has five digits. *)
Lemma credentials_five_digit_id :
  fst (bot_task_credentials 10000 (fun _ => 0%Z))
  = Return ("Bot10000_aaaa", "Pw10000_aaaaaa")
  /\ format_04d 10000 = "10000"
  /\ four_digit_id 10000 (format_04d 10000) = false.
Proof. repeat split; reflexivity. Qed.

(** ** Properties of the area converter *)

(** *** The parser's loops end *)

Section ParserLoops.

Variable lines : list string.

Let len := List.length lines.

Lemma enough_for (i : nat) : len - i < enough lines.
Proof. unfold enough, len. lia. Qed.

Lemma nth_error_lt {A} (l : list A) (i : nat) (x : A) :
  nth_error l i = Some x -> i < List.length l.
Proof. intros H. apply nth_error_Some. congruence. Qed.

Lemma skip_to_tilde_advances (fuel : nat) :
  forall i, len - i < fuel ->
  advances_quietly i (fun j => j) (skip_to_tilde lines fuel i).
Proof.
  induction fuel as [|fuel IH]; intros i Hfuel; [lia|].
  cbn [skip_to_tilde].
  destruct (nth_error lines i) as [l|] eqn:Hl; [|cbn; lia].
  apply nth_error_lt in Hl. fold len in Hl.
  destruct (negb (contains "~" l)); [|cbn; lia].
  specialize (IH (S i) ltac:(lia)).
  destruct (skip_to_tilde lines fuel (S i)); cbn in *; try contradiction; lia.
Qed.

Lemma read_desc_advances (fuel : nat) :
  forall i desc, len - i < fuel ->
  advances_quietly i fst (read_desc lines fuel i desc).
Proof.
  induction fuel as [|fuel IH]; intros i desc Hfuel; [lia|].
  cbn [read_desc].
  destruct (nth_error lines i) as [l|] eqn:Hl; [|cbn; lia].
  apply nth_error_lt in Hl. fold len in Hl.
  destruct (negb (contains "~" l)); [|cbn; lia].
  specialize (IH (S i) (desc ++ [rstrip l])%list ltac:(lia)).
  destruct (read_desc lines fuel (S i) _); cbn in *; try contradiction; lia.
Qed.

Lemma skip_to_hash_advances (fuel : nat) :
  forall i, len - i < fuel ->
  advances_quietly i (fun j => j) (skip_to_hash lines fuel i).
Proof.
  induction fuel as [|fuel IH]; intros i Hfuel; [lia|].
  cbn [skip_to_hash].
  destruct (nth_error lines i) as [l|] eqn:Hl; [|cbn; lia].
  apply nth_error_lt in Hl. fold len in Hl.
  destruct (negb (startswith "#" (strip l))); [|cbn; lia].
  specialize (IH (S i) ltac:(lia)).
  destruct (skip_to_hash lines fuel (S i)); cbn in *; try contradiction; lia.
Qed.

Lemma read_exits_advances (fuel : nat) :
  forall i exits, len - i < fuel ->
  advances_quietly i fst (read_exits lines fuel i exits).
Proof.
  induction fuel as [|fuel IH]; intros i exits Hfuel; [lia|].
  cbn [read_exits].
  destruct (nth_error lines i) as [l|] eqn:Hl; [|cbn; lia].
  apply nth_error_lt in Hl. fold len in Hl.
  destruct (is_exit_line (strip l)).
  - pose proof (skip_to_tilde_advances (enough lines) (S i) (enough_for _)) as H1.
    destruct (skip_to_tilde lines (enough lines) (S i)) as [i1| |]; cbn in H1; try contradiction.
    cbn [obind].
    pose proof (skip_to_tilde_advances (enough lines) (S i1) (enough_for _)) as H2.
    destruct (skip_to_tilde lines (enough lines) (S i1)) as [i2| |]; cbn in H2; try contradiction.
    cbn [obind].
    destruct (nth_error lines (S i2)) as [l'|].
    + match goal with
      | |- advances_quietly _ _ (read_exits _ _ ?j ?e) =>
          specialize (IH j e ltac:(lia));
          destruct (read_exits lines fuel j e); cbn in *; try contradiction; lia
      end.
    + specialize (IH (S i2) exits ltac:(lia)).
      destruct (read_exits lines fuel (S i2) exits); cbn in *; try contradiction; lia.
  - destruct (strip l =? "S"); [cbn; lia|].
    specialize (IH (S i) exits ltac:(lia)).
    destruct (read_exits lines fuel (S i) exits); cbn in *; try contradiction; lia.
Qed.

Lemma parse_rooms_loop_advances (fuel : nat) :
  forall i rooms, len - i < fuel ->
  advances i fst (parse_rooms_loop lines fuel i rooms).
Proof.
  induction fuel as [|fuel IH]; intros i rooms Hfuel; [lia|].
  cbn [parse_rooms_loop].
  destruct (nth_error lines i) as [l|] eqn:Hl; [|cbn; lia].
  apply nth_error_lt in Hl. fold len in Hl.
  destruct (strip l =? "#0"); [cbn; lia|].
  destruct (negb (startswith "#" (strip l)) || (strip l =? "#ROOMS")).
  - specialize (IH (S i) rooms ltac:(lia)).
    destruct (parse_rooms_loop lines fuel (S i) rooms); cbn in *; try contradiction; lia.
  - destruct (getitem lines (S i)) as [l1| |] eqn:Hidx; cbn [obind]; try exact I.
    + pose proof (read_desc_advances (enough lines) (S (S i)) [] (enough_for _)) as H1.
      destruct (read_desc lines (enough lines) (S (S i)) []) as [[i1 desc]| |];
        cbn in H1; try contradiction.
      cbn [obind].
      destruct (nth_error lines i1) as [l2|];
        match goal with
        | |- context [read_exits lines (enough lines) ?j []] =>
            pose proof (read_exits_advances (enough lines) j [] (enough_for _)) as H2;
            destruct (read_exits lines (enough lines) j []) as [[i2 exits]| |];
            cbn in H2; try contradiction
        end;
        cbn [obind];
        match goal with
        | |- advances _ _ (parse_rooms_loop _ _ ?j ?r) =>
            specialize (IH j r ltac:(lia));
            destruct (parse_rooms_loop lines fuel j r); cbn in *; try contradiction;
            try exact I; lia
        end.
    + unfold getitem in Hidx. destruct (nth_error lines (S i)); discriminate.
Qed.

Lemma parse_rooms_advances (i : nat) : advances i fst (parse_rooms lines i).
Proof. apply parse_rooms_loop_advances, enough_for. Qed.

Lemma parse_entities_loop_advances (section : string) (fuel : nat) :
  forall i out, len - i < fuel ->
  advances i fst (parse_entities_loop lines section fuel i out).
Proof.
  induction fuel as [|fuel IH]; intros i out Hfuel; [lia|].
  cbn [parse_entities_loop].
  destruct (nth_error lines i) as [l|] eqn:Hl; [|cbn; lia].
  apply nth_error_lt in Hl. fold len in Hl.
  destruct (strip l =? "#0"); [cbn; lia|].
  destruct (negb (startswith "#" (strip l)) || (strip l =? section)).
  - specialize (IH (S i) out ltac:(lia)).
    destruct (parse_entities_loop lines section fuel (S i) out);
      cbn in *; try contradiction; lia.
  - destruct (getitem lines (S i)) as [l1| |] eqn:Hidx; cbn [obind]; try exact I.
    + pose proof (skip_to_hash_advances (enough lines) (S i) (enough_for _)) as H1.
      destruct (skip_to_hash lines (enough lines) (S i)) as [i1| |];
        cbn in H1; try contradiction.
      cbn [obind].
      match goal with
      | |- advances _ _ (parse_entities_loop _ _ _ ?j ?r) =>
          specialize (IH j r ltac:(lia));
          destruct (parse_entities_loop lines section fuel j r);
          cbn in *; try contradiction; try exact I; lia
      end.
    + unfold getitem in Hidx. destruct (nth_error lines (S i)); discriminate.
Qed.

Lemma parse_entities_advances (i : nat) (section : string) :
  advances i fst (parse_entities lines i section).
Proof. apply parse_entities_loop_advances, enough_for. Qed.

Lemma parse_resets_loop_advances (fuel : nat) :
  forall i room mobs items, len - i < fuel ->
  advances_quietly i (fun r => fst (fst r)) (parse_resets_loop lines fuel i room mobs items).
Proof.
  induction fuel as [|fuel IH]; intros i room mobs items Hfuel; [lia|].
  cbn [parse_resets_loop].
  destruct (nth_error lines i) as [l|] eqn:Hl; [|cbn; lia].
  apply nth_error_lt in Hl. fold len in Hl.
  destruct (strip l =? "S"); [cbn; lia|].
  cbv zeta.
  repeat match goal with
         | |- context [if ?c then _ else _] => destruct c
         end;
    match goal with
    | |- advances_quietly _ _ (parse_resets_loop _ _ ?j ?r ?m ?it) =>
        specialize (IH j r m it ltac:(lia));
        destruct (parse_resets_loop lines fuel j r m it); cbn in *; try contradiction; lia
    end.
Qed.

Lemma parse_resets_advances (i : nat) (mobs : dict Mob) (items : dict Item) :
  advances_quietly i (fun r => fst (fst r)) (parse_resets lines i mobs items).
Proof. apply parse_resets_loop_advances, enough_for. Qed.

Lemma parse_area_loop_ends (fuel : nat) :
  forall i t, len - i < fuel -> parse_area_loop lines fuel i t <> OutOfFuel.
Proof.
  induction fuel as [|fuel IH]; intros i t Hfuel; [lia|].
  cbn [parse_area_loop].
  destruct (nth_error lines i) as [l|] eqn:Hl; [|discriminate].
  apply nth_error_lt in Hl. fold len in Hl.
  destruct (strip l =? "#ROOMS").
  { pose proof (parse_rooms_advances (S i)) as H1.
    destruct (parse_rooms lines (S i)) as [[j r]| |]; cbn in H1; try contradiction;
      cbn [obind]; [apply IH; lia | discriminate]. }
  destruct (strip l =? "#MOBILES").
  { pose proof (parse_entities_advances (S i) "#MOBILES") as H1.
    destruct (parse_entities lines (S i) "#MOBILES") as [[j r]| |]; cbn in H1;
      try contradiction; cbn [obind]; [apply IH; lia | discriminate]. }
  destruct (strip l =? "#OBJECTS").
  { pose proof (parse_entities_advances (S i) "#OBJECTS") as H1.
    destruct (parse_entities lines (S i) "#OBJECTS") as [[j r]| |]; cbn in H1;
      try contradiction; cbn [obind]; [apply IH; lia | discriminate]. }
  destruct (strip l =? "#RESETS").
  { pose proof (parse_resets_advances (S i) (mobs t) (items t)) as H1.
    destruct (parse_resets lines (S i) (mobs t) (items t)) as [[[j m] it]| |];
      cbn in H1; try contradiction; cbn [obind]. apply IH; lia. }
  apply IH; lia.
Qed.

End ParserLoops.

(** [parse_area] ends on every text: it returns the configuration or raises
    [ValueError] or [IndexError]. *)
Lemma parse_area_ends (stem text : string) :
  parse_area stem text <> OutOfFuel.
Proof.
  unfold parse_area.
  pose proof (parse_area_loop_ends (splitlines text) (enough (splitlines text)) 0
                {| rooms := []; mobs := []; items := [] |} (enough_for _ _)) as Hloop.
  destruct (parse_area_loop _ _ _ _) as [t| |]; cbn [obind]; try discriminate.
  - destruct (rooms t) as [|[first r] rest]; discriminate.
  - contradiction.
Qed.

(** *** Dictionaries *)

Lemma dict_get_In {V} (k : string) (d : dict V) (v : V) :
  dict_get k d = Some v -> In (k, v) d.
Proof.
  induction d as [|[k' v'] d IH]; cbn; [discriminate|].
  destruct (k' =? k) eqn:Hk.
  - apply String.eqb_eq in Hk. intros [= ->]. left. now subst.
  - intros H. right. now apply IH.
Qed.

Lemma dict_mem_In {V} (k : string) (d : dict V) :
  dict_mem k d = true -> exists v, In (k, v) d.
Proof.
  unfold dict_mem. destruct (dict_get k d) as [v|] eqn:Hget; [|discriminate].
  intros _. exists v. now apply dict_get_In.
Qed.

Lemma In_dict_mem {V} (k : string) (v : V) (d : dict V) :
  In (k, v) d -> dict_mem k d = true.
Proof.
  unfold dict_mem. induction d as [|[k' v'] d IH]; cbn; [contradiction|].
  intros [[= -> ->] | Hin].
  - now rewrite String.eqb_refl.
  - destruct (k' =? k); [reflexivity | now apply IH].
Qed.

Lemma dict_set_In {V} (k : string) (v : V) (d : dict V) (k' : string) (v' : V) :
  In (k', v') (dict_set k v d) -> (k' = k /\ v' = v) \/ In (k', v') d.
Proof.
  induction d as [|[k0 v0] d IH]; cbn.
  - intros [[= <- <-] | []]. now left.
  - destruct (k0 =? k).
    + intros [[= <- <-] | Hin]; [now left | right; now right].
    + intros [Heq | Hin]; [right; now left|].
      destruct (IH Hin) as [Hnew | Hold]; [now left | right; now right].
Qed.

Lemma dict_set_mem {V} (k : string) (v : V) (d : dict V) :
  dict_mem k (dict_set k v d) = true.
Proof.
  unfold dict_mem. induction d as [|[k0 v0] d IH]; cbn.
  - now rewrite String.eqb_refl.
  - destruct (k0 =? k) eqn:Hk; cbn; [now rewrite String.eqb_refl|].
    rewrite Hk. exact IH.
Qed.

Lemma dict_set_mem_old {V} (k : string) (v : V) (d : dict V) (k' : string) :
  dict_mem k' d = true -> dict_mem k' (dict_set k v d) = true.
Proof.
  intros Hmem. apply dict_mem_In in Hmem as [v' Hin].
  destruct (String.eqb_spec k' k) as [-> | Hne]; [apply dict_set_mem|].
  apply In_dict_mem with (v := v').
  induction d as [|[k0 v0] d IH]; cbn in *; [contradiction|].
  destruct (String.eqb_spec k0 k) as [-> | Hne0].
  - destruct Hin as [[= -> ->] | Hin]; [congruence | now right].
  - destruct Hin as [Heq | Hin]; [now left | right; now apply IH].
Qed.

(** A loop that stores [step x] for the elements [x] of a table that have
    one: what is in the result was there before or was stored. *)
Lemma emitted_In {X V} (step : X -> option (string * V)) (l : list X) :
  forall (init : dict V) (k : string) (e : V),
    In (k, e) (fold_left (fun acc x => match step x with
                                       | Some (k', v) => dict_set k' v acc
                                       | None => acc
                                       end) l init) ->
    In (k, e) init \/ exists x, In x l /\ step x = Some (k, e).
Proof.
  induction l as [|x l IH]; intros init k e; cbn; [now left|].
  intros Hin. apply IH in Hin as [Hin | (y & Hy & Hstep)].
  - destruct (step x) as [[k' v]|] eqn:Hx; [|now left].
    apply dict_set_In in Hin as [[-> ->] | Hin]; [|now left].
    right. exists x. split; [now left | assumption].
  - right. exists y. split; [now right | assumption].
Qed.

(** And every key stored is a key of the result. *)
Lemma emitted_mem {X V} (step : X -> option (string * V)) (l : list X) :
  forall (init : dict V) (x : X) (k : string) (v : V),
    (In x l /\ step x = Some (k, v)) \/ dict_mem k init = true ->
    dict_mem k (fold_left (fun acc x => match step x with
                                        | Some (k', v) => dict_set k' v acc
                                        | None => acc
                                        end) l init) = true.
Proof.
  induction l as [|y l IH]; intros init x k v; cbn.
  - intros [[[] _] | Hmem]. exact Hmem.
  - intros [[[-> | Hin] Hstep] | Hmem].
    + apply (IH _ x k v). right. rewrite Hstep. apply dict_set_mem.
    + apply (IH _ x k v). left. now split.
    + apply (IH _ x k v). right.
      destruct (step y) as [[k' v']|]; [now apply dict_set_mem_old | assumption].
Qed.

(** *** The emitted configuration is closed over rooms *)

Lemma fold_left_pointwise {A B} (f g : A -> B -> A) (l : list B) :
  (forall a b, f a b = g a b) -> forall a, fold_left f l a = fold_left g l a.
Proof.
  intros Hfg. induction l as [|b l IH]; intros a; cbn; [reflexivity|].
  now rewrite Hfg, IH.
Qed.

Lemma out_rooms_store (t : Tables) : out_rooms t = fold_left (store (room_step t)) (rooms t) [].
Proof. reflexivity. Qed.

Lemma out_items_store (t : Tables) : out_items t = fold_left (store (item_step t)) (items t) [].
Proof. reflexivity. Qed.

Lemma out_mobs_store (t : Tables) : out_mobs t = fold_left (store (mob_step t)) (mobs t) [].
Proof.
  unfold out_mobs. apply fold_left_pointwise. intros acc [v m].
  unfold store, mob_step. cbn [fst snd].
  destruct (mob_room_vnum m) as [room|]; [|reflexivity].
  now destruct (dict_mem room (rooms t)).
Qed.

(** The id of a parsed room is a key of the emitted rooms. *)
Lemma parsed_room_emitted (t : Tables) (v : string) :
  dict_mem v (rooms t) = true -> dict_mem (rid v) (out_rooms t) = true.
Proof.
  intros Hmem. apply dict_mem_In in Hmem as [r Hin].
  rewrite out_rooms_store.
  apply (emitted_mem (room_step t) (rooms t) [] (v, r) (rid v) (room_entry (rooms t) r)).
  left. split; [assumption | reflexivity].
Qed.

Lemma exits_closed (t : Tables) (k : string) (room : value) (exits : dict value)
    (d : string) (target : value) :
  In (k, room) (out_rooms t) ->
  field "exits" room = Some (VDict exits) ->
  In (d, target) exits ->
  exists r, target = VStr r /\ dict_mem r (out_rooms t) = true.
Proof.
  rewrite out_rooms_store at 1. intros Hin Hexits Htarget.
  apply (emitted_In (room_step t)) in Hin as [[] | ([v r] & _ & Hstep)].
  injection Hstep as _ <-. cbn in Hexits. injection Hexits as <-.
  apply in_map_iff in Htarget as ([d' t'] & [= <- <-] & Hkept).
  apply filter_In in Hkept as [_ Hmem]. cbn [snd] in *.
  exists (rid t'). split; [reflexivity | now apply parsed_room_emitted].
Qed.

Lemma mobs_closed (t : Tables) (k : string) (mob : value) :
  In (k, mob) (out_mobs t) ->
  (exists r, field "room" mob = Some (VStr r) /\ dict_mem r (out_rooms t) = true)
  /\ exists v m, In (v, m) (mobs t) /\ k = "m" ++ v /\ parsed_room t (mob_room_vnum m).
Proof.
  rewrite out_mobs_store. intros Hin.
  apply (emitted_In (mob_step t)) in Hin as [[] | ([v m] & Hm & Hstep)].
  unfold mob_step in Hstep. cbn [fst snd] in Hstep.
  destruct (mob_room_vnum m) as [room|] eqn:Hroom; [|discriminate].
  destruct (dict_mem room (rooms t)) eqn:Hmem; [|discriminate].
  injection Hstep as <- <-. split.
  - exists (rid room). split; [reflexivity | now apply parsed_room_emitted].
  - exists v, m. repeat split; [assumption|]. now exists room.
Qed.

Lemma items_closed (t : Tables) (k : string) (item : value) :
  In (k, item) (out_items t) ->
  (forall v, field "room" item = Some v ->
             exists r, v = VStr r /\ dict_mem r (out_rooms t) = true)
  /\ exists v it, In (v, it) (items t) /\ k = "i" ++ v
                  /\ (field "room" item <> None <-> parsed_room t (item_room_vnum it)).
Proof.
  rewrite out_items_store. intros Hin.
  apply (emitted_In (item_step t)) in Hin as [[] | ([v it] & Hit & Hstep)].
  injection Hstep as <- <-. cbn [fst snd]. unfold item_entry.
  destruct (item_room_vnum it) as [room|] eqn:Hroom.
  - destruct (dict_mem room (rooms t)) eqn:Hmem.
    + split.
      * intros x Hx. cbn in Hx. injection Hx as <-.
        exists (rid room). split; [reflexivity | now apply parsed_room_emitted].
      * exists v, it. repeat split; [assumption | |].
        -- intros _. rewrite Hroom. now exists room.
        -- intros _. cbn. discriminate.
    + split; [intros x Hx; discriminate Hx|].
      exists v, it. repeat split; [assumption | |].
      * intros Habs. now cbn in Habs.
      * rewrite Hroom. intros (room' & [= <-] & Hmem'). congruence.
  - split; [intros x Hx; discriminate Hx|].
    exists v, it. repeat split; [assumption | |].
    + intros Habs. now cbn in Habs.
    + rewrite Hroom. intros (room' & Habs & _). discriminate Habs.
Qed.

(** C10. Whatever [parse_area] returns is closed over rooms: every exit of
    an emitted room leads to an emitted room, every emitted mob has a room
    field naming an emitted room and comes from a mob whose reset room was
    parsed, and an emitted item has a room field, naming an emitted room,
    exactly when its reset room was parsed. *)
Theorem parse_area_referentially_closed :
  forall stem text out,
    parse_area stem text = Return out ->
    referentially_closed out
    /\ exists t,
         parse_area_loop (splitlines text) (enough (splitlines text)) 0
           {| rooms := []; mobs := []; items := [] |} = Return t
         /\ emitted_from t out.
Proof.
  intros stem text out. unfold parse_area.
  destruct (parse_area_loop _ _ _ _) as [t| |] eqn:Hloop; cbn [obind]; try discriminate.
  destruct (rooms t) as [|[first r0] rest] eqn:Hrooms; [discriminate|].
  intros [= <-].
  split; [|exists t; split; [reflexivity|]]; unfold referentially_closed, emitted_from,
    names_room, section_of; cbn [dict_get String.eqb Ascii.eqb Bool.eqb].
  - split; [|split].
    + intros k room exits d target. apply exits_closed.
    + intros k mob Hin. destruct (mobs_closed t k mob Hin) as ((r & Hf & Hr) & _).
      exists (VStr r). split; [assumption | now exists r].
    + intros k item v Hin. apply (proj1 (items_closed t k item Hin)).
  - split; [reflexivity|]. split.
    + intros k e Hin. apply (proj2 (mobs_closed t k e Hin)).
    + intros k e Hin. apply (proj2 (items_closed t k e Hin)).
Qed.

(** The small area: the exit to room 9999 and the cat reset into room 7777
    are left out, the lantern given to the rat lies in the rat's room, and
    the item that is never reset has no room. *)
Lemma parse_area_referentially_closed_witness :
  referentially_closed demo_config
  /\ map fst (section_of "rooms" demo_config) = ["r3001"; "r3002"]
  /\ map fst (section_of "mobs" demo_config) = ["m100"]
  /\ map (fun e => (fst e, field "room" (snd e))) (section_of "items" demo_config)
     = [("i200", Some (VStr "r3001")); ("i201", None)].
Proof.
  split; [|repeat split; reflexivity].
  apply (parse_area_referentially_closed "demo" demo_area demo_config).
  vm_compute. reflexivity.
Defined.

(** *** The command line tool *)

Lemma insert_sorted_In {A} (le : A -> A -> bool) (x y : A) (l : list A) :
  In x (insert_sorted le y l) <-> x = y \/ In x l.
Proof.
  induction l as [|z l IH]; cbn.
  - intuition congruence.
  - destruct (le y z); cbn; [intuition congruence|].
    rewrite IH. intuition congruence.
Qed.

Lemma sorted_In {A} (le : A -> A -> bool) (x : A) (l : list A) :
  In x (sorted le l) <-> In x l.
Proof.
  unfold sorted. induction l as [|y l IH]; cbn; [reflexivity|].
  rewrite insert_sorted_In, IH. intuition congruence.
Qed.

(** The files [main] takes are the files of the directory named [*.are]. *)
Lemma found_files_In (input_dir : list (string * string)) (f : string * string) :
  In f (found_files input_dir) <-> In f input_dir /\ endswith ".are" (fst f) = true.
Proof.
  unfold found_files. rewrite sorted_In, filter_In. reflexivity.
Qed.









(** And after the files before it were written, when it is not the first. *)
Example main_aborts_midway :
  let (r, out) := main [("group.are", group_are); ("midgaard.are", demo_area)] [] in
  r = Raise ValueError /\ map fst out = ["midgaard.yaml"].
Proof. vm_compute. split; reflexivity. Qed.

(** ** Further properties of the swarm bot *)

(** *** Strings *)

Lemma append_empty_r (s : string) : s ++ EmptyString = s.
Proof. induction s as [|c s IH]; cbn; [reflexivity | now rewrite IH]. Qed.

Lemma length_append (a b : string) :
  String.length (a ++ b) = String.length a + String.length b.
Proof. induction a as [|c a IH]; cbn; [reflexivity | now rewrite IH]. Qed.

(** Two ways of cutting one string: one cut lies before the other. *)
Lemma append_cut (t sfx m r : string) :
  t ++ sfx = m ++ r ->
  (exists x, t = m ++ x /\ r = x ++ sfx)
  \/ (exists c y, m = t ++ String c y /\ sfx = String c y ++ r).
Proof.
  revert m. induction t as [|a t IH]; intros m Heq.
  - destruct m as [|c y].
    + left. exists EmptyString. cbn in *. now split.
    + right. exists c, y. cbn in *. now split.
  - destruct m as [|c y].
    + left. exists (String a t). cbn in *. now split.
    + cbn in Heq. injection Heq as -> Heq.
      destruct (IH y Heq) as [(x & -> & ->) | (c' & y' & -> & ->)].
      * left. exists x. now split.
      * right. exists c', y'. now split.
Qed.

Lemma all_chars_append (p : ascii -> bool) (a b : string) :
  all_chars p (a ++ b) = all_chars p a && all_chars p b.
Proof.
  induction a as [|c a IH]; cbn; [reflexivity|]. now rewrite IH, andb_assoc.
Qed.

Lemma contains_append (c : ascii) (a b : string) :
  contains c (a ++ b) = contains c a || contains c b.
Proof.
  induction a as [|x a IH]; cbn; [reflexivity|]. now rewrite IH, orb_assoc.
Qed.

Lemma replace_append (c : ascii) (r a b : string) :
  replace c r (a ++ b) = replace c r a ++ replace c r b.
Proof.
  induction a as [|x a IH]; cbn; [reflexivity|].
  destruct (Ascii.eqb x c); rewrite IH; [now rewrite app_assoc_string | reflexivity].
Qed.

Lemma replace_absent (c : ascii) (r s : string) :
  contains c s = false -> replace c r s = s.
Proof.
  induction s as [|x s IH]; cbn; [reflexivity|].
  destruct (Ascii.eqb x c); cbn; [discriminate|]. intros H. now rewrite IH.
Qed.

Lemma contains_remove (c d : ascii) (s : string) :
  contains c s = false -> contains c (replace d EmptyString s) = false.
Proof.
  induction s as [|x s IH]; cbn; [reflexivity|].
  destruct (Ascii.eqb x c) eqn:Hx; cbn; [discriminate|]. intros H.
  destruct (Ascii.eqb x d); cbn; [now apply IH|]. rewrite Hx. now apply IH.
Qed.

Lemma split_on_nonempty (c : ascii) (s : string) : split_on c s <> [].
Proof.
  destruct s as [|a t]; cbn; [discriminate|].
  destruct (Ascii.eqb a c); [discriminate|].
  destruct (split_on c t); discriminate.
Qed.

Lemma split_on_absent (c : ascii) (s : string) :
  contains c s = false -> split_on c s = [s].
Proof.
  induction s as [|a t IH]; cbn; [reflexivity|].
  destruct (Ascii.eqb a c); cbn; [discriminate|]. intros H. now rewrite IH.
Qed.

(** The last piece of a split is the last piece of what follows any
    separator. *)
Lemma split_on_last (c : ascii) (x y d : string) :
  last (split_on c (x ++ String c y)) d = last (split_on c y) d.
Proof.
  induction x as [|a x IH]; cbn [append split_on].
  - rewrite Ascii.eqb_refl.
    pose proof (split_on_nonempty c y). now destruct (split_on c y).
  - pose proof (split_on_nonempty c (x ++ String c y)) as Hne.
    destruct (Ascii.eqb a c).
    + destruct (split_on c (x ++ String c y)) as [|h r] eqn:Hs; [congruence|].
      exact IH.
    + destruct (split_on c (x ++ String c y)) as [|h r] eqn:Hs; [congruence|].
      destruct r as [|h' r']; [|exact IH].
      cbn in IH. cbn.
      (* a single piece cannot hold the separator *)
      exfalso. clear IH Hne.
      assert (Hlen : forall s, 2 <= List.length (split_on c (s ++ String c y))).
      { clear. induction s as [|b s IHs]; cbn [append split_on].
        - rewrite Ascii.eqb_refl. pose proof (split_on_nonempty c y).
          destruct (split_on c y); [congruence | cbn; lia].
        - destruct (Ascii.eqb b c); [cbn; lia|].
          destruct (split_on c (s ++ String c y)) as [|h r]; cbn in *; lia. }
      specialize (Hlen x). rewrite Hs in Hlen. cbn in Hlen. lia.
Qed.

(** *** More on prompt detection *)

Lemma ANSI_RE_starts_with_ESC (c : ascii) (t r : string) :
  ANSI_RE (String c t) = Some r -> c = ESC.
Proof.
  cbn. destruct t as [|b t]; [discriminate|].
  destruct (Ascii.eqb c ESC) eqn:Hc; [|discriminate].
  intros _. now apply Ascii.eqb_eq.
Qed.

Lemma strip_ansi_no_escape (s : string) : contains ESC s = false -> _strip_ansi s = s.
Proof.
  revert s.
  induction s as [|c t IH]; [reflexivity|].
  cbn [contains]. intros Hno. apply orb_false_iff in Hno as [Hc Hno].
  assert (Hnone : ANSI_RE (String c t) = None).
  { destruct (ANSI_RE (String c t)) as [r|] eqn:Hre; [|reflexivity].
    apply ANSI_RE_starts_with_ESC in Hre. subst c.
    now rewrite Ascii.eqb_refl in Hc. }
  now rewrite (strip_ansi_keep _ _ Hnone), (IH Hno).
Qed.

(** X1. A text without the escape character comes back from [_strip_ansi]
    as it is. *)
Theorem strip_ansi_without_escape :
  forall s, contains ESC s = false -> _strip_ansi s = s.
Proof. exact strip_ansi_no_escape. Qed.

Lemma strip_ansi_without_escape_witness : _strip_ansi "You hit the rat." = "You hit the rat.".
Proof. apply strip_ansi_without_escape. reflexivity. Defined.

(** The characters of a CSI sequence after the first are the bracket,
    parameters and the final letter. *)
Lemma csi_inner_char (a c : ascii) (t y : string) :
  csi (String a (t ++ String c y)) ->
  c = "["%char \/ is_param c = true \/ is_final c = true.
Proof.
  intros Hm. remember (String a (t ++ String c y)) as m eqn:Heq.
  destruct Hm as [params l Hp Hl]. injection Heq as _ Heq.
  destruct t as [|b t]; cbn in Heq.
  - left. congruence.
  - right. injection Heq as _ Heq. symmetry in Heq.
    assert (Hall : all_chars (fun x => is_param x || is_final x)
                     (params ++ String l EmptyString) = true).
    { rewrite all_chars_append. cbn. rewrite Hl, orb_true_r. cbn.
      rewrite andb_true_r. clear -Hp.
      induction params as [|x params IH]; cbn in *; [reflexivity|].
      apply andb_true_iff in Hp as [Hx Hp]. now rewrite Hx, IH. }
    rewrite <- Heq, all_chars_append in Hall. cbn in Hall.
    apply andb_true_iff in Hall as [_ Hall]. apply andb_true_iff in Hall as [Hc _].
    now apply orb_true_iff in Hc.
Qed.

(** [_strip_ansi] works on what precedes a character that no CSI sequence
    can run over as if the rest were not there. *)
Lemma strip_ansi_append (c : ascii) (r : string) :
  c <> "["%char -> is_param c = false -> is_final c = false ->
  forall t, _strip_ansi (t ++ String c r) = _strip_ansi t ++ _strip_ansi (String c r).
Proof.
  intros Hb Hp Hf t.
  remember (String.length t) as n eqn:Hn. revert t Hn.
  induction n as [n IH] using lt_wf_ind. intros t ->.
  destruct t as [|a t]; [reflexivity|].
  destruct (ANSI_RE (String a t ++ String c r)) as [rest|] eqn:Hre.
  - rewrite (strip_ansi_match _ _ Hre).
    apply ANSI_RE_csi in Hre as (m & Hm & Heq).
    destruct (append_cut _ _ _ _ Heq) as [(x & Ht & ->) | (c0 & y & -> & Hs)].
    + assert (Hre : ANSI_RE (String a t) = Some x)
        by (apply ANSI_RE_csi; now exists m).
      rewrite (strip_ansi_match _ _ Hre).
      apply ANSI_RE_shorter in Hre. now apply (IH (String.length x)).
    + cbn in Hs. injection Hs as <- _.
      destruct (csi_inner_char _ _ _ _ Hm) as [H | [H | H]]; congruence.
  - assert (Hnone : ANSI_RE (String a t) = None).
    { destruct (ANSI_RE (String a t)) as [x|] eqn:Hx; [|reflexivity].
      apply ANSI_RE_csi in Hx as (m & Hm & Heq).
      assert (ANSI_RE (String a t ++ String c r) = Some (x ++ String c r)).
      { apply ANSI_RE_csi. exists m. split; [assumption|].
        now rewrite Heq, app_assoc_string. }
      congruence. }
    cbn [append] in *. rewrite (strip_ansi_keep _ _ Hre), (strip_ansi_keep _ _ Hnone).
    cbn [append]. f_equal. apply (IH (String.length t)); cbn; [lia | reflexivity].
Qed.

Lemma looks_like_prompt_last_line (frame : string) :
  frame <> EmptyString ->
  strip (last (split_on LF (normalized frame)) EmptyString) = ">" ->
  _looks_like_prompt frame = true.
Proof.
  intros Hne Hlast. apply looks_like_prompt_marker. now right.
Qed.

(** X2. The combined frame: whatever the text before, a frame that ends
    with a line break and a last line trimming to a lone [>] is taken for a
    prompt. *)
Theorem prompt_after_line_break :
  forall text tail,
    contains ESC tail = false ->
    contains LF tail = false ->
    strip (replace CR EmptyString tail) = ">" ->
    _looks_like_prompt (text ++ String LF tail) = true.
Proof.
  intros text tail Hesc Hlf Htail.
  apply looks_like_prompt_marker. right. unfold normalized.
  rewrite (strip_ansi_append LF tail) by (try reflexivity; discriminate).
  rewrite (strip_ansi_no_escape (String LF tail)) by exact Hesc.
  rewrite replace_append. cbn [replace].
  change (Ascii.eqb LF CR) with false. cbv iota.
  rewrite split_on_last.
  rewrite split_on_absent by (now apply contains_remove).
  exact Htail.
Qed.

(** A room description, then the prompt with a carriage return after it. *)
Lemma prompt_after_line_break_witness :
  _looks_like_prompt
    (("A dark cellar." ++ String ESC "[0m") ++ String LF ("> " ++ String CR EmptyString))
  = true.
Proof.
  apply prompt_after_line_break; reflexivity.
Defined.

Lemma last_char_eq (x y : string) (c d : ascii) :
  x ++ String c EmptyString = y ++ String d EmptyString -> c = d.
Proof.
  revert y. induction x as [|a x IH]; intros [|b y] Heq; cbn in Heq.
  - congruence.
  - injection Heq as _ Heq. destruct y; discriminate.
  - injection Heq as _ Heq. destruct x; discriminate.
  - injection Heq as _ Heq. now apply (IH y).
Qed.

Lemma list_ascii_of_string_append (a b : string) :
  list_ascii_of_string (a ++ b) = (list_ascii_of_string a ++ list_ascii_of_string b)%list.
Proof. induction a as [|c a IH]; cbn; [reflexivity | now rewrite IH]. Qed.

Lemma string_of_list_ascii_app (a b : list ascii) :
  string_of_list_ascii (a ++ b) = string_of_list_ascii a ++ string_of_list_ascii b.
Proof. induction a as [|c a IH]; cbn; [reflexivity | now rewrite IH]. Qed.

Lemma rev_string_snoc (z : string) (c : ascii) :
  rev_string (z ++ String c EmptyString) = String c (rev_string z).
Proof.
  unfold rev_string. now rewrite list_ascii_of_string_append, rev_app_distr.
Qed.

Lemma rev_string_cons (z : string) (c : ascii) :
  rev_string (String c z) = rev_string z ++ String c EmptyString.
Proof.
  unfold rev_string. cbn. now rewrite string_of_list_ascii_app.
Qed.

Lemma rev_string_involutive (z : string) : rev_string (rev_string z) = z.
Proof.
  unfold rev_string.
  now rewrite list_ascii_of_string_of_list_ascii, rev_involutive,
    string_of_list_ascii_of_string.
Qed.

(** A last character that is not to be dropped stops [rstrip]. *)
Lemma rstrip_by_snoc (p : ascii -> bool) (z : string) (c : ascii) :
  p c = false -> rstrip_by p (z ++ String c EmptyString) = z ++ String c EmptyString.
Proof.
  intros Hc. unfold rstrip_by. rewrite rev_string_snoc. cbn [lstrip_by]. rewrite Hc.
  now rewrite rev_string_cons, rev_string_involutive.
Qed.

Lemma lstrip_by_snoc (p : ascii -> bool) (x : string) (c : ascii) :
  p c = false -> exists z, lstrip_by p (x ++ String c EmptyString) = z ++ String c EmptyString.
Proof.
  intros Hc. induction x as [|a x [z IH]]; cbn.
  - rewrite Hc. now exists EmptyString.
  - destruct (p a); [now exists z | now exists (String a x)].
Qed.

Lemma strip_by_snoc (p : ascii -> bool) (x : string) (c : ascii) :
  p c = false -> exists z, strip_by p (x ++ String c EmptyString) = z ++ String c EmptyString.
Proof.
  intros Hc. destruct (lstrip_by_snoc p x c Hc) as [z Hz].
  exists z. unfold strip_by. rewrite Hz. now apply rstrip_by_snoc.
Qed.

Lemma split_on_last_snoc (sep c : ascii) (n : string) :
  c <> sep ->
  exists z, last (split_on sep (n ++ String c EmptyString)) EmptyString
            = z ++ String c EmptyString.
Proof.
  intros Hc. induction n as [|a n [z IH]]; cbn [append split_on].
  - apply Ascii.eqb_neq in Hc. rewrite Hc. now exists EmptyString.
  - pose proof (split_on_nonempty sep (n ++ String c EmptyString)) as Hne.
    destruct (split_on sep (n ++ String c EmptyString)) as [|h r]; [congruence|].
    destruct (Ascii.eqb a sep); [now exists z|].
    destruct r as [|h' r]; [|now exists z].
    cbn in IH. subst h. now exists (String a z).
Qed.

(** [_strip_ansi] keeps a last character that cannot end a CSI sequence. *)
Lemma strip_ansi_keeps_last (c : ascii) :
  is_final c = false ->
  forall body, exists w, _strip_ansi (body ++ String c EmptyString) = w ++ String c EmptyString.
Proof.
  intros Hf body.
  remember (String.length body) as n eqn:Hn. revert body Hn.
  induction n as [n IH] using lt_wf_ind. intros body ->.
  destruct body as [|a t].
  - exists EmptyString. cbn [append].
    rewrite strip_ansi_keep by reflexivity. reflexivity.
  - destruct (ANSI_RE (String a t ++ String c EmptyString)) as [rest|] eqn:Hre.
    + rewrite (strip_ansi_match _ _ Hre).
      apply ANSI_RE_csi in Hre as (m & Hm & Heq).
      destruct (append_cut _ _ _ _ Heq) as [(x & Ht & ->) | (c0 & y & -> & Hs)].
      * assert (Hlen : String.length x < String.length (String a t)).
        { apply ANSI_RE_shorter, ANSI_RE_csi. now exists m. }
        now apply (IH (String.length x)).
      * cbn in Hs. injection Hs as <- Hy.
        destruct y; [|discriminate Hy].
        exfalso. remember (String a t ++ String c EmptyString) as m eqn:Em.
        destruct Hm as [params l Hp Hl].
        change (String ESC (String "[" (params ++ String l EmptyString)))
          with ((String ESC (String "[" params)) ++ String l EmptyString) in Em.
        apply last_char_eq in Em. congruence.
    + cbn [append] in *. rewrite (strip_ansi_keep _ _ Hre).
      destruct (IH (String.length t) ltac:(cbn; lia) t eq_refl) as [w Hw].
      exists (String a w). now rewrite Hw.
Qed.

(** X3. A frame whose last character is visible and is not [>] is never
    taken for a prompt, provided that character cannot be the end of a CSI
    sequence: it is not a letter, or the frame has no escape character. *)
Theorem visible_last_char_not_prompt :
  forall body c,
    isspace c = false ->
    c <> ">"%char ->
    is_final c = false \/ contains ESC body = false ->
    _looks_like_prompt (body ++ String c EmptyString) = false.
Proof.
  intros body c Hsp Hgt Hend.
  apply not_true_is_false. intros Hprompt.
  apply looks_like_prompt_marker in Hprompt.
  assert (Hkept : exists w, _strip_ansi (body ++ String c EmptyString)
                            = w ++ String c EmptyString).
  { destruct (is_final c) eqn:Hfc; [|now apply strip_ansi_keeps_last].
    destruct Hend as [Hf | Hesc]; [discriminate Hf|].
    exists body. apply strip_ansi_no_escape.
    rewrite contains_append, Hesc. cbn.
    destruct (Ascii.eqb_spec c ESC) as [-> | _]; [discriminate Hfc | reflexivity]. }
  destruct Hkept as [w Hw].
  assert (Hcr : Ascii.eqb c CR = false)
    by (destruct (Ascii.eqb_spec c CR) as [-> | _]; [discriminate Hsp | reflexivity]).
  assert (Hlf : c <> LF) by (intros ->; discriminate Hsp).
  assert (Hnorm : normalized (body ++ String c EmptyString)
                  = replace CR EmptyString w ++ String c EmptyString).
  { unfold normalized. rewrite Hw, replace_append. cbn. now rewrite Hcr. }
  unfold prompt_marker in Hprompt. rewrite Hnorm in Hprompt.
  destruct Hprompt as [Hwhole | Hlast].
  - destruct (strip_by_snoc isspace (replace CR EmptyString w) c Hsp) as [z Hz].
    unfold strip in Hwhole. rewrite Hz in Hwhole.
    change ">" with (EmptyString ++ String ">" EmptyString) in Hwhole.
    now apply last_char_eq in Hwhole.
  - destruct (split_on_last_snoc LF c (replace CR EmptyString w) Hlf) as [z Hz].
    rewrite Hz in Hlast.
    destruct (strip_by_snoc isspace z c Hsp) as [z' Hz'].
    unfold strip in Hlast. rewrite Hz' in Hlast.
    change ">" with (EmptyString ++ String ">" EmptyString) in Hlast.
    now apply last_char_eq in Hlast.
Qed.

(** Game text with a [>] in the middle of its last line. *)
Lemma visible_last_char_not_prompt_witness :
  _looks_like_prompt ("The sign reads: exit -> north" ++ String "." EmptyString) = false.
Proof.
  apply visible_last_char_not_prompt; [reflexivity | discriminate | now left].
Defined.

(** *** More on the connection primitives *)

Lemma text_frames_app (a b : list (Z * Frame)) :
  text_frames (a ++ b) = (text_frames a ++ text_frames b)%list.
Proof.
  induction a as [|[t [x|x]] a IH]; cbn; [reflexivity | now rewrite IH | exact IH].
Qed.

Lemma consumes_nothing (b : Bot) : consumes [] b b.
Proof. unfold consumes. cbn. repeat split. Qed.

Lemma consumes_trans (c1 c2 : list (Z * Frame)) (b b1 b2 : Bot) :
  consumes c1 b b1 -> consumes c2 b1 b2 -> consumes (c1 ++ c2) b b2.
Proof.
  intros (H1 & H2 & H3 & H4 & H5 & H6) (K1 & K2 & K3 & K4 & K5 & K6).
  unfold consumes. rewrite text_frames_app, fold_left_app, <- H2, <- K2.
  repeat split; try congruence.
  now rewrite H1, K1, app_assoc.
Qed.

(** [recv_until_prompt] from any state. *)
Lemma recv_until_prompt_cases (timeout_s : Z) (b : Bot) (r : Outcome unit) (b' : Bot) :
  recv_until_prompt timeout_s b = (r, b') ->
  exists consumed,
    consumes consumed b b'
    /\ ((r = Return tt /\ at_prompt (ps b') = true)
        \/ (r = Raise TimeoutError /\ at_prompt (ps b') = false
            /\ at_prompt (ps b) = false)).
Proof.
  destruct (at_prompt (ps b)) eqn:Hp; intros Hrun.
  - rewrite (recv_until_prompt_ready _ _ Hp) in Hrun. injection Hrun as <- <-.
    exists []. split; [apply consumes_nothing | now left].
  - destruct (recv_until_prompt_busy _ _ _ _ Hp Hrun) as (consumed & Hc & Hres).
    exists consumed. split; [assumption|].
    destruct Hres as [(-> & Hp' & _) | (-> & Hp' & _)]; [now left | now right].
Qed.

(** X4. Once a wait for the prompt has returned, a second wait returns at
    once and changes nothing: waiting twice is waiting once. *)
Theorem recv_until_prompt_twice :
  forall t1 t2 b b1,
    recv_until_prompt t1 b = (Return tt, b1) ->
    recv_until_prompt t2 b1 = (Return tt, b1).
Proof.
  intros t1 t2 b b1 Hrun. apply recv_until_prompt_ready.
  destruct (recv_until_prompt_cases _ _ _ _ Hrun) as (consumed & _ & Hres).
  destruct Hres as [(_ & Hp) | (Habs & _)]; [assumption | discriminate Habs].
Qed.

Lemma recv_until_prompt_twice_witness :
  let b1 := snd (recv_until_prompt 30000 (bot_on false two_frames)) in
  recv_until_prompt 5 b1 = (Return tt, b1).
Proof.
  intros b1. apply (recv_until_prompt_twice 30000 5 (bot_on false two_frames) b1).
  reflexivity.
Defined.

(** [send_and_wait_prompt] from any state, in full. *)
Lemma send_and_wait_prompt_cases (cmd : string) (timeout_s : Z) (b : Bot)
    (r : Outcome unit) (b' : Bot) :
  send_and_wait_prompt cmd timeout_s b = (r, b') ->
  stats b' = stats b /\ last_move b' = last_move b /\ rng b' = rng b
  /\ ((r = Return tt /\ at_prompt (ps b') = true
       /\ outbox (ws b') = List.app (outbox (ws b)) [wire cmd]
       /\ List.length (inbox (ws b')) < List.length (inbox (ws b)))
      \/ (r = Raise TimeoutError /\ at_prompt (ps b') = false
          /\ ((outbox (ws b') = outbox (ws b) /\ at_prompt (ps b) = false)
              \/ outbox (ws b') = List.app (outbox (ws b)) [wire cmd]))).
Proof.
  unfold send_and_wait_prompt, bind at 1.
  destruct (recv_until_prompt timeout_s b) as [r0 b0] eqn:Hfirst.
  destruct (recv_until_prompt_cases _ _ _ _ Hfirst)
    as (c0 & (Hin0 & _ & Hout0 & Hst0 & Hlm0 & Hrng0) & Hres0).
  destruct Hres0 as [(-> & Hp0) | (-> & Hp0 & Hpb)].
  - unfold bind at 1. rewrite send_line_run. set (b1 := set_ps _ _). intros Hrun.
    destruct (recv_until_prompt_busy timeout_s b1 r b' eq_refl Hrun)
      as (c1 & (Hin1 & _ & Hout1 & Hst1 & Hlm1 & Hrng1) & Hres).
    cbn in Hin1, Hout1, Hst1, Hlm1, Hrng1.
    split; [congruence|]. split; [congruence|]. split; [congruence|].
    destruct Hres as [(-> & Hp' & _ & Hne) | (-> & Hp' & _)].
    + left. repeat split; auto.
      * unfold wire. now rewrite Hout1, Hout0.
      * rewrite Hin0, Hin1, !length_app.
        destruct c1; [congruence | cbn; lia].
    + right. repeat split; auto. right. unfold wire. now rewrite Hout1, Hout0.
  - intros [= <- <-]. repeat split; auto. right. repeat split; auto.
Qed.

(** X5. [send_and_wait_prompt] keeps one command in flight: it sends its
    command once, and only in a ready state; it returns only after taking at
    least one more frame, in a ready state; if it times out before a prompt
    was seen, nothing was sent. *)
Theorem send_and_wait_prompt_one_in_flight :
  forall cmd timeout_s b r b',
    send_and_wait_prompt cmd timeout_s b = (r, b') ->
    stats b' = stats b
    /\ ((r = Return tt /\ at_prompt (ps b') = true
         /\ outbox (ws b') = List.app (outbox (ws b)) [wire cmd]
         /\ List.length (inbox (ws b')) < List.length (inbox (ws b)))
        \/ (r = Raise TimeoutError /\ at_prompt (ps b') = false
            /\ ((outbox (ws b') = outbox (ws b) /\ at_prompt (ps b) = false)
                \/ outbox (ws b') = List.app (outbox (ws b)) [wire cmd]))).
Proof.
  intros cmd timeout_s b r b' Hrun.
  destruct (send_and_wait_prompt_cases _ _ _ _ _ Hrun) as (Hst & _ & _ & Hres).
  now split.
Qed.

(** A busy bot and a silent server: the timeout, nothing sent. *)
Lemma send_and_wait_prompt_one_in_flight_witness :
  let (r, b') := send_and_wait_prompt "look" 30000 (bot_on false []) in
  r = Raise TimeoutError /\ outbox (ws b') = [] /\ at_prompt (ps b') = false.
Proof.
  destruct (send_and_wait_prompt "look" 30000 (bot_on false [])) as [r b'] eqn:Hrun.
  destruct (send_and_wait_prompt_one_in_flight _ _ _ _ _ Hrun) as (_ & Hres).
  assert (Hr : r = Raise TimeoutError) by (vm_compute in Hrun; congruence).
  assert (Ho : outbox (ws b') = []) by (vm_compute in Hrun; injection Hrun as _ <-; reflexivity).
  destruct Hres as [(Habs & _) | (_ & Hp & _)]; [congruence | now repeat split].
Defined.

(** *** Waiting for a text *)

Lemma recv_until_contains_loop_spec (fuel : nat) (needle : string) (deadline : Z) :
  forall buf b r b',
    List.length (inbox (ws b)) < fuel ->
    recv_until_contains_loop fuel needle deadline buf b = (r, b') ->
    exists consumed,
      consumes consumed b b'
      /\ ((r = Return tt /\ text_frames consumed <> []
           /\ occurs needle (buf ++ joined (text_frames consumed)) = true)
          \/ (r = Raise TimeoutError /\ (deadline <= clock (ws b'))%Z
              /\ (text_frames consumed = []
                  \/ occurs needle (buf ++ joined (text_frames consumed)) = false))).
Proof.
  induction fuel as [|fuel IH]; intros buf b r b' Hfuel Hrun; [lia|].
  cbn [recv_until_contains_loop] in Hrun. revert Hrun. eff_step.
  destruct (deadline - clock (ws b) <=? 0)%Z eqn:Hrem.
  - intros [= <- <-]. exists []. apply Z.leb_le in Hrem.
    split; [apply consumes_nothing|]. right. repeat split; [lia | now left].
  - apply Z.leb_gt in Hrem.
    destruct (recv_with_timeout_cases (deadline - clock (ws b)) b)
      as [(t & f & rest & Hin & ->) | ->].
    + set (b1 := set_ws _ b).
      assert (Hlen : List.length (inbox (ws b1)) < fuel)
        by (rewrite Hin in Hfuel; cbn in *; lia).
      assert (Hstep : consumes [(t, f)] b
                        (match f with
                         | TextFrame text => set_ps (observe_incoming (ps b1) text) b1
                         | BinaryFrame _ => b1
                         end)).
      { destruct f as [text|payload]; unfold consumes, b1; cbn; rewrite Hin; repeat split. }
      destruct f as [text | payload].
      * destruct (occurs needle (buf ++ text)) eqn:Hocc.
        -- intros [= <- <-]. exists [(t, TextFrame text)].
           split; [exact Hstep|]. left.
           cbn. rewrite append_empty_r. repeat split; [discriminate | assumption].
        -- intros Hrun.
           destruct (IH _ (set_ps (observe_incoming (ps b1) text) b1) _ _ Hlen Hrun)
             as (consumed & Hc & Hres).
           exists ([(t, TextFrame text)] ++ consumed)%list.
           split; [exact (consumes_trans _ _ _ _ _ Hstep Hc)|].
           cbn [List.app text_frames joined fold_right].
           rewrite <- app_assoc_string.
           destruct Hres as [(-> & _ & Hocc') | (-> & Hd & Hno)].
           ++ left. repeat split; [discriminate | assumption].
           ++ right. repeat split; [assumption|]. right.
              destruct Hno as [-> | Hno]; [|assumption].
              cbn. now rewrite append_empty_r.
      * intros Hrun.
        destruct (IH _ _ _ _ Hlen Hrun) as (consumed & Hc & Hres).
        exists ([(t, BinaryFrame payload)] ++ consumed)%list.
        split; [exact (consumes_trans _ _ _ _ _ Hstep Hc)|].
        exact Hres.
    + intros [= <- <-]. exists []. unfold consumes. cbn. repeat split; auto.
      right. repeat split; [lia | now left].
Qed.

Lemma recv_until_contains_cases (needle : string) (timeout_s : Z) (b : Bot)
    (r : Outcome unit) (b' : Bot) :
  recv_until_contains needle timeout_s b = (r, b') ->
  exists consumed,
    consumes consumed b b'
    /\ ((r = Return tt /\ text_frames consumed <> []
         /\ occurs needle (joined (text_frames consumed)) = true)
        \/ (r = Raise TimeoutError /\ (clock (ws b) + timeout_s <= clock (ws b'))%Z
            /\ (text_frames consumed = []
                \/ occurs needle (joined (text_frames consumed)) = false))).
Proof.
  unfold recv_until_contains. eff_step. intros Hrun.
  apply recv_until_contains_loop_spec in Hrun; [exact Hrun | lia].
Qed.

(** X6. [recv_until_contains] takes frames from the connection, showing
    each text frame to the prompt state, until the text frames received in
    this call, put together, hold the needle; it never returns before a
    text frame has come, even for the empty needle.  Otherwise it raises the
    timeout once the deadline has passed, and the text received did not hold
    the needle. *)
Theorem recv_until_contains_spec :
  forall needle timeout_s b r b',
    recv_until_contains needle timeout_s b = (r, b') ->
    exists consumed,
      consumes consumed b b'
      /\ ((r = Return tt /\ text_frames consumed <> []
           /\ occurs needle (joined (text_frames consumed)) = true)
          \/ (r = Raise TimeoutError /\ (clock (ws b) + timeout_s <= clock (ws b'))%Z
              /\ (text_frames consumed = []
                  \/ occurs needle (joined (text_frames consumed)) = false))).
Proof. exact recv_until_contains_cases. Qed.

(** The needle cut in two by the frame boundary is found all the same. *)
Lemma recv_until_contains_spec_witness :
  let frames := [(1%Z, TextFrame "Enter your"); (2%Z, BinaryFrame []);
                 (3%Z, TextFrame " name:"); (4%Z, TextFrame "> ")] in
  let (r, b') := recv_until_contains needle_enter_name 30000 (bot_on false frames) in
  r = Return tt /\ inbox (ws b') = [(4%Z, TextFrame "> ")] /\ at_prompt (ps b') = false.
Proof.
  intros frames.
  destruct (recv_until_contains needle_enter_name 30000 (bot_on false frames))
    as [r b'] eqn:Hrun.
  destruct (recv_until_contains_spec _ _ _ _ _ Hrun) as (consumed & _ & _).
  vm_compute in Hrun. injection Hrun as <- <-. repeat split.
Defined.

(** *** The login *)

Lemma sends_recv_until_prompt (timeout_s : Z) : sends [] (recv_until_prompt timeout_s).
Proof.
  intros b r b' Hrun.
  destruct (recv_until_prompt_cases _ _ _ _ Hrun)
    as (c & (_ & _ & Hout & Hst & _) & Hres).
  split; [assumption|]. rewrite app_nil_r.
  destruct Hres as [(-> & _) | (-> & _)]; [now left | right].
  split; [reflexivity|]. exists [], []. split; [reflexivity | now rewrite app_nil_r].
Qed.

Lemma sends_recv_until_contains (needle : string) (timeout_s : Z) :
  sends [] (recv_until_contains needle timeout_s).
Proof.
  intros b r b' Hrun.
  destruct (recv_until_contains_cases _ _ _ _ _ Hrun)
    as (c & (_ & _ & Hout & Hst & _) & Hres).
  split; [assumption|]. rewrite app_nil_r.
  destruct Hres as [(-> & _) | (-> & _)]; [now left | right].
  split; [reflexivity|]. exists [], []. split; [reflexivity | now rewrite app_nil_r].
Qed.

Lemma sends_send_and_wait_prompt (cmd : string) (timeout_s : Z) :
  sends [wire cmd] (send_and_wait_prompt cmd timeout_s).
Proof.
  intros b r b' Hrun.
  destruct (send_and_wait_prompt_cases _ _ _ _ _ Hrun) as (Hst & _ & _ & Hres).
  split; [assumption|].
  destruct Hres as [(-> & _ & Hout & _) | (-> & _ & [(Hout & _) | Hout])].
  - now left.
  - right. split; [reflexivity|]. exists [], [wire cmd].
    split; [reflexivity | now rewrite app_nil_r].
  - right. split; [reflexivity|]. exists [wire cmd], []. now split.
Qed.

(** What two pieces send, one after the other. *)
Lemma sends_bind (c1 c2 : list string) (m1 m2 : IO unit) :
  sends c1 m1 -> sends c2 m2 -> sends (c1 ++ c2) (bind m1 (fun _ => m2)).
Proof.
  intros H1 H2 b r b'. unfold bind.
  destruct (m1 b) as [r1 b1] eqn:Hm1.
  destruct (H1 _ _ _ Hm1) as (Hst1 & Hres1).
  destruct Hres1 as [(-> & Hout1) | (-> & sent & rest & -> & Hout1)].
  - intros Hm2. destruct (H2 _ _ _ Hm2) as (Hst2 & Hres2).
    split; [congruence|].
    destruct Hres2 as [(-> & Hout2) | (-> & sent & rest & -> & Hout2)].
    + left. split; [reflexivity|]. now rewrite Hout2, Hout1, app_assoc.
    + right. split; [reflexivity|]. exists (c1 ++ sent)%list, rest.
      split; [now rewrite app_assoc|]. now rewrite Hout2, Hout1, app_assoc.
  - intros [= <- <-]. split; [assumption|]. right. split; [reflexivity|].
    exists sent, (rest ++ c2)%list. split; [now rewrite app_assoc | assumption].
Qed.

Lemma login_new_user_sends (name password : string) (timeout_s : Z) :
  sends [wire name; wire "yes"; wire password] (login_new_user name password timeout_s).
Proof.
  unfold login_new_user.
  change [wire name; wire "yes"; wire password]
    with ([] ++ [] ++ [wire name] ++ [] ++ [] ++ [wire "yes"] ++ [] ++ []
          ++ [wire password] ++ [])%list.
  repeat (apply sends_bind;
          [first [apply sends_recv_until_contains | apply sends_recv_until_prompt
                 | apply sends_send_and_wait_prompt]|]).
  apply sends_recv_until_prompt.
Qed.

(** A piece that ends with a wait for the prompt returns ready. *)
Lemma bind_recv_until_prompt_ready (m : IO unit) (timeout_s : Z) (b b' : Bot) :
  bind m (fun _ => recv_until_prompt timeout_s) b = (Return tt, b') ->
  at_prompt (ps b') = true.
Proof.
  unfold bind. destruct (m b) as [[[]| |] b1]; try discriminate.
  intros Hrun. destruct (recv_until_prompt_cases _ _ _ _ Hrun) as (_ & _ & Hres).
  destruct Hres as [(_ & Hp) | (Habs & _)]; [assumption | discriminate Habs].
Qed.

Lemma bind_assoc {St A B C} (m : Eff St A) (k : A -> Eff St B) (h : B -> Eff St C) (s : St) :
  bind (bind m k) h s = bind m (fun a => bind (k a) h) s.
Proof.
  unfold bind. destruct (m s) as [[a| |] s1]; reflexivity.
Qed.

Lemma login_new_user_ready (name password : string) (timeout_s : Z) (b b' : Bot) :
  login_new_user name password timeout_s b = (Return tt, b') ->
  at_prompt (ps b') = true.
Proof.
  unfold login_new_user.
  repeat rewrite <- bind_assoc.
  apply bind_recv_until_prompt_ready.
Qed.

(** X7. Whatever the server does, a login that returns has sent the name,
    [yes] and the password, each with its line feed, in this order and
    nothing else, and leaves the bot ready; a login that fails has raised
    the timeout after sending a front part of these three. *)
Theorem login_new_user_sends_credentials :
  forall name password timeout_s b r b',
    login_new_user name password timeout_s b = (r, b') ->
    stats b' = stats b
    /\ ((r = Return tt /\ at_prompt (ps b') = true
         /\ outbox (ws b')
            = List.app (outbox (ws b)) [wire name; wire "yes"; wire password])
        \/ (r = Raise TimeoutError
            /\ exists sent rest,
                 [wire name; wire "yes"; wire password] = List.app sent rest
                 /\ outbox (ws b') = List.app (outbox (ws b)) sent)).
Proof.
  intros name password timeout_s b r b' Hrun.
  destruct (login_new_user_sends name password timeout_s b r b' Hrun) as (Hst & Hres).
  split; [assumption|].
  destruct Hres as [(-> & Hout) | Hfail]; [left | now right].
  repeat split; [|assumption]. now apply (login_new_user_ready name password timeout_s b).
Qed.

(** A login that goes well. *)
Lemma login_new_user_sends_credentials_witness :
  let (r, b') := login_new_user "Bot0001_ab12" "Pw0001_cd34ef" 30000
                   (bot_on false login_frames) in
  r = Return tt /\ at_prompt (ps b') = true
  /\ outbox (ws b') = [wire "Bot0001_ab12"; wire "yes"; wire "Pw0001_cd34ef"]
  /\ inbox (ws b') = [].
Proof.
  destruct (login_new_user "Bot0001_ab12" "Pw0001_cd34ef" 30000 (bot_on false login_frames))
    as [r b'] eqn:Hrun.
  destruct (login_new_user_sends_credentials _ _ _ _ _ _ Hrun) as (_ & _).
  vm_compute in Hrun. injection Hrun as <- <-. repeat split; reflexivity.
Defined.

Lemma consumes_length (consumed : list (Z * Frame)) (b b' : Bot) :
  consumes consumed b b' ->
  List.length (inbox (ws b)) = List.length consumed + List.length (inbox (ws b')).
Proof. intros (Hin & _). now rewrite Hin, length_app. Qed.

Lemma takes_recv_until_prompt (timeout_s : Z) : takes 0 (recv_until_prompt timeout_s).
Proof.
  intros b b' Hrun.
  destruct (recv_until_prompt_cases _ _ _ _ Hrun) as (c & Hc & _).
  apply consumes_length in Hc. lia.
Qed.

Lemma takes_recv_until_contains (needle : string) (timeout_s : Z) :
  takes 1 (recv_until_contains needle timeout_s).
Proof.
  intros b b' Hrun.
  destruct (recv_until_contains_cases _ _ _ _ _ Hrun) as (c & Hc & Hres).
  apply consumes_length in Hc.
  destruct Hres as [(_ & Hne & _) | (Habs & _)]; [|discriminate Habs].
  destruct c; [now destruct Hne | cbn in Hc; lia].
Qed.

Lemma takes_send_and_wait_prompt (cmd : string) (timeout_s : Z) :
  takes 1 (send_and_wait_prompt cmd timeout_s).
Proof.
  intros b b' Hrun.
  destruct (send_and_wait_prompt_cases _ _ _ _ _ Hrun) as (_ & _ & _ & Hres).
  destruct Hres as [(_ & _ & _ & Hlen) | (Habs & _)]; [lia | discriminate Habs].
Qed.

Lemma takes_bind (n1 n2 : nat) (m1 m2 : IO unit) :
  takes n1 m1 -> takes n2 m2 -> takes (n1 + n2) (bind m1 (fun _ => m2)).
Proof.
  intros H1 H2 b b'. unfold bind.
  destruct (m1 b) as [[[]| |] b1] eqn:Hm1; try discriminate.
  intros Hm2. specialize (H1 _ _ Hm1). specialize (H2 _ _ Hm2). lia.
Qed.

Lemma login_new_user_takes (name password : string) (timeout_s : Z) :
  takes 6 (login_new_user name password timeout_s).
Proof.
  unfold login_new_user.
  change 6 with (1 + (0 + (1 + (1 + (0 + (1 + (1 + (0 + (1 + 0))))))))).
  repeat (apply takes_bind;
          [first [apply takes_recv_until_contains | apply takes_recv_until_prompt
                 | apply takes_send_and_wait_prompt]|]).
  apply takes_recv_until_prompt.
Qed.

(** X8. Each wait for a question looks only at frames that come after the
    prompt that ended the step before, so a login needs six frames or more:
    with fewer to come it raises the timeout.  A server that sends each
    question together with the prompt, one frame per step, is such a
    case. *)
Theorem login_new_user_needs_six_frames :
  forall name password timeout_s b,
    List.length (inbox (ws b)) < 6 ->
    fst (login_new_user name password timeout_s b) = Raise TimeoutError.
Proof.
  intros name password timeout_s b Hfew.
  destruct (login_new_user name password timeout_s b) as [r b'] eqn:Hrun.
  destruct (login_new_user_sends name password timeout_s b r b' Hrun)
    as (_ & [(-> & _) | (-> & _)]); [|reflexivity].
  apply login_new_user_takes in Hrun. lia.
Qed.

(** One frame per step: the name goes out, the question that came with the
    prompt is not seen again, and the login times out. *)
Lemma login_new_user_needs_six_frames_witness :
  let (r, b') := login_new_user "Bot0001_ab12" "Pw0001_cd34ef" 30000
                   (bot_on false one_frame_per_step) in
  r = Raise TimeoutError /\ outbox (ws b') = [wire "Bot0001_ab12"].
Proof.
  pose proof (login_new_user_needs_six_frames "Bot0001_ab12" "Pw0001_cd34ef" 30000
                (bot_on false one_frame_per_step) ltac:(cbn; lia)) as Hfail.
  destruct (login_new_user "Bot0001_ab12" "Pw0001_cd34ef" 30000
              (bot_on false one_frame_per_step)) as [r b'] eqn:Hrun.
  split; [exact Hfail|].
  vm_compute in Hrun. injection Hrun as _ <-. reflexivity.
Defined.

(** *** Choosing a move, at the edges *)

Lemma choose_move_empty (cfg : SwarmConfig) (last : option string) (g : Rng) :
  moves cfg = [] -> choose_move cfg last g = (Raise IndexError, g).
Proof.
  intros Hempty. unfold choose_move. rewrite Hempty. cbn.
  now destruct (negb (avoid_immediate_backtrack cfg) || negb (is_set last)).
Qed.

Lemma choose_move_returns (cfg : SwarmConfig) (last : option string) (g : Rng) :
  moves cfg <> [] ->
  exists m,
    choose_move cfg last g = (Return m, fun i => g (S i))
    /\ In m (move_pool cfg last).
Proof.
  intros Hne. rewrite (choose_move_pool cfg last Hne).
  destruct (choice_nonempty (move_pool cfg last) g (move_pool_nonempty cfg last Hne))
    as (m & Hrun & Hnth & _).
  exists m. split; [assumption|]. eapply nth_error_In, Hnth.
Qed.

(** X9. [choose_move] at the edges: with no move configured it raises
    [IndexError]; otherwise it returns a configured move, and with
    avoidance on never the move opposite the last one, as long as another
    move is configured. *)
Theorem choose_move_never_backtracks :
  forall cfg last g,
    (moves cfg = [] -> choose_move cfg last g = (Raise IndexError, g))
    /\ (moves cfg <> [] ->
        exists m,
          choose_move cfg last g = (Return m, fun i => g (S i))
          /\ In m (moves cfg)
          /\ forall lm back,
               avoid_immediate_backtrack cfg = true ->
               last = Some lm ->
               OPPOSITE lm = Some back ->
               (exists x, In x (moves cfg) /\ x <> back) ->
               m <> back).
Proof.
  intros cfg last g. split; [apply choose_move_empty|].
  intros Hne. destruct (choose_move_returns cfg last g Hne) as (m & Hrun & Hin).
  exists m. split; [assumption|]. split; [now apply (move_pool_incl cfg last)|].
  intros lm back Hon -> Hback (x & Hx & Hxb).
  unfold move_pool in Hin. rewrite Hon in Hin.
  unfold without_reverse in Hin. rewrite <- OPPOSITE_opposite_of, Hback in Hin.
  assert (Hkept : In x (filter (fun m => negb (m =? back)) (moves cfg))).
  { apply filter_In. split; [assumption|]. apply negb_true_iff. now apply String.eqb_neq. }
  destruct (filter (fun m => negb (m =? back)) (moves cfg)) as [|y ys] eqn:Hf;
    [contradiction|].
  rewrite <- Hf in Hin. apply filter_In in Hin as [_ Hm].
  apply negb_true_iff in Hm. now apply String.eqb_neq.
Qed.

(** All six moves, last move up: the draw that would pick down among the
    six picks among the five others. *)
Lemma choose_move_never_backtracks_witness :
  fst (choose_move config_with_avoid (Some "up") (fun _ => 5%Z)) <> Return "down".
Proof.
  destruct (proj2 (choose_move_never_backtracks config_with_avoid (Some "up")
                     (fun _ => 5%Z))
              ltac:(discriminate)) as (m & Hrun & _ & Hnot).
  rewrite Hrun. cbn [fst]. intros [= ->].
  apply (Hnot "up" "down"); try reflexivity.
  exists "north". split; [now left | discriminate].
Defined.

(** *** The turns of a bot *)

Lemma with_rng_frame {A} (m : Rand A) (b : Bot) (r : Outcome A) (b' : Bot) :
  with_rng m b = (r, b') ->
  ws b' = ws b /\ ps b' = ps b /\ stats b' = stats b /\ last_move b' = last_move b.
Proof.
  unfold with_rng. destruct (m (rng b)) as [r0 g]. intros [= <- <-]. repeat split.
Qed.

Lemma choose_action_returns (cfg : SwarmConfig) (g : Rng) :
  exists a, choose_action cfg g = (Return a, fun i => g (S i)).
Proof.
  destruct (random_unit_interval g) as (u & Hu & _).
  unfold choose_action. unfold bind at 1. rewrite Hu.
  destruct (Qltb _ _); [now exists "move"|].
  destruct (Qltb _ _); [now exists "kill" | now exists "look"].
Qed.

Lemma counters_grow_refl (b b' : Bot) : stats b' = stats b -> counters_grow b b'.
Proof. intros H. unfold counters_grow. rewrite H. lia. Qed.

Lemma counters_grow_trans (b b1 b2 : Bot) :
  counters_grow b b1 -> counters_grow b1 b2 -> counters_grow b b2.
Proof. unfold counters_grow. lia. Qed.

Lemma loot_bound_same (cfg : SwarmConfig) (b b' : Bot) :
  stats b' = stats b -> loot_bound cfg b -> loot_bound cfg b'.
Proof. intros H. unfold loot_bound. now rewrite H. Qed.

(** The kill branch, whatever the server does. *)
Lemma bot_task_kill_cases (cfg : SwarmConfig) (b : Bot) (r : Outcome unit) (b' : Bot) :
  bot_task_kill cfg b = (r, b') ->
  counters_grow b b'
  /\ (loot_bound cfg b -> loot_bound cfg b')
  /\ ((r = Return tt /\ at_prompt (ps b') = true
       /\ List.length (inbox (ws b')) < List.length (inbox (ws b)))
      \/ r = Raise TimeoutError)
  /\ exists sent, outbox (ws b') = List.app (outbox (ws b)) sent /\ List.length sent <= 2.
Proof.
  unfold bot_task_kill. unfold bind at 1.
  destruct (send_and_wait_prompt "kill rat" (io_timeout_s cfg) b) as [r1 b1] eqn:Hkill.
  destruct (send_and_wait_prompt_cases _ _ _ _ _ Hkill) as (Hst1 & _ & _ & Hres1).
  destruct Hres1 as [(-> & Hp1 & Hout1 & Hin1) | (-> & _ & Hout1)].
  - unfold bind at 1. unfold modify at 1. unfold bind at 1. unfold get at 1.
    set (b2 := set_stats (add_kill (stats b1)) b1).
    assert (Hk2 : kills (stats b2) = (kills (stats b) + 1)%Z) by (cbn; now rewrite Hst1).
    assert (Hg2 : gets (stats b2) = gets (stats b)) by (cbn; now rewrite Hst1).
    assert (Hm2 : moves_done (stats b2) = moves_done (stats b)) by (cbn; now rewrite Hst1).
    destruct (get_lantern cfg && (get_every cfg >? 0)%Z
              && (kills (stats b2) mod get_every cfg =? 0)%Z) eqn:Hdue.
    + apply andb_true_iff in Hdue as [Hdue Hmod].
      apply andb_true_iff in Hdue as [_ Hpos].
      apply Z.gtb_lt in Hpos. apply Z.eqb_eq in Hmod.
      unfold bind at 1.
      destruct (send_and_wait_prompt "get lantern" (io_timeout_s cfg) b2) as [r3 b3] eqn:Hget.
      destruct (send_and_wait_prompt_cases _ _ _ _ _ Hget) as (Hst3 & _ & _ & Hres3).
      assert (Hout2 : outbox (ws b2) = outbox (ws b1)) by reflexivity.
      assert (Hin2 : inbox (ws b2) = inbox (ws b1)) by reflexivity.
      assert (Hsent : forall b4, outbox (ws b4) = outbox (ws b2)
                                 \/ outbox (ws b4)
                                    = List.app (outbox (ws b2)) [wire "get lantern"] ->
                exists sent, outbox (ws b4) = List.app (outbox (ws b)) sent
                             /\ List.length sent <= 2).
      { intros b4 [Ho | Ho]; rewrite Ho, Hout2, Hout1.
        - exists [wire "kill rat"]. split; [reflexivity | cbn; lia].
        - exists [wire "kill rat"; wire "get lantern"].
          split; [now rewrite <- app_assoc | cbn; lia]. }
      destruct Hres3 as [(-> & Hp3 & Hout3 & Hin3) | (-> & _ & Hout3)];
        intros [= <- <-].
      * unfold counters_grow, loot_bound. cbn [set_stats stats add_get kills gets moves_done ws ps].
        rewrite Hst3, Hk2, Hg2, Hm2.
        split; [lia|]. split.
        -- rewrite Hk2 in Hmod. intros [Hg0 Hb]. split; [lia|].
           pose proof (Z.div_mod (kills (stats b) + 1) (get_every cfg) ltac:(lia)) as Hdiv.
           rewrite Hmod in Hdiv.
           set (q := ((kills (stats b) + 1) / get_every cfg)%Z) in *.
           assert (Hq : (gets (stats b) < q)%Z).
           { apply (Z.mul_lt_mono_pos_r (get_every cfg)); lia. }
           apply Z.le_trans with (q * get_every cfg)%Z; [|lia].
           apply Z.mul_le_mono_nonneg_r; lia.
        -- split; [left; repeat split; [assumption | rewrite Hin2 in Hin3; lia]|].
           apply (Hsent b3). now right.
      * unfold counters_grow, loot_bound. rewrite Hst3, Hk2, Hg2, Hm2.
        split; [lia|]. split; [intros [Hg0 Hb]; split; [lia|]; lia|].
        split; [now right|]. apply (Hsent b3).
        destruct Hout3 as [(Ho & _) | Ho]; [now left | now right].
    + intros [= <- <-]. unfold counters_grow, loot_bound. rewrite Hk2, Hg2, Hm2.
      split; [lia|]. split; [intros [Hg0 Hb]; split; [lia|]; lia|].
      split; [left; repeat split; assumption|].
      exists [wire "kill rat"]. split; [exact Hout1 | cbn; lia].
  - intros [= <- <-].
    split; [now apply counters_grow_refl|].
    split; [now apply loot_bound_same|]. split; [now right|].
    destruct Hout1 as [(Ho & _) | Ho].
    + exists []. split; [now rewrite app_nil_r | cbn; lia].
    + exists [wire "kill rat"]. split; [assumption | cbn; lia].
Qed.

Lemma with_rng_run {A} (m : Rand A) (b : Bot) :
  with_rng m b = (fst (m (rng b)), set_rng (snd (m (rng b))) b).
Proof. unfold with_rng. now destruct (m (rng b)). Qed.

Lemma randint_cases (lo hi : Z) (g : Rng) :
  ((hi < lo)%Z /\ randint lo hi g = (Raise ValueError, g))
  \/ ((lo <= hi)%Z /\ exists k, randint lo hi g = (Return k, fun i => g (S i))
                               /\ (lo <= k <= hi)%Z).
Proof.
  unfold randint. destruct (hi <? lo)%Z eqn:Hord.
  - left. apply Z.ltb_lt in Hord. now split.
  - right. apply Z.ltb_ge in Hord. split; [assumption|].
    eexists. split; [reflexivity|].
    pose proof (Z.mod_pos_bound (g O) (hi - lo + 1) ltac:(lia)). lia.
Qed.

(** One turn of the loop, whatever the draws and the server. *)
Lemma bot_task_turn_cases (cfg : SwarmConfig) (b : Bot) (r : Outcome unit) (b' : Bot) :
  bot_task_turn cfg b = (r, b') ->
  counters_grow b b'
  /\ (loot_bound cfg b -> loot_bound cfg b')
  /\ turn_outcome r
  /\ (r = Return tt ->
      at_prompt (ps b') = true
      /\ List.length (inbox (ws b')) < List.length (inbox (ws b)))
  /\ (exists sent, outbox (ws b') = List.app (outbox (ws b)) sent /\ List.length sent <= 2)
  /\ ((think_max_ms cfg < think_min_ms cfg)%Z ->
      r = Raise ValueError /\ ws b' = ws b /\ stats b' = stats b).
Proof.
  unfold bot_task_turn. unfold bind at 1. rewrite with_rng_run.
  assert (Hnothing : forall b0, ws b0 = ws b -> stats b0 = stats b ->
            counters_grow b b0 /\ (loot_bound cfg b -> loot_bound cfg b0)
            /\ exists sent, outbox (ws b0) = List.app (outbox (ws b)) sent
                            /\ List.length sent <= 2).
  { intros b0 Hws Hst. split; [now apply counters_grow_refl|].
    split; [now apply loot_bound_same|].
    exists []. rewrite Hws, app_nil_r. split; [reflexivity | cbn; lia]. }
  destruct (randint_cases (think_min_ms cfg) (think_max_ms cfg) (rng b))
    as [(Hord & ->) | (Hord & k & -> & _)]; cbn [fst snd].
  { intros [= <- <-].
    destruct (Hnothing (set_rng (rng b) b) eq_refl eq_refl) as (H1 & H2 & H3).
    split; [assumption|]. split; [assumption|].
    split; [right; right; now left|]. split; [discriminate|]. split; [assumption|].
    intros _. repeat split. }
  unfold bind at 1. unfold sleep at 1, modify at 1. unfold bind at 1. rewrite with_rng_run.
  set (b1 := set_ws _ _).
  destruct (choose_action_returns cfg (rng b1)) as (action & ->). cbn [fst snd].
  set (b2 := set_rng _ b1).
  assert (Hws2 : outbox (ws b2) = outbox (ws b) /\ inbox (ws b2) = inbox (ws b)
                 /\ stats b2 = stats b) by (repeat split).
  destruct Hws2 as (Hout2 & Hin2 & Hst2).
  assert (Hlift : forall r3 b3,
            counters_grow b2 b3 ->
            (loot_bound cfg b2 -> loot_bound cfg b3) ->
            turn_outcome r3 ->
            (r3 = Return tt -> at_prompt (ps b3) = true
                               /\ List.length (inbox (ws b3)) < List.length (inbox (ws b2))) ->
            (exists sent, outbox (ws b3) = List.app (outbox (ws b2)) sent
                          /\ List.length sent <= 2) ->
            counters_grow b b3 /\ (loot_bound cfg b -> loot_bound cfg b3)
            /\ turn_outcome r3
            /\ (r3 = Return tt -> at_prompt (ps b3) = true
                /\ List.length (inbox (ws b3)) < List.length (inbox (ws b)))
            /\ (exists sent, outbox (ws b3) = List.app (outbox (ws b)) sent
                             /\ List.length sent <= 2)
            /\ ((think_max_ms cfg < think_min_ms cfg)%Z ->
                r3 = Raise ValueError /\ ws b3 = ws b /\ stats b3 = stats b)).
  { intros r3 b3 Hc Hl Ho Hr Hs.
    split; [apply counters_grow_trans with b2; [now apply counters_grow_refl | assumption]|].
    split; [intros Hb; apply Hl; now apply (loot_bound_same cfg b b2)|].
    split; [assumption|]. split; [now rewrite <- Hin2|]. split; [now rewrite <- Hout2|].
    intros Habs. lia. }
  destruct (action =? "look").
  - intros Hrun.
    destruct (send_and_wait_prompt_cases _ _ _ _ _ Hrun) as (Hst & _ & _ & Hres).
    apply Hlift.
    + now apply counters_grow_refl.
    + now apply loot_bound_same.
    + destruct Hres as [(-> & _) | (-> & _)]; [now left | right; now left].
    + intros ->. destruct Hres as [(_ & Hp & _ & Hlen) | (Habs & _)];
        [now split | discriminate Habs].
    + destruct Hres as [(_ & _ & Ho & _) | (_ & _ & [(Ho & _) | Ho])].
      * exists [wire "look"]. split; [assumption | cbn; lia].
      * exists []. split; [now rewrite app_nil_r | cbn; lia].
      * exists [wire "look"]. split; [assumption | cbn; lia].
  - destruct (action =? "move").
    + unfold bind at 1. unfold get at 1. unfold bind at 1. rewrite with_rng_run.
      destruct (list_eq_dec string_dec (moves cfg) []) as [Hempty | Hne].
      * rewrite (choose_move_empty cfg _ _ Hempty). cbn [fst snd]. intros [= <- <-].
        apply Hlift.
        -- now apply counters_grow_refl.
        -- now apply loot_bound_same.
        -- right; right; now right.
        -- discriminate.
        -- exists []. split; [now rewrite app_nil_r | cbn; lia].
      * destruct (choose_move_returns cfg (last_move b2) (rng b2) Hne) as (mv & -> & _).
        cbn [fst snd]. set (b3 := set_rng _ b2).
        unfold bind at 1.
        destruct (send_and_wait_prompt mv (io_timeout_s cfg) b3) as [r4 b4] eqn:Hsend.
        destruct (send_and_wait_prompt_cases _ _ _ _ _ Hsend) as (Hst & _ & _ & Hres).
        assert (Hst3 : stats b4 = stats b2) by exact Hst.
        destruct Hres as [(-> & Hp & Ho & Hlen) | (-> & _ & Ho)].
        -- unfold bind, modify. intros [= <- <-]. apply Hlift.
           ++ unfold counters_grow.
              cbn [set_last_move set_stats stats add_move kills moves_done gets].
              rewrite Hst3. lia.
           ++ unfold loot_bound.
              cbn [set_last_move set_stats stats add_move kills moves_done gets].
              now rewrite Hst3.
           ++ now left.
           ++ intros _. split; [exact Hp | exact Hlen].
           ++ exists [wire mv]. split; [exact Ho | cbn; lia].
        -- intros [= <- <-]. apply Hlift.
           ++ now apply counters_grow_refl.
           ++ now apply loot_bound_same.
           ++ right; now left.
           ++ discriminate.
           ++ destruct Ho as [(Ho & _) | Ho].
              ** exists []. split; [now rewrite app_nil_r | cbn; lia].
              ** exists [wire mv]. split; [exact Ho | cbn; lia].
    + intros Hrun.
      destruct (bot_task_kill_cases _ _ _ _ Hrun) as (Hc & Hl & Hres & Hs).
      apply Hlift; try assumption.
      * destruct Hres as [(-> & _) | ->]; [now left | right; now left].
      * intros ->. destruct Hres as [(_ & Hp & Hlen) | Habs];
          [now split | discriminate Habs].
Qed.

(** X10. A turn of the action loop never lowers a counter and keeps the
    gets within the full intervals of kills; it sends two frames at most; it
    returns only in a ready state and after taking a frame; else it raises
    the timeout, or [IndexError] for an empty movement set, or [ValueError]
    when the think time bounds are in the wrong order, which the command
    line does not rule out: then nothing is sent or counted. *)
Theorem bot_task_turn_invariants :
  forall cfg b r b',
    bot_task_turn cfg b = (r, b') ->
    counters_grow b b'
    /\ (loot_bound cfg b -> loot_bound cfg b')
    /\ turn_outcome r
    /\ (r = Return tt ->
        at_prompt (ps b') = true
        /\ List.length (inbox (ws b')) < List.length (inbox (ws b)))
    /\ (exists sent, outbox (ws b') = List.app (outbox (ws b)) sent /\ List.length sent <= 2)
    /\ ((think_max_ms cfg < think_min_ms cfg)%Z ->
        r = Raise ValueError /\ ws b' = ws b /\ stats b' = stats b).
Proof. exact bot_task_turn_cases. Qed.

(** Think time from 900 to 250 ms: the turn ends before it begins. *)
Lemma bot_task_turn_invariants_witness :
  let (r, b') := bot_task_turn (config_think 900 250) (bot_after_kills 5) in
  r = Raise ValueError /\ outbox (ws b') = [] /\ stats b' = stats (bot_after_kills 5).
Proof.
  destruct (bot_task_turn (config_think 900 250) (bot_after_kills 5)) as [r b'] eqn:Hrun.
  destruct (bot_task_turn_invariants _ _ _ _ Hrun) as (_ & _ & _ & _ & _ & Hthink).
  destruct (Hthink ltac:(cbn; lia)) as (-> & Hws & Hst).
  rewrite Hws, Hst. repeat split.
Defined.

(** The action loop, for any supply of frames. *)
Lemma bot_task_loop_cases (cfg : SwarmConfig) (stop_at : Z) (fuel : nat) :
  forall b r b',
    List.length (inbox (ws b)) < fuel ->
    bot_task_loop fuel cfg stop_at b = (r, b') ->
    turn_outcome r
    /\ counters_grow b b'
    /\ (loot_bound cfg b -> loot_bound cfg b')
    /\ (r = Return tt -> (stop_at <= clock (ws b'))%Z)
    /\ exists sent, outbox (ws b') = List.app (outbox (ws b)) sent.
Proof.
  induction fuel as [|fuel IH]; intros b r b' Hfuel; [lia|].
  cbn [bot_task_loop]. eff_step.
  destruct (clock (ws b) <? stop_at)%Z eqn:Hnow.
  - destruct (bot_task_turn cfg b) as [r1 b1] eqn:Hturn.
    destruct (bot_task_turn_cases _ _ _ _ Hturn) as (Hc & Hl & Ho & Hr & (s1 & Hs1 & _) & _).
    destruct r1 as [[]|e|].
    + destruct (Hr eq_refl) as (_ & Hlen). intros Hrun.
      destruct (IH b1 r b' ltac:(lia) Hrun) as (Ho' & Hc' & Hl' & Hd' & (s2 & Hs2)).
      split; [assumption|].
      split; [now apply counters_grow_trans with b1|].
      split; [auto|]. split; [assumption|].
      exists (s1 ++ s2)%list. now rewrite Hs2, Hs1, app_assoc.
    + intros [= <- <-].
      split; [assumption|]. split; [assumption|]. split; [assumption|].
      split; [discriminate|]. now exists s1.
    + destruct Ho as [Ho | [Ho | [Ho | Ho]]]; discriminate Ho.
  - apply Z.ltb_ge in Hnow. intros [= <- <-].
    split; [now left|]. split; [now apply counters_grow_refl|]. split; [auto|].
    split; [intros _; assumption|].
    exists []. now rewrite app_nil_r.
Qed.

Lemma bot_task_credentials_returns (bot_id : Z) (g : Rng) :
  exists creds, bot_task_credentials bot_id g = (Return creds, fun i => g (10 + i)).
Proof.
  destruct (rand_suffix_spec 4 g) as (s4 & Hs4 & _).
  destruct (rand_suffix_spec 6 (fun i => g (4 + i))) as (s6 & Hs6 & _).
  eexists. unfold bot_task_credentials. unfold bind at 1. rewrite Hs4.
  unfold bind at 1. rewrite Hs6. reflexivity.
Qed.

(** [bot_task] on an open connection, whatever the draws and the server. *)
Lemma bot_task_cases (bot_id : Z) (cfg : SwarmConfig) (stop_at : Z) (b : Bot)
    (r : Outcome unit) (b' : Bot) :
  bot_task bot_id cfg stop_at b = (r, b') ->
  turn_outcome r
  /\ counters_grow b b'
  /\ (loot_bound cfg b -> loot_bound cfg b')
  /\ (r = Return tt -> (stop_at <= clock (ws b'))%Z)
  /\ exists creds sent,
       fst (bot_task_credentials bot_id (rng b)) = Return creds
       /\ outbox (ws b') = List.app (outbox (ws b)) sent
       /\ ((exists later,
              sent = List.app [wire (fst creds); wire "yes"; wire (snd creds)] later)
           \/ (r = Raise TimeoutError
               /\ exists rest,
                    [wire (fst creds); wire "yes"; wire (snd creds)] = List.app sent rest)).
Proof.
  unfold bot_task. unfold bind at 1. rewrite with_rng_run.
  destruct (bot_task_credentials_returns bot_id (rng b)) as ([name password] & Hcreds).
  rewrite Hcreds. cbn [fst snd].
  unfold bind at 1, modify at 1. unfold bind at 1, modify at 1.
  set (b0 := set_last_move None _).
  assert (Hb0 : outbox (ws b0) = outbox (ws b) /\ stats b0 = stats b) by (split; reflexivity).
  destruct Hb0 as (Hout0 & Hst0).
  unfold bind at 1.
  destruct (login_new_user name password (io_timeout_s cfg) b0) as [r1 b1] eqn:Hlogin.
  destruct (login_new_user_sends name password (io_timeout_s cfg) b0 r1 b1 Hlogin)
    as (Hst1 & Hres1).
  destruct Hres1 as [(-> & Hout1) | (-> & sent & rest & Hcut & Hout1)].
  - unfold bind at 1, get at 1. intros Hloop.
    destruct (bot_task_loop_cases cfg stop_at (S (List.length (inbox (ws b1)))) b1 r b'
                (Nat.lt_succ_diag_r _) Hloop)
      as (Ho & Hc & Hl & Hd & (later & Hlater)).
    split; [assumption|].
    split; [apply counters_grow_trans with b1; [apply counters_grow_refl; congruence
                                               | assumption]|].
    split; [intros Hb; apply Hl; apply (loot_bound_same cfg b b1); [congruence | assumption]|].
    split; [assumption|].
    exists (name, password), ([wire name; wire "yes"; wire password] ++ later)%list.
    cbn [fst snd]. split; [reflexivity|].
    split; [now rewrite Hlater, Hout1, Hout0, <- app_assoc|].
    left. now exists later.
  - intros [= <- <-].
    split; [right; now left|].
    split; [apply counters_grow_refl; congruence|].
    split; [apply loot_bound_same; congruence|].
    split; [discriminate|].
    exists (name, password), sent. cbn [fst snd]. split; [reflexivity|].
    split; [now rewrite Hout1, Hout0|].
    right. split; [reflexivity|]. now exists rest.
Qed.

(** X11. The action loop ends on every supply of frames: it returns once
    the clock has reached the stop time, or a turn raises.  Across the loop
    no counter goes down and the gets stay within the full intervals of
    kills.  A bot whose stop time has passed does nothing. *)
Theorem bot_task_loop_ends :
  forall cfg stop_at b r b',
    bot_task_loop (S (List.length (inbox (ws b)))) cfg stop_at b = (r, b') ->
    turn_outcome r
    /\ counters_grow b b'
    /\ (loot_bound cfg b -> loot_bound cfg b')
    /\ (r = Return tt -> (stop_at <= clock (ws b'))%Z)
    /\ ((stop_at <= clock (ws b))%Z -> r = Return tt /\ b' = b).
Proof.
  intros cfg stop_at b r b' Hrun.
  destruct (bot_task_loop_cases cfg stop_at _ b r b' (Nat.lt_succ_diag_r _) Hrun)
    as (Ho & Hc & Hl & Hd & _).
  repeat (split; [assumption|]).
  intros Hpast. revert Hrun. cbn [bot_task_loop]. eff_step.
  replace (clock (ws b) <? stop_at)%Z with false by lia.
  now intros [= <- <-].
Qed.

(** A ready bot with two frames to come and an hour to go: the loop ends,
    by a timeout, and the counters are in order. *)
Lemma bot_task_loop_ends_witness :
  let b := bot_after_kills 5 in
  let (r, b') := bot_task_loop (S (List.length (inbox (ws b)))) (config_think 0 0) 100000 b in
  turn_outcome r /\ counters_grow b b' /\ loot_bound (config_think 0 0) b'.
Proof.
  intros b.
  destruct (bot_task_loop (S (List.length (inbox (ws b)))) (config_think 0 0) 100000 b)
    as [r b'] eqn:Hrun.
  destruct (bot_task_loop_ends _ _ _ _ _ Hrun) as (Ho & Hc & Hl & _).
  split; [assumption|]. split; [assumption|].
  apply Hl. unfold loot_bound, b. cbn. lia.
Defined.

(** X12. A bot on an open connection always ends.  What it sends begins
    with its name, [yes] and its password, or is a front part of these
    three when the login times out; its counters never go down, the gets
    stay within the full intervals of kills, and it returns only once its
    stop time has come. *)
Theorem bot_task_ends :
  forall bot_id cfg stop_at b r b',
    bot_task bot_id cfg stop_at b = (r, b') ->
    turn_outcome r
    /\ counters_grow b b'
    /\ (loot_bound cfg b -> loot_bound cfg b')
    /\ (r = Return tt -> (stop_at <= clock (ws b'))%Z)
    /\ exists creds sent,
         fst (bot_task_credentials bot_id (rng b)) = Return creds
         /\ outbox (ws b') = List.app (outbox (ws b)) sent
         /\ ((exists later,
                sent = List.app [wire (fst creds); wire "yes"; wire (snd creds)] later)
             \/ (r = Raise TimeoutError
                 /\ exists rest,
                      [wire (fst creds); wire "yes"; wire (snd creds)]
                      = List.app sent rest)).
Proof. exact bot_task_cases. Qed.

(** Bot 7, every draw zero, on a server that plays along for the login and
    three moves, then falls silent. *)
Lemma bot_task_ends_witness :
  let b := bot_on true session_frames in
  let (r, b') := bot_task 7 (config_think 0 0) 100000 b in
  r = Raise TimeoutError
  /\ firstn 3 (outbox (ws b')) = [wire "Bot0007_aaaa"; wire "yes"; wire "Pw0007_aaaaaa"]
  /\ List.length (outbox (ws b')) = 7
  /\ stats b' = {| kills := 0; moves_done := 3; gets := 0 |}.
Proof.
  intros b.
  destruct (bot_task 7 (config_think 0 0) 100000 b) as [r b'] eqn:Hrun.
  destruct (bot_task_ends _ _ _ _ _ _ Hrun) as (_ & _).
  vm_compute in Hrun. injection Hrun as <- <-. repeat split.
Defined.

(** *** The command line *)

Lemma max_Q_nonneg (x : Q) : (0 <= max_Q 0 x)%Q.
Proof.
  unfold max_Q. destruct (Qle_bool x 0) eqn:Hx; [apply Qle_refl|].
  apply Qlt_le_weak, Qnot_le_lt. intros Hle. apply Qle_bool_iff in Hle. congruence.
Qed.

Lemma max_Q_kept (x : Q) : (0 < x)%Q -> max_Q 0 x = x.
Proof.
  intros Hx. unfold max_Q. destruct (Qle_bool x 0) eqn:Hle; [|reflexivity].
  apply Qle_bool_iff in Hle. lra.
Qed.

(** X13. Whatever the options given, the configuration from [parse_args]
    has no negative weight, a loot interval of one kill at least, think
    times that are not negative and a timeout of two seconds at least; an
    option already in range is kept.  The think time bounds are not put in
    order, and the weights may all be zero. *)
Theorem parse_args_clamps :
  forall a,
    let cfg := parse_args a in
    nonneg_weights cfg
    /\ (1 <= get_every cfg)%Z
    /\ (0 <= think_min_ms cfg)%Z /\ (0 <= think_max_ms cfg)%Z
    /\ (2000 <= io_timeout_s cfg)%Z
    /\ ((0 < a_move_weight a)%Q -> move_weight cfg = a_move_weight a)
    /\ ((0 < a_kill_weight a)%Q -> kill_weight cfg = a_kill_weight a)
    /\ ((0 < a_look_weight a)%Q -> look_weight cfg = a_look_weight a)
    /\ ((1 <= a_get_every a)%Z -> get_every cfg = a_get_every a)
    /\ ((0 <= a_think_min_ms a)%Z -> (0 <= a_think_max_ms a)%Z ->
        think_min_ms cfg = a_think_min_ms a /\ think_max_ms cfg = a_think_max_ms a).
Proof.
  intros a cfg. unfold cfg, parse_args, nonneg_weights. cbn.
  repeat split; try apply max_Q_nonneg; try lia; try (now apply max_Q_kept).
Qed.

(** Think time from 900 to 250 ms and a negative loot interval: the
    interval becomes one kill, the think times stay as given. *)
Lemma parse_args_clamps_witness :
  let a := {| a_move_weight := 1; a_kill_weight := 5 # 2; a_look_weight := 2 # 5;
              a_moves := ["north"]; a_avoid_immediate_backtrack := false;
              a_get_lantern := true; a_get_every := -3;
              a_think_min_ms := 900; a_think_max_ms := 250;
              a_io_timeout_s := 30000 |} in
  get_every (parse_args a) = 1%Z
  /\ think_min_ms (parse_args a) = 900%Z /\ think_max_ms (parse_args a) = 250%Z
  /\ kill_weight (parse_args a) = (5 # 2)%Q.
Proof.
  intros a.
  destruct (parse_args_clamps a) as (_ & _ & _ & _ & _ & _ & Hkill & _ & _ & Hthink).
  split; [reflexivity|].
  destruct (Hthink ltac:(cbn; lia) ltac:(cbn; lia)) as (Hmin & Hmax).
  split; [exact Hmin|]. split; [exact Hmax|]. apply Hkill. reflexivity.
Defined.

(** ** Further properties of the area converter *)

(** *** Stripping *)

Lemma lstrip_by_cut (q : ascii -> bool) (s : string) :
  exists d, s = d ++ lstrip_by q s /\ all_chars q d = true.
Proof.
  induction s as [|c s (d & Hs & Hd)]; cbn.
  - now exists EmptyString.
  - destruct (q c) eqn:Hc.
    + exists (String c d). cbn. rewrite Hc, Hd. split; [now f_equal | reflexivity].
    + now exists EmptyString.
Qed.

Lemma lstrip_by_head (q : ascii -> bool) (s : string) (c : ascii) (t : string) :
  lstrip_by q s = String c t -> q c = false.
Proof.
  induction s as [|a s IH]; cbn; [discriminate|].
  destruct (q a) eqn:Ha; [exact IH|]. now intros [= <- _].
Qed.

Lemma lstrip_by_fixed (q : ascii -> bool) (c : ascii) (t : string) :
  q c = false -> lstrip_by q (String c t) = String c t.
Proof. intros Hc. cbn. now rewrite Hc. Qed.

Lemma rev_string_append (a b : string) :
  rev_string (a ++ b) = rev_string b ++ rev_string a.
Proof.
  unfold rev_string.
  now rewrite list_ascii_of_string_append, rev_app_distr, string_of_list_ascii_app.
Qed.

Lemma all_chars_rev (p : ascii -> bool) (s : string) :
  all_chars p (rev_string s) = all_chars p s.
Proof.
  induction s as [|c s IH]; [reflexivity|].
  rewrite rev_string_cons, all_chars_append, IH. cbn.
  now rewrite andb_true_r, andb_comm.
Qed.

Lemma rstrip_by_cut (q : ascii -> bool) (s : string) :
  exists d, s = rstrip_by q s ++ d /\ all_chars q d = true.
Proof.
  destruct (lstrip_by_cut q (rev_string s)) as (d & Hs & Hd).
  exists (rev_string d). split; [|now rewrite all_chars_rev].
  unfold rstrip_by. rewrite <- rev_string_append, <- Hs. now rewrite rev_string_involutive.
Qed.

Lemma rstrip_by_last (q : ascii -> bool) (s x : string) (c : ascii) :
  rstrip_by q s = x ++ String c EmptyString -> q c = false.
Proof.
  unfold rstrip_by. intros H. apply (f_equal rev_string) in H.
  rewrite rev_string_involutive, rev_string_snoc in H. now apply lstrip_by_head in H.
Qed.

Lemma strip_by_head (q : ascii -> bool) (s : string) (c : ascii) (t : string) :
  strip_by q s = String c t -> q c = false.
Proof.
  unfold strip_by. intros H.
  destruct (rstrip_by_cut q (lstrip_by q s)) as (d & Hcut & _).
  rewrite H in Hcut. cbn in Hcut. now apply lstrip_by_head in Hcut.
Qed.

Lemma strip_by_all_chars (p q : ascii -> bool) (s : string) :
  all_chars p s = true -> all_chars p (strip_by q s) = true.
Proof.
  intros Hs. unfold strip_by.
  destruct (lstrip_by_cut q s) as (d1 & H1 & _).
  destruct (rstrip_by_cut q (lstrip_by q s)) as (d2 & H2 & _).
  rewrite H1, all_chars_append in Hs. apply andb_true_iff in Hs as [_ Hs].
  rewrite H2, all_chars_append in Hs. now apply andb_true_iff in Hs as [Hs _].
Qed.

Lemma string_last_split (s : string) :
  s <> EmptyString -> exists x c, s = x ++ String c EmptyString.
Proof.
  induction s as [|a s IH]; [congruence|]. intros _.
  destruct s as [|b s].
  - now exists EmptyString, a.
  - destruct (IH ltac:(discriminate)) as (x & c & Hs).
    exists (String a x), c. cbn. now rewrite <- Hs.
Qed.

(** *** Slugs *)

Lemma sub_non_alnum_chars (in_run : bool) (s : string) :
  all_chars slug_char (sub_non_alnum in_run s) = true.
Proof.
  revert in_run. induction s as [|c s IH]; intros in_run; cbn; [reflexivity|].
  destruct (is_az c || is_09 c) eqn:Hc.
  - cbn. unfold slug_char at 1. now rewrite Hc, IH.
  - destruct in_run; [apply IH|]. cbn. now rewrite IH.
Qed.

Lemma alnum_not_underscore (c : ascii) : is_az c || is_09 c = true -> underscore c = false.
Proof.
  destruct c as [[|] [|] [|] [|] [|] [|] [|] [|]]; vm_compute; congruence.
Qed.

Lemma sub_non_alnum_single (in_run : bool) (s : string) :
  single_underscores in_run (sub_non_alnum in_run s) = true.
Proof.
  revert in_run. induction s as [|c s IH]; intros in_run; cbn; [reflexivity|].
  destruct (is_az c || is_09 c) eqn:Hc.
  - cbn. now rewrite (alnum_not_underscore c Hc), IH.
  - destruct in_run; [apply IH|]. cbn. now rewrite IH.
Qed.

Lemma single_underscores_weaken (s : string) :
  single_underscores true s = true -> single_underscores false s = true.
Proof.
  destruct s as [|c s]; cbn; [reflexivity|].
  destruct (underscore c); [discriminate | trivial].
Qed.

Lemma single_underscores_prefix (after : bool) (a b : string) :
  single_underscores after (a ++ b) = true -> single_underscores after a = true.
Proof.
  revert after. induction a as [|c a IH]; intros after; cbn; [reflexivity|].
  destruct (underscore c).
  - intros H. apply andb_true_iff in H as [H1 H2]. rewrite H1. cbn. now apply IH.
  - apply IH.
Qed.

Lemma single_underscores_lstrip (after : bool) (s : string) :
  single_underscores after s = true ->
  single_underscores false (lstrip_by underscore s) = true.
Proof.
  revert after. induction s as [|c s IH]; intros after; cbn; [reflexivity|].
  destruct (underscore c) eqn:Hc.
  - intros H. apply andb_true_iff in H as [_ H]. now apply (IH true).
  - intros H. cbn. now rewrite Hc.
Qed.

(** What [slug] returns, before and after the fall back to [zone]. *)
Lemma slug_shape (text : string) :
  slug text <> EmptyString
  /\ all_chars slug_char (slug text) = true
  /\ single_underscores false (slug text) = true
  /\ (forall x, slug text <> String "_" x)
  /\ (forall x, slug text <> x ++ "_").
Proof.
  unfold slug.
  set (body := strip_by _ (sub_non_alnum false (lower text))).
  assert (Hchars : all_chars slug_char body = true)
    by (apply strip_by_all_chars, sub_non_alnum_chars).
  assert (Hsingle : single_underscores false body = true).
  { unfold body, strip_by.
    destruct (rstrip_by_cut (fun c => (c =? "_")%char)
                (lstrip_by (fun c => (c =? "_")%char) (sub_non_alnum false (lower text))))
      as (d & Hcut & _).
    apply (single_underscores_prefix false _ d). rewrite <- Hcut.
    apply (single_underscores_lstrip false), sub_non_alnum_single. }
  destruct body as [|c t] eqn:Hbody.
  - cbn. repeat split; try discriminate.
    intros x Hx. change "zone" with ("zon" ++ "e") in Hx.
    now apply last_char_eq in Hx.
  - cbn [or_else truthy]. split; [discriminate|]. split; [assumption|].
    split; [assumption|]. split.
    + intros x [= -> _]. apply strip_by_head in Hbody. discriminate Hbody.
    + intros x Hx. unfold body, strip_by in Hbody. rewrite Hx in Hbody.
      apply rstrip_by_last in Hbody. discriminate Hbody.
Qed.

(** X14. A slug is never empty, holds only lowercase letters, digits and
    single underscores, and neither begins nor ends with an underscore:
    whatever the file name, the output name is a plain one. *)
Theorem slug_is_plain :
  forall text,
    slug text <> EmptyString
    /\ all_chars slug_char (slug text) = true
    /\ single_underscores false (slug text) = true
    /\ (forall x, slug text <> String "_" x)
    /\ (forall x, slug text <> x ++ "_").
Proof. exact slug_shape. Qed.

Lemma slug_char_lower (c : ascii) : slug_char c = true -> lower_char c = c.
Proof.
  destruct c as [[|] [|] [|] [|] [|] [|] [|] [|]]; vm_compute; congruence.
Qed.

Lemma lower_fixed (s : string) : all_chars slug_char s = true -> lower s = s.
Proof.
  induction s as [|c s IH]; cbn; [reflexivity|].
  intros H. apply andb_true_iff in H as [Hc Hs].
  now rewrite (slug_char_lower c Hc), IH.
Qed.

Lemma slug_char_cases (c : ascii) :
  slug_char c = true ->
  (is_az c || is_09 c = true /\ underscore c = false)
  \/ (is_az c || is_09 c = false /\ underscore c = true).
Proof.
  destruct c as [[|] [|] [|] [|] [|] [|] [|] [|]]; vm_compute; intuition congruence.
Qed.

Lemma sub_non_alnum_fixed (s : string) :
  forall in_run,
    all_chars slug_char s = true ->
    single_underscores in_run s = true ->
    sub_non_alnum in_run s = s.
Proof.
  induction s as [|c s IH]; intros in_run; cbn; [reflexivity|].
  intros H. apply andb_true_iff in H as [Hc Hs].
  destruct (slug_char_cases c Hc) as [(Ha & Hu) | (Ha & Hu)]; rewrite Ha, Hu.
  - intros H. now rewrite IH.
  - intros H. apply andb_true_iff in H as [Hr H].
    destruct in_run; [discriminate Hr|]. apply Ascii.eqb_eq in Hu. subst c.
    now rewrite IH.
Qed.

(** X15. [slug] is idempotent: the slug of a slug is the slug itself. *)
Theorem slug_idempotent : forall text, slug (slug text) = slug text.
Proof.
  intros text.
  destruct (slug_shape text) as (Hne & Hchars & Hsingle & Hhead & Hlast).
  set (s := slug text) in *. unfold slug at 1.
  rewrite (lower_fixed s Hchars), (sub_non_alnum_fixed s false Hchars Hsingle).
  assert (Hstrip : strip_by (fun c => (c =? "_")%char) s = s).
  { destruct (string_last_split s Hne) as (x & c & Hs).
    assert (Hc : (c =? "_")%char = false).
    { destruct (Ascii.eqb_spec c "_") as [-> | _]; [|reflexivity].
      now destruct (Hlast x). }
    unfold strip_by.
    assert (Hl : lstrip_by (fun c => (c =? "_")%char) s = s).
    { destruct s as [|a t]; [reflexivity|]. apply lstrip_by_fixed.
      destruct (Ascii.eqb_spec a "_") as [-> | _]; [|reflexivity].
      now destruct (Hhead t). }
    rewrite Hl, Hs. now apply rstrip_by_snoc. }
  rewrite Hstrip. unfold or_else. destruct s; [congruence | reflexivity].
Qed.

(** *** Quoting *)

Lemma append_assoc (a b c : string) : (a ++ b) ++ c = a ++ (b ++ c).
Proof. induction a as [|x a IH]; cbn; [reflexivity | now rewrite IH]. Qed.

Lemma read_body_escaped (s rest : string) :
  read_body
    (replace DQUOTE (String "\" (String DQUOTE EmptyString)) (replace "\" "\\" s)
     ++ String DQUOTE rest)
  = Some (s, rest).
Proof.
  induction s as [|a s IH]; [reflexivity|].
  cbn [replace].
  destruct (Ascii.eqb_spec a "\") as [-> | Hbs].
  - cbn. cbn in IH. now rewrite IH.
  - cbn [replace]. destruct (Ascii.eqb_spec a DQUOTE) as [-> | Hdq].
    + cbn. cbn in IH. now rewrite IH.
    + cbn [append read_body].
      destruct (Ascii.eqb_spec a DQUOTE); [contradiction|].
      destruct (Ascii.eqb_spec a "\"); [contradiction|].
      now rewrite IH.
Qed.

Lemma read_quoted_quote (s rest : string) : read_quoted (quote s ++ rest) = Some (s, rest).
Proof.
  unfold quote. cbn [append read_quoted]. rewrite Ascii.eqb_refl, append_assoc.
  apply read_body_escaped.
Qed.

(** X16. [quote] can be read back: a reader of double-quoted scalars that
    knows the backslash escape finds in [quote s], whatever text follows
    it, the string [s] and that text.  So no string closes its own quotes
    early, and two strings never have the same quoted form. *)
Theorem quote_read_back :
  forall s rest, read_quoted (quote s ++ rest) = Some (s, rest).
Proof. exact read_quoted_quote. Qed.

(** *** File names *)

Lemma substring_prefix (x y : string) : substring 0 (String.length x) (x ++ y) = x.
Proof.
  induction x as [|a x IH]; cbn.
  - now destruct y.
  - now rewrite IH.
Qed.

Lemma substring_cut (s : string) :
  forall k, (k <= String.length s)%nat ->
    s = substring 0 k s ++ substring k (String.length s - k) s.
Proof.
  induction s as [|a s IH]; intros [|k] Hk; cbn in *; try reflexivity; try lia.
  - f_equal. clear IH Hk. induction s as [|b s IH]; cbn; [reflexivity | now f_equal].
  - rewrite <- IH by lia. reflexivity.
Qed.

Lemma endswith_cut (suffix s : string) :
  endswith suffix s = true -> exists x, s = x ++ suffix.
Proof.
  unfold endswith. intros H. apply andb_true_iff in H as [Hlen Heq].
  apply Nat.leb_le in Hlen. apply String.eqb_eq in Heq.
  exists (substring 0 (String.length s - String.length suffix) s).
  assert (Hk : (String.length s - String.length suffix <= String.length s)%nat) by lia.
  pose proof (substring_cut s _ Hk) as Hcut.
  replace (String.length s - (String.length s - String.length suffix))%nat
    with (String.length suffix) in Hcut by lia.
  now rewrite Heq in Hcut.
Qed.

Lemma rfind_are (x : string) : rfind "." (x ++ ".are") = Some (String.length x).
Proof.
  induction x as [|a x IH]; [reflexivity|].
  cbn [append rfind String.length]. now rewrite IH.
Qed.

Lemma stem_are (x : string) : x <> EmptyString -> stem (x ++ ".are") = x.
Proof.
  intros Hx. unfold stem. rewrite rfind_are, length_append.
  destruct x as [|a x]; [congruence|].
  replace ((0 <? String.length (String a x))%nat) with true
    by (symmetry; apply Nat.ltb_lt; cbn; lia).
  replace ((String.length (String a x) <? String.length (String a x) + String.length ".are" - 1)%nat)
    with true by (symmetry; apply Nat.ltb_lt; cbn; lia).
  cbn [andb]. apply substring_prefix.
Qed.

Lemma stem_found (name : string) :
  endswith ".are" name = true -> name <> ".are" -> stem name ++ ".are" = name.
Proof.
  intros Hare Hne. apply endswith_cut in Hare as [x ->].
  destruct x as [|a x]; [now destruct Hne|]. now rewrite stem_are.
Qed.

(** X17. The stem of a file that [main] takes gives its name back: for
    every name that ends in [.are], the bare [.are] apart, the stem
    followed by [.are] is the name. *)
Theorem stem_of_area_file :
  forall name,
    endswith ".are" name = true -> name <> ".are" -> stem name ++ ".are" = name.
Proof. exact stem_found. Qed.

Lemma stem_of_area_file_witness :
  endswith ".are" "midgaard.are" = true
  /\ "midgaard.are" <> ".are"
  /\ stem "midgaard.are" ++ ".are" = "midgaard.are".
Proof.
  split; [reflexivity|]. split; [discriminate|].
  apply (stem_of_area_file "midgaard.are"); [reflexivity | discriminate].
Defined.

(** *** The order of the files *)

Lemma key_le_total (a b : string) : key_le a b = false -> key_le b a = true.
Proof.
  unfold key_le.
  destruct (stem a =? "midgaard") eqn:Ha, (stem b =? "midgaard") eqn:Hb; cbn;
    try discriminate; try reflexivity.
  - destruct (String.leb_total (stem a) (stem b)) as [H | H]; [congruence | trivial].
  - destruct (String.leb_total (stem a) (stem b)) as [H | H]; [congruence | trivial].
Qed.

Section Sorting.

Variable A : Type.
Variable le : A -> A -> bool.
Hypothesis le_total : forall x y, le x y = false -> le y x = true.

Let R (x y : A) : Prop := le x y = true.

Lemma insert_sorted_perm (x : A) (l : list A) : Permutation (insert_sorted le x l) (x :: l).
Proof.
  induction l as [|y l IH]; cbn; [apply Permutation_refl|].
  destruct (le x y); [apply Permutation_refl|].
  eapply perm_trans; [apply perm_skip, IH | apply perm_swap].
Qed.

Lemma sorted_perm (l : list A) : Permutation (sorted le l) l.
Proof.
  unfold sorted. induction l as [|x l IH]; cbn; [apply perm_nil|].
  eapply perm_trans; [apply insert_sorted_perm | now apply perm_skip].
Qed.

Lemma insert_sorted_hd (x z : A) (l : list A) :
  HdRel R z l -> R z x -> HdRel R z (insert_sorted le x l).
Proof.
  intros Hl Hzx. destruct l as [|y l]; cbn; [now constructor|].
  destruct (le x y); constructor; [assumption | now inversion Hl].
Qed.

Lemma insert_sorted_Sorted (x : A) (l : list A) :
  Sorted R l -> Sorted R (insert_sorted le x l).
Proof.
  induction 1 as [|y l Hl IH Hhd]; cbn; [now repeat constructor|].
  destruct (le x y) eqn:Hxy.
  - constructor; [now constructor | now constructor].
  - constructor; [exact IH|]. apply insert_sorted_hd; [exact Hhd|]. now apply le_total.
Qed.

Lemma sorted_Sorted (l : list A) : Sorted R (sorted le l).
Proof.
  unfold sorted. induction l as [|x l IH]; cbn; [constructor|].
  now apply insert_sorted_Sorted.
Qed.

End Sorting.

Lemma found_files_sorted (input_dir : list (string * string)) :
  Permutation (found_files input_dir) (filter (fun p => endswith ".are" (fst p)) input_dir)
  /\ Sorted taken_before (found_files input_dir).
Proof.
  split; [apply sorted_perm|].
  apply (sorted_Sorted _ (fun p q => key_le (fst p) (fst q))).
  intros x y. apply key_le_total.
Qed.

(** X18. The files [main] converts are the [*.are] files of the input
    directory, each as often as it is there, in an order in which every
    file's sort key is at most the key of the file after it. *)
Theorem found_files_sorted_permutation :
  forall input_dir,
    Permutation (found_files input_dir) (filter (fun p => endswith ".are" (fst p)) input_dir)
    /\ Sorted taken_before (found_files input_dir).
Proof. exact found_files_sorted. Qed.

Lemma insert_sorted_head {A} (le : A -> A -> bool) (x : A) (l : list A) :
  exists rest,
    insert_sorted le x l = x :: rest
    \/ (exists y r, l = y :: r /\ le x y = false /\ insert_sorted le x l = y :: rest).
Proof.
  destruct l as [|y r]; cbn; [exists []; now left|].
  destruct (le x y) eqn:Hxy; [exists (y :: r); now left|].
  exists (insert_sorted le x r). right. now exists y, r.
Qed.

Lemma sorted_midgaard_first (l : list (string * string)) :
  (exists f, In f l /\ stem (fst f) = "midgaard") ->
  exists g rest,
    sorted (fun p q => key_le (fst p) (fst q)) l = g :: rest /\ stem (fst g) = "midgaard".
Proof.
  unfold sorted. induction l as [|x l IH]; intros (f & Hin & Hf); [destruct Hin|].
  cbn [fold_right].
  set (tl := fold_right (insert_sorted (fun p q => key_le (fst p) (fst q))) [] l) in *.
  destruct (insert_sorted_head (fun p q => key_le (fst p) (fst q)) x tl)
    as (rest & [Hhead | (y & r & Htl & Hxy & Hhead)]).
  - destruct (stem (fst x) =? "midgaard") eqn:Hx.
    + apply String.eqb_eq in Hx. now exists x, rest.
    + destruct Hin as [-> | Hin]; [rewrite Hf in Hx; discriminate|].
      destruct (IH (ex_intro _ f (conj Hin Hf))) as (g & rest' & Hg & Hstem).
      rewrite Hg in Hhead. cbn in Hhead.
      unfold key_le in Hhead. rewrite Hx, Hstem in Hhead. cbn in Hhead.
      injection Hhead as Hgx _. rewrite Hgx in Hstem. rewrite Hstem in Hx. discriminate.
  - destruct (stem (fst x) =? "midgaard") eqn:Hx.
    + exists y, rest. split; [exact Hhead|].
      unfold key_le in Hxy. rewrite Hx in Hxy. cbn in Hxy.
      destruct (stem (fst y) =? "midgaard") eqn:Hy; [now apply String.eqb_eq | discriminate].
    + destruct Hin as [-> | Hin]; [rewrite Hf in Hx; discriminate|].
      destruct (IH (ex_intro _ f (conj Hin Hf))) as (g & rest' & Hg & Hstem).
      rewrite Hg in Htl. injection Htl as <- _. now exists g, rest.
Qed.

Lemma found_files_midgaard (input_dir : list (string * string)) (text : string) :
  In ("midgaard.are", text) input_dir ->
  exists text' rest, found_files input_dir = ("midgaard.are", text') :: rest.
Proof.
  intros Hin.
  destruct (sorted_midgaard_first (filter (fun p => endswith ".are" (fst p)) input_dir))
    as ([name text'] & rest & Hsorted & Hstem).
  { exists ("midgaard.are", text). split; [|reflexivity].
    apply filter_In. split; [exact Hin | reflexivity]. }
  exists text', rest. unfold found_files. rewrite Hsorted. do 2 f_equal.
  assert (Hfound : In (name, text') (found_files input_dir))
    by (unfold found_files; rewrite Hsorted; now left).
  apply found_files_In in Hfound as [_ Hare]. cbn [fst] in *.
  rewrite <- (stem_found name Hare); [now rewrite Hstem|].
  intros ->. discriminate Hstem.
Qed.

(** X19. The home area goes first: when the input directory holds
    [midgaard.are], that file is the first one [main] converts, whatever
    the other names are. *)
Theorem midgaard_converted_first :
  forall input_dir text,
    In ("midgaard.are", text) input_dir ->
    exists text' rest, found_files input_dir = ("midgaard.are", text') :: rest.
Proof. exact found_files_midgaard. Qed.

Lemma midgaard_converted_first_witness :
  In ("midgaard.are", "m") demo_dir
  /\ exists text' rest, found_files demo_dir = ("midgaard.are", text') :: rest.
Proof.
  split; [right; right; now left|].
  apply (midgaard_converted_first demo_dir "m"). right; right; now left.
Defined.

(** *** What [main] leaves alone *)

Lemma dict_get_set_other {V} (k k' : string) (v : V) (d : dict V) :
  k' <> k -> dict_get k (dict_set k' v d) = dict_get k d.
Proof.
  intros Hne. induction d as [|[k0 v0] d IH]; cbn.
  - destruct (String.eqb_spec k' k); [contradiction | reflexivity].
  - destruct (String.eqb_spec k0 k') as [-> | Hk0]; cbn.
    + destruct (String.eqb_spec k' k); [contradiction | reflexivity].
    + destruct (k0 =? k); [reflexivity | exact IH].
Qed.

Lemma convert_files_frame (files : list (string * string)) :
  forall output_dir k,
    (dict_mem k output_dir = true -> dict_mem k (snd (convert_files files output_dir)) = true)
    /\ ((forall f, In f files -> output_name (fst f) <> k) ->
        dict_get k (snd (convert_files files output_dir)) = dict_get k output_dir).
Proof.
  induction files as [|[name text] files IH]; intros output_dir k; [now split|].
  cbn [convert_files].
  destruct (parse_area (stem name) text) as [cfg|e|]; try now split.
  unfold bind, modify.
  destruct (IH (dict_set (slug (stem name) ++ ".yaml")
                  (join (String LF EmptyString) (dump_yaml (VDict cfg) 0)
                   ++ String LF EmptyString) output_dir) k) as [Hmem Hget].
  split.
  - intros Hk. now apply Hmem, dict_set_mem_old.
  - intros Hother. rewrite Hget by (intros f Hf; apply Hother; now right).
    apply dict_get_set_other. apply (Hother (name, text)). now left.
Qed.

Lemma main_frame (input_dir : list (string * string)) (output_dir : dict string) (k : string) :
  (dict_mem k output_dir = true -> dict_mem k (snd (main input_dir output_dir)) = true)
  /\ ((forall f, In f input_dir -> endswith ".are" (fst f) = true -> output_name (fst f) <> k) ->
      dict_get k (snd (main input_dir output_dir)) = dict_get k output_dir).
Proof.
  unfold main. fold (found_files input_dir).
  destruct (found_files input_dir) as [|f fs] eqn:Hfound; [now split|].
  rewrite <- Hfound.
  destruct (convert_files_frame (found_files input_dir) output_dir k) as [Hmem Hget].
  split; [exact Hmem|].
  intros Hother. apply Hget. intros g Hg. apply found_files_In in Hg as [Hin Hare].
  now apply Hother.
Qed.

(** X20. [main] removes no file of the output directory, and the only
    files it writes are the [slug(stem).yaml] of the [*.are] files of the
    input directory: whether it ends well or raises on the way, every
    other file keeps its text. *)
Theorem main_touches_only_outputs :
  forall input_dir output_dir k,
    (dict_mem k output_dir = true -> dict_mem k (snd (main input_dir output_dir)) = true)
    /\ ((forall f, In f input_dir -> endswith ".are" (fst f) = true ->
                   output_name (fst f) <> k) ->
        dict_get k (snd (main input_dir output_dir)) = dict_get k output_dir).
Proof. exact main_frame. Qed.

Lemma main_touches_only_outputs_witness :
  dict_mem "notes.md" demo_output_dir = true
  /\ (forall f, In f demo_input_dir -> endswith ".are" (fst f) = true ->
                output_name (fst f) <> "notes.md")
  /\ dict_mem "notes.md" (snd (main demo_input_dir demo_output_dir)) = true
  /\ dict_get "notes.md" (snd (main demo_input_dir demo_output_dir)) = Some "keep".
Proof.
  assert (Hother : forall f, In f demo_input_dir -> endswith ".are" (fst f) = true ->
                             output_name (fst f) <> "notes.md").
  { intros f [<- | [<- | []]] _; vm_compute; discriminate. }
  destruct (main_touches_only_outputs demo_input_dir demo_output_dir "notes.md")
    as [Hmem Hget].
  split; [reflexivity|]. split; [exact Hother|].
  split; [apply Hmem; reflexivity | rewrite (Hget Hother); reflexivity].
Defined.

(** *** The configuration of an area *)

Lemma fold_left_set_head {X V} (key : X -> string) (val : X -> V) (l : list X) :
  forall (k : string) (v : V) (rest : dict V),
    exists v' rest',
      fold_left (fun acc x => dict_set (key x) (val x) acc) l ((k, v) :: rest)
      = (k, v') :: rest'.
Proof.
  induction l as [|x l IH]; intros k v rest; cbn [fold_left]; [now exists v, rest|].
  cbn [dict_set]. destruct (String.eqb_spec k (key x)) as [<- | Hne]; apply IH.
Qed.

Lemma parse_area_start (stem text : string) (out : dict value) :
  parse_area stem text = Return out ->
  exists first entry rest,
    section_of "rooms" out = (first, entry) :: rest
    /\ dict_get "startRoom" out = Some (VStr first)
    /\ dict_get "zone" out = Some (VStr (slug stem)).
Proof.
  unfold parse_area.
  destruct (parse_area_loop _ _ _ _) as [t| |]; cbn [obind]; try discriminate.
  unfold out_rooms.
  destruct (rooms t) as [|[first r] rest] eqn:Hrooms; [discriminate|].
  intros [= <-]. cbn [fold_left dict_set fst snd].
  destruct (fold_left_set_head (fun vr : string * Room => rid (fst vr))
              (fun vr => room_entry ((first, r) :: rest) (snd vr)) rest
              (rid first) (room_entry ((first, r) :: rest) r) [])
    as (entry & rest' & Hfold).
  exists (rid first), entry, rest'. cbn. split; [exact Hfold|]. now split.
Qed.

(** X21. A configuration that [parse_area] returns has a room: its
    [startRoom] is the key of the first entry of its [rooms], and its
    [zone] is the slug of the file's stem. *)
Theorem parse_area_start_room :
  forall stem text out,
    parse_area stem text = Return out ->
    exists first entry rest,
      section_of "rooms" out = (first, entry) :: rest
      /\ dict_get "startRoom" out = Some (VStr first)
      /\ dict_get "zone" out = Some (VStr (slug stem)).
Proof. exact parse_area_start. Qed.

Lemma parse_area_start_room_witness :
  parse_area "demo" demo_area = Return demo_config
  /\ exists first entry rest,
       section_of "rooms" demo_config = (first, entry) :: rest
       /\ dict_get "startRoom" demo_config = Some (VStr first)
       /\ dict_get "zone" demo_config = Some (VStr (slug "demo")).
Proof.
  split; [vm_compute; reflexivity|].
  apply (parse_area_start_room "demo" demo_area). vm_compute. reflexivity.
Defined.

Section NoRoomsHeader.

Variable lines : list string.
Hypothesis no_header : forall l, In l lines -> strip l <> "#ROOMS".

Lemma parse_area_loop_no_rooms (fuel : nat) :
  forall i t t', parse_area_loop lines fuel i t = Return t' -> rooms t' = rooms t.
Proof.
  induction fuel as [|fuel IH]; intros i t t'; [discriminate|].
  cbn [parse_area_loop].
  destruct (nth_error lines i) as [l|] eqn:Hl; [|now intros [= <-]].
  apply nth_error_In in Hl. apply no_header in Hl.
  destruct (String.eqb_spec (strip l) "#ROOMS") as [Heq | _]; [contradiction|].
  destruct (strip l =? "#MOBILES").
  { destruct (parse_entities lines (S i) "#MOBILES") as [[j m]| |]; cbn [obind];
      try discriminate. intros H. now apply IH in H. }
  destruct (strip l =? "#OBJECTS").
  { destruct (parse_entities lines (S i) "#OBJECTS") as [[j o]| |]; cbn [obind];
      try discriminate. intros H. now apply IH in H. }
  destruct (strip l =? "#RESETS").
  { destruct (parse_resets lines (S i) (mobs t) (items t)) as [[[j m] it]| |]; cbn [obind];
      try discriminate. intros H. now apply IH in H. }
  apply IH.
Qed.

End NoRoomsHeader.

Lemma parse_area_no_header (stem text : string) :
  (forall l, In l (splitlines text) -> strip l <> "#ROOMS") ->
  exists e, parse_area stem text = Raise e.
Proof.
  intros Hno. pose proof (parse_area_ends stem text) as Hends. revert Hends.
  unfold parse_area.
  destruct (parse_area_loop _ _ _ _) as [t|e|] eqn:Hloop; cbn [obind].
  - apply (parse_area_loop_no_rooms _ Hno) in Hloop. cbn in Hloop. rewrite Hloop.
    intros _. now exists ValueError.
  - intros _. now exists e.
  - intros H. now destruct H.
Qed.

(** X22. A file none of whose lines is, once stripped, the header
    [#ROOMS] is never converted: [parse_area] raises, whatever other
    sections the file holds. *)
Theorem parse_area_needs_rooms_header :
  forall stem text,
    (forall l, In l (splitlines text) -> strip l <> "#ROOMS") ->
    exists e, parse_area stem text = Raise e.
Proof. exact parse_area_no_header. Qed.

Lemma parse_area_needs_rooms_header_witness :
  (forall l, In l (splitlines group_are) -> strip l <> "#ROOMS")
  /\ exists e, parse_area "group" group_are = Raise e.
Proof.
  assert (H : forall l, In l (splitlines group_are) -> strip l <> "#ROOMS").
  { intros l Hin. vm_compute in Hin.
    destruct Hin as [<- | [<- | [<- | [<- | []]]]]; vm_compute; discriminate. }
  split; [exact H|]. exact (parse_area_needs_rooms_header "group" group_are H).
Defined.

(** *** Resets *)

Lemma dict_adjust_identity {V X} (ident : string * V -> X) (f : V -> V) (k : string)
    (d : dict V) :
  (forall k' v, ident (k', f v) = ident (k', v)) ->
  map ident (dict_adjust f k d) = map ident d.
Proof.
  intros Hf. induction d as [|[k0 v0] d IH]; cbn; [reflexivity|].
  destruct (k0 =? k); cbn; [now rewrite Hf | now rewrite IH].
Qed.

Lemma set_mob_room_identity (room : string) (k : string) (m : Mob) :
  mob_identity (k, set_mob_room room m) = mob_identity (k, m).
Proof. reflexivity. Qed.

Lemma set_item_room_identity (room : string) (k : string) (it : Item) :
  item_identity (k, set_item_room room it) = item_identity (k, it).
Proof. reflexivity. Qed.

Lemma parse_resets_loop_identity (lines : list string) (fuel : nat) :
  forall i room mobs items,
    List.length lines - i < fuel ->
    exists j m it,
      parse_resets_loop lines fuel i room mobs items = Return (j, m, it)
      /\ map mob_identity m = map mob_identity mobs
      /\ map item_identity it = map item_identity items.
Proof.
  induction fuel as [|fuel IH]; intros i room mobs items Hfuel; [lia|].
  cbn [parse_resets_loop].
  destruct (nth_error lines i) as [l|] eqn:Hl; [|now exists i, mobs, items].
  assert (Hi : i < List.length lines) by (apply nth_error_Some; congruence).
  destruct (strip l =? "S"); [now exists (S i), mobs, items|].
  cbv zeta.
  repeat match goal with
         | |- context [if ?c then _ else _] => destruct c
         end;
    match goal with
    | |- context [parse_resets_loop lines fuel (S i) ?r ?m ?it] =>
        destruct (IH (S i) r m it ltac:(lia)) as (j & m' & it' & Hrun & Hm & Hit)
    end;
    exists j, m', it'; (split; [exact Hrun|]);
    rewrite Hm, Hit;
    rewrite ?(dict_adjust_identity mob_identity _ _ _ (fun k v => set_mob_room_identity _ k v)),
            ?(dict_adjust_identity item_identity _ _ _ (fun k v => set_item_room_identity _ k v));
    now split.
Qed.

Lemma parse_resets_identity (lines : list string) (i : nat) (mobs : dict Mob)
    (items : dict Item) :
  exists j m it,
    parse_resets lines i mobs items = Return (j, m, it)
    /\ map mob_identity m = map mob_identity mobs
    /\ map item_identity it = map item_identity items.
Proof.
  apply parse_resets_loop_identity. unfold enough. lia.
Qed.

(** X23. [parse_resets] never raises, whatever the lines are, and it only
    places: the mobs and the items it hands back are the ones it was
    given, in the same order, each with its key, its vnum and its name;
    none is added, dropped or renamed. *)
Theorem parse_resets_only_places :
  forall lines i mobs items,
    exists j m it,
      parse_resets lines i mobs items = Return (j, m, it)
      /\ map mob_identity m = map mob_identity mobs
      /\ map item_identity it = map item_identity items.
Proof. exact parse_resets_identity. Qed.

(** *** Keywords *)

Lemma split_on_head (c : ascii) (a : ascii) (t : string) :
  (a =? c)%char = false ->
  exists h, hd EmptyString (split_on c (String a t)) = String a h.
Proof.
  intros Ha. cbn. rewrite Ha. pose proof (split_on_nonempty c t) as Hne.
  destruct (split_on c t) as [|h r]; [congruence|]. now exists h.
Qed.

Lemma split_on_head_chars (p : ascii -> bool) (c : ascii) (s : string) :
  all_chars p s = true ->
  all_chars (fun a => p a && negb (a =? c)%char) (hd EmptyString (split_on c s)) = true.
Proof.
  induction s as [|a s IH]; cbn; [reflexivity|].
  intros H. apply andb_true_iff in H as [Ha Hs].
  destruct (a =? c)%char eqn:Hac; [reflexivity|].
  specialize (IH Hs). pose proof (split_on_nonempty c s) as Hne.
  destruct (split_on c s) as [|h r]; [congruence|]. cbn in *. now rewrite Ha, Hac, IH.
Qed.

Lemma all_chars_weaken (p q : ascii -> bool) (s : string) :
  (forall c, p c = true -> q c = true) -> all_chars p s = true -> all_chars q s = true.
Proof.
  intros Hpq. induction s as [|a s IH]; cbn; [reflexivity|].
  intros H. apply andb_true_iff in H as [Ha Hs]. now rewrite (Hpq a Ha), IH.
Qed.

Lemma slug_char_not_underscore (c : ascii) :
  slug_char c && negb (c =? "_")%char = true -> lower_alnum_char c = true.
Proof.
  unfold slug_char, underscore, lower_alnum_char.
  destruct (is_az c || is_09 c); [reflexivity|]. cbn. now destruct (c =? "_")%char.
Qed.

Lemma item_keyword (rooms : dict Room) (v : string) (it : Item) :
  exists kw,
    field "keyword" (item_entry rooms v it) = Some (VStr kw)
    /\ kw = hd EmptyString (split_on "_" (slug (item_name it)))
    /\ kw <> EmptyString
    /\ all_chars lower_alnum_char kw = true.
Proof.
  destruct (slug_shape (item_name it)) as (Hne & Hchars & _ & Hhead & _).
  set (kw := hd EmptyString (split_on "_" (slug (item_name it)))).
  assert (Hkw : kw <> EmptyString).
  { unfold kw. destruct (slug (item_name it)) as [|a t]; [congruence|].
    destruct (split_on_head "_" a t) as [h ->]; [|discriminate].
    destruct (Ascii.eqb_spec a "_") as [-> | _]; [now destruct (Hhead t) | reflexivity]. }
  exists kw. split; [|split; [reflexivity | split; [exact Hkw|]]].
  - unfold item_entry. fold kw.
    assert (Hor : or_else kw ("item" ++ v) = kw) by (destruct kw; [congruence | reflexivity]).
    rewrite Hor.
    destruct (item_room_vnum it) as [room|]; [destruct (dict_mem room rooms)|]; reflexivity.
  - apply (all_chars_weaken _ _ _ slug_char_not_underscore).
    now apply split_on_head_chars.
Qed.

(** X24. Every item is emitted with a keyword that is not empty and holds
    lowercase letters and digits only: it is the part of the slug of the
    item's name before its first underscore, and the fall back to
    [item<vnum>] is never taken. *)
Theorem item_keyword_is_word :
  forall rooms v it,
    exists kw,
      field "keyword" (item_entry rooms v it) = Some (VStr kw)
      /\ kw = hd EmptyString (split_on "_" (slug (item_name it)))
      /\ kw <> EmptyString
      /\ all_chars lower_alnum_char kw = true.
Proof. exact item_keyword. Qed.

(** *** Names and descriptions *)

Lemma or_else_filled (a b : string) : b <> EmptyString -> or_else a b <> EmptyString.
Proof. unfold or_else. destruct a; cbn; [trivial | discriminate]. Qed.

Lemma dict_set_Forall {V} (P : string * V -> Prop) (k : string) (v : V) (d : dict V) :
  P (k, v) -> Forall P d -> Forall P (dict_set k v d).
Proof.
  intros Hkv. induction 1 as [|[k0 v0] d H0 Hd IH]; cbn; [now repeat constructor|].
  destruct (k0 =? k); constructor; assumption.
Qed.

Lemma dict_update_Forall {V} (P : string * V -> Prop) (e : dict V) :
  forall d, Forall P e -> Forall P d -> Forall P (dict_update d e).
Proof.
  unfold dict_update. induction e as [|[k v] e IH]; intros d He Hd; cbn; [exact Hd|].
  inversion He as [|x l Hkv Hrest]; subst. apply IH; [exact Hrest|].
  now apply dict_set_Forall.
Qed.

Section Completeness.

Variable lines : list string.

Lemma parse_rooms_loop_described (fuel : nat) :
  forall i rooms j r,
    Forall described rooms ->
    parse_rooms_loop lines fuel i rooms = Return (j, r) ->
    Forall described r.
Proof.
  induction fuel as [|fuel IH]; intros i rooms j r Hrooms; [discriminate|].
  cbn [parse_rooms_loop].
  destruct (nth_error lines i) as [l|]; [|now intros [= _ <-]].
  destruct (strip l =? "#0"); [now intros [= _ <-]|].
  destruct (negb (startswith "#" (strip l)) || (strip l =? "#ROOMS")); [now apply IH|].
  destruct (getitem lines (S i)) as [l1| |]; cbn [obind]; try discriminate.
  destruct (read_desc lines (enough lines) (S (S i)) []) as [[i1 desc]| |];
    cbn [obind]; try discriminate.
  destruct (nth_error lines i1) as [l2|];
    match goal with
    | |- context [read_exits lines (enough lines) ?k []] =>
        destruct (read_exits lines (enough lines) k []) as [[i2 exits]| |]
    end;
    cbn [obind]; try discriminate;
    apply IH; apply dict_set_Forall; try assumption;
    unfold described; cbn [snd description]; apply or_else_filled; discriminate.
Qed.

Lemma parse_entities_loop_named (section : string) (fuel : nat) :
  forall i out j r,
    Forall (fun kv : string * string => snd kv <> EmptyString) out ->
    parse_entities_loop lines section fuel i out = Return (j, r) ->
    Forall (fun kv : string * string => snd kv <> EmptyString) r.
Proof.
  induction fuel as [|fuel IH]; intros i out j r Hout; [discriminate|].
  cbn [parse_entities_loop].
  destruct (nth_error lines i) as [l|]; [|now intros [= _ <-]].
  destruct (strip l =? "#0"); [now intros [= _ <-]|].
  destruct (negb (startswith "#" (strip l)) || (strip l =? section)); [now apply IH|].
  destruct (getitem lines (S i)) as [l1| |]; cbn [obind]; try discriminate.
  destruct (skip_to_hash lines (enough lines) (S i)) as [i1| |]; cbn [obind];
    try discriminate.
  apply IH. apply dict_set_Forall; [|exact Hout]. cbn [snd].
  apply or_else_filled. destruct (lower section); discriminate.
Qed.

Lemma Forall_named_mob (l m : dict Mob) :
  map mob_identity m = map mob_identity l -> Forall named_mob l -> Forall named_mob m.
Proof.
  revert l. induction m as [|[k x] m IH]; intros [|[k' x'] l]; cbn; try discriminate;
    [constructor|].
  intros [= _ _ Hname Hrest] Hl. inversion Hl as [|y ys Hx' Hl']; subst.
  constructor; [|now apply (IH l)]. unfold named_mob in *. cbn [snd] in *. congruence.
Qed.

Lemma Forall_named_item (l m : dict Item) :
  map item_identity m = map item_identity l -> Forall named_item l -> Forall named_item m.
Proof.
  revert l. induction m as [|[k x] m IH]; intros [|[k' x'] l]; cbn; try discriminate;
    [constructor|].
  intros [= _ _ Hname Hrest] Hl. inversion Hl as [|y ys Hx' Hl']; subst.
  constructor; [|now apply (IH l)]. unfold named_item in *. cbn [snd] in *. congruence.
Qed.

Lemma parse_area_loop_complete (fuel : nat) :
  forall i t t', complete t -> parse_area_loop lines fuel i t = Return t' -> complete t'.
Proof.
  induction fuel as [|fuel IH]; intros i t t' (Hr & Hm & Hi); [discriminate|].
  cbn [parse_area_loop].
  destruct (nth_error lines i) as [l|]; [|now intros [= <-]].
  destruct (strip l =? "#ROOMS").
  { destruct (parse_rooms lines (S i)) as [[j r]| |] eqn:Hrun; cbn [obind]; try discriminate.
    apply IH. split; [|now split]. cbn [rooms].
    apply dict_update_Forall; [|exact Hr].
    apply (parse_rooms_loop_described _ _ _ _ _ (Forall_nil _) Hrun). }
  destruct (strip l =? "#MOBILES").
  { destruct (parse_entities lines (S i) "#MOBILES") as [[j m]| |] eqn:Hrun; cbn [obind];
      try discriminate.
    apply IH. split; [exact Hr|]. split; [|exact Hi]. cbn [mobs].
    apply dict_update_Forall; [|exact Hm].
    apply (parse_entities_loop_named _ _ _ _ _ _ (Forall_nil _)) in Hrun.
    apply Forall_map. eapply Forall_impl; [|exact Hrun]. now intros [k v]. }
  destruct (strip l =? "#OBJECTS").
  { destruct (parse_entities lines (S i) "#OBJECTS") as [[j o]| |] eqn:Hrun; cbn [obind];
      try discriminate.
    apply IH. split; [exact Hr|]. split; [exact Hm|]. cbn [items].
    apply dict_update_Forall; [|exact Hi].
    apply (parse_entities_loop_named _ _ _ _ _ _ (Forall_nil _)) in Hrun.
    apply Forall_map. eapply Forall_impl; [|exact Hrun]. now intros [k v]. }
  destruct (strip l =? "#RESETS").
  { destruct (parse_resets_identity lines (S i) (mobs t) (items t))
      as (j & m & it & Hrun & Hsame_m & Hsame_i).
    rewrite Hrun. cbn [obind]. apply IH. split; [exact Hr|]. split.
    - now apply (Forall_named_mob (mobs t)).
    - now apply (Forall_named_item (items t)). }
  now apply IH.
Qed.

End Completeness.

Lemma out_rooms_filled (t : Tables) (k : string) (e : value) :
  Forall described (rooms t) -> In (k, e) (out_rooms t) -> filled "description" e.
Proof.
  rewrite out_rooms_store. intros Hall Hin.
  apply (emitted_In (room_step t)) in Hin as [[] | ([v r] & Hr & Hstep)].
  injection Hstep as _ <-. exists (description r). split; [reflexivity|].
  rewrite Forall_forall in Hall. exact (Hall _ Hr).
Qed.

Lemma out_mobs_filled (t : Tables) (k : string) (e : value) :
  Forall named_mob (mobs t) -> In (k, e) (out_mobs t) -> filled "name" e.
Proof.
  rewrite out_mobs_store. intros Hall Hin.
  apply (emitted_In (mob_step t)) in Hin as [[] | ([v m] & Hm & Hstep)].
  unfold mob_step in Hstep. cbn [fst snd] in Hstep.
  destruct (mob_room_vnum m) as [room|]; [|discriminate].
  destruct (dict_mem room (rooms t)); [|discriminate].
  injection Hstep as _ <-. exists (mob_name m). split; [reflexivity|].
  rewrite Forall_forall in Hall. exact (Hall _ Hm).
Qed.

Lemma out_items_filled (t : Tables) (k : string) (e : value) :
  Forall named_item (items t) -> In (k, e) (out_items t) -> filled "displayName" e.
Proof.
  rewrite out_items_store. intros Hall Hin.
  apply (emitted_In (item_step t)) in Hin as [[] | ([v it] & Hit & Hstep)].
  injection Hstep as _ <-. exists (item_name it). split.
  - cbn [fst snd]. unfold item_entry.
    destruct (item_room_vnum it) as [room|]; [destruct (dict_mem room (rooms t))|];
      reflexivity.
  - rewrite Forall_forall in Hall. exact (Hall _ Hit).
Qed.

Lemma parse_area_filled (stem text : string) (out : dict value) :
  parse_area stem text = Return out ->
  (forall k e, In (k, e) (section_of "rooms" out) -> filled "description" e)
  /\ (forall k e, In (k, e) (section_of "mobs" out) -> filled "name" e)
  /\ (forall k e, In (k, e) (section_of "items" out) -> filled "displayName" e).
Proof.
  unfold parse_area.
  destruct (parse_area_loop _ _ _ _) as [t| |] eqn:Hloop; cbn [obind]; try discriminate.
  apply parse_area_loop_complete in Hloop as (Hr & Hm & Hi);
    [|repeat split; constructor].
  destruct (rooms t) as [|[first r] rest] eqn:Hrooms; [discriminate|].
  intros [= <-]. rewrite <- Hrooms in *. cbn [section_of dict_get String.eqb Ascii.eqb Bool.eqb].
  split; [|split]; intros k e Hin.
  - now apply (out_rooms_filled t k).
  - now apply (out_mobs_filled t k).
  - now apply (out_items_filled t k).
Qed.

(** X25. In a configuration that [parse_area] returns no room has an
    empty description, no mob an empty name and no item an empty display
    name: a blank in the file is replaced by the fall back text. *)
Theorem parse_area_fills_names :
  forall stem text out,
    parse_area stem text = Return out ->
    (forall k e, In (k, e) (section_of "rooms" out) -> filled "description" e)
    /\ (forall k e, In (k, e) (section_of "mobs" out) -> filled "name" e)
    /\ (forall k e, In (k, e) (section_of "items" out) -> filled "displayName" e).
Proof. exact parse_area_filled. Qed.

Lemma parse_area_fills_names_witness :
  parse_area "demo" demo_area = Return demo_config
  /\ (forall k e, In (k, e) (section_of "rooms" demo_config) -> filled "description" e)
  /\ (forall k e, In (k, e) (section_of "mobs" demo_config) -> filled "name" e)
  /\ (forall k e, In (k, e) (section_of "items" demo_config) -> filled "displayName" e).
Proof.
  split; [vm_compute; reflexivity|].
  apply (parse_area_fills_names "demo" demo_area). vm_compute. reflexivity.
Defined.

(** *** The emitted lines *)






(** *** What the parsers raise *)

Section Raising.

Variable lines : list string.

Lemma skip_to_tilde_quiet (fuel : nat) : forall i e, skip_to_tilde lines fuel i <> Raise e.
Proof.
  induction fuel as [|fuel IH]; intros i e; cbn; [discriminate|].
  destruct (nth_error lines i) as [l|]; [|discriminate].
  destruct (negb (contains "~" l)); [apply IH | discriminate].
Qed.

Lemma read_desc_quiet (fuel : nat) : forall i desc e, read_desc lines fuel i desc <> Raise e.
Proof.
  induction fuel as [|fuel IH]; intros i desc e; cbn; [discriminate|].
  destruct (nth_error lines i) as [l|]; [|discriminate].
  destruct (negb (contains "~" l)); [apply IH | discriminate].
Qed.

Lemma skip_to_hash_quiet (fuel : nat) : forall i e, skip_to_hash lines fuel i <> Raise e.
Proof.
  induction fuel as [|fuel IH]; intros i e; cbn; [discriminate|].
  destruct (nth_error lines i) as [l|]; [|discriminate].
  destruct (negb (startswith "#" (strip l))); [apply IH | discriminate].
Qed.

Lemma read_exits_quiet (fuel : nat) :
  forall i exits e, read_exits lines fuel i exits <> Raise e.
Proof.
  induction fuel as [|fuel IH]; intros i exits e; cbn [read_exits]; [discriminate|].
  destruct (nth_error lines i) as [l|]; [|discriminate].
  destruct (is_exit_line (strip l)).
  - cbv zeta.
    pose proof (skip_to_tilde_quiet (enough lines) (S i)) as H1.
    destruct (skip_to_tilde lines (enough lines) (S i)) as [i1|e1|]; cbn [obind];
      [|now destruct (H1 e1) | discriminate].
    pose proof (skip_to_tilde_quiet (enough lines) (S i1)) as H2.
    destruct (skip_to_tilde lines (enough lines) (S i1)) as [i2|e2|]; cbn [obind];
      [|now destruct (H2 e2) | discriminate].
    destruct (nth_error lines (S i2)); apply IH.
  - destruct (strip l =? "S"); [discriminate | apply IH].
Qed.

Lemma getitem_raises {A} (l : list A) (i : nat) (e : exn) :
  getitem l i = Raise e -> e = IndexError.
Proof. unfold getitem. destruct (nth_error l i); [discriminate | now intros [= <-]]. Qed.

Lemma parse_rooms_loop_raises (fuel : nat) :
  forall i rooms e, parse_rooms_loop lines fuel i rooms = Raise e -> e = IndexError.
Proof.
  induction fuel as [|fuel IH]; intros i rooms e; [discriminate|].
  cbn [parse_rooms_loop].
  destruct (nth_error lines i) as [l|]; [|discriminate].
  destruct (strip l =? "#0"); [discriminate|].
  destruct (negb (startswith "#" (strip l)) || (strip l =? "#ROOMS")); [apply IH|].
  destruct (getitem lines (S i)) as [l1|e1|] eqn:Hget; cbn [obind];
    [|intros [= <-]; now apply getitem_raises in Hget | discriminate].
  pose proof (read_desc_quiet (enough lines) (S (S i)) []) as H1.
  destruct (read_desc lines (enough lines) (S (S i)) []) as [[i1 desc]|e1|];
    cbn [obind]; [|now destruct (H1 e1) | discriminate].
  destruct (nth_error lines i1) as [l2|];
    match goal with
    | |- context [read_exits lines (enough lines) ?k []] =>
        pose proof (read_exits_quiet (enough lines) k []) as H2;
        destruct (read_exits lines (enough lines) k []) as [[i2 exits]|e2|]
    end;
    cbn [obind]; try discriminate; try (now destruct (H2 e2)); apply IH.
Qed.

Lemma parse_entities_loop_raises (section : string) (fuel : nat) :
  forall i out e, parse_entities_loop lines section fuel i out = Raise e -> e = IndexError.
Proof.
  induction fuel as [|fuel IH]; intros i out e; [discriminate|].
  cbn [parse_entities_loop].
  destruct (nth_error lines i) as [l|]; [|discriminate].
  destruct (strip l =? "#0"); [discriminate|].
  destruct (negb (startswith "#" (strip l)) || (strip l =? section)); [apply IH|].
  destruct (getitem lines (S i)) as [l1|e1|] eqn:Hget; cbn [obind];
    [|intros [= <-]; now apply getitem_raises in Hget | discriminate].
  pose proof (skip_to_hash_quiet (enough lines) (S i)) as H1.
  destruct (skip_to_hash lines (enough lines) (S i)) as [i1|e1|]; cbn [obind];
    [apply IH | now destruct (H1 e1) | discriminate].
Qed.

Lemma parse_area_loop_raises (fuel : nat) :
  forall i t e, parse_area_loop lines fuel i t = Raise e -> e = IndexError.
Proof.
  induction fuel as [|fuel IH]; intros i t e; [discriminate|].
  cbn [parse_area_loop].
  destruct (nth_error lines i) as [l|]; [|discriminate].
  destruct (strip l =? "#ROOMS").
  { destruct (parse_rooms lines (S i)) as [[j r]|e1|] eqn:Hrun; cbn [obind];
      [apply IH | | discriminate].
    intros [= <-]. now apply parse_rooms_loop_raises in Hrun. }
  destruct (strip l =? "#MOBILES").
  { destruct (parse_entities lines (S i) "#MOBILES") as [[j m]|e1|] eqn:Hrun; cbn [obind];
      [apply IH | | discriminate].
    intros [= <-]. now apply parse_entities_loop_raises in Hrun. }
  destruct (strip l =? "#OBJECTS").
  { destruct (parse_entities lines (S i) "#OBJECTS") as [[j o]|e1|] eqn:Hrun; cbn [obind];
      [apply IH | | discriminate].
    intros [= <-]. now apply parse_entities_loop_raises in Hrun. }
  destruct (strip l =? "#RESETS").
  { destruct (parse_resets_identity lines (S i) (mobs t) (items t))
      as (j & m & it & Hrun & _). rewrite Hrun. cbn [obind]. apply IH. }
  apply IH.
Qed.

End Raising.

Lemma parse_area_cases (stem text : string) :
  (exists out, parse_area stem text = Return out)
  \/ parse_area stem text = Raise ValueError
  \/ parse_area stem text = Raise IndexError.
Proof.
  pose proof (parse_area_ends stem text) as Hends. revert Hends. unfold parse_area.
  destruct (parse_area_loop _ _ _ _) as [t|e|] eqn:Hloop; cbn [obind].
  - intros _. destruct (rooms t) as [|[first r] rest]; [right; now left | left; now eexists].
  - intros _. apply parse_area_loop_raises in Hloop. subst e. right. now right.
  - intros H. now destruct H.
Qed.

(** X27. [parse_area] ends on every text, and in one of three ways: it
    returns a configuration, it raises [ValueError] (no room was found), or
    it raises [IndexError] (a [#vnum] header was the last line of the
    file).  No other error leaves it. *)
Theorem parse_area_outcomes :
  forall stem text,
    (exists out, parse_area stem text = Return out)
    \/ parse_area stem text = Raise ValueError
    \/ parse_area stem text = Raise IndexError.
Proof. exact parse_area_cases. Qed.
